(** * Verification of the benchmarking library against its specification

    The development embeds the statistics engine ([calculateStats],
    [detectOutliers], [calculateEnhancedStats]), the single-run executor
    ([runBenchmark]), the adaptive calibration controller
    ([findIterationsForTargetDuration], [runAdaptiveBenchmark]), the
    comparator ([compareBenchmarks]) and the completion logic and merge of
    the isolated-execution orchestrator ([runIsolatedBenchmark],
    [combineResults]).

    It also embeds the calibration by stability
    ([findIterationsForStatisticalStability]), the batch
    helpers ([batchGenerator], [processInBatches]), the repeated runs
    ([runMultipleBenchmarks]) and the comparison and ranking of adaptive
    runs ([compareAdaptiveBenchmarks], [runMultipleAdaptiveBenchmarks]).

    Number model.  A JavaScript [number] is modelled by a rational ([Q]):
    NaN and the infinities are outside the model.  The one place where the
    source starts from [Infinity] (the relative standard deviation of the
    adaptive loop) has a type of its own.  A quotient by zero, which the
    program turns into an infinity or NaN, is outside the model too: a
    statement that depends on the value of a quotient keeps its divisor away
    from zero.  [Math.sqrt], the timer, the memory probe, the
    garbage-collection hook and the measured function belong to the host and
    are parameters.

    Rounding.  The functions are first modelled with exact arithmetic; what
    is proved of them there are counts, orders and selections, which the
    rounding of the machine does not change.  Where a claim depends on the
    value of a sum or of a quotient ([calculateStats], [combineResults]),
    the function is modelled a second time in [Rounded], with every
    arithmetic result passed through a rounding: [Binary64.round] for the
    program as it runs, the identity for the exact model. *)

From Stdlib Require Import String Ascii.
From Stdlib Require Import QArith Qround Qabs Qminmax ZArith List Bool Lia Lqa.
From Stdlib Require Import Qpower.
From Stdlib Require Import Permutation Sorting.Sorted.
Import ListNotations.

Local Open Scope Q_scope.

(** ** JavaScript helpers *)

Module Js.

(** What a function of the program throws. *)
Inductive Error : Type :=
| FnThrew                      (* the measured function threw *)
| Err (message : string)       (* [new Error(message)] *)
| ExitError (code : Z).        (* [new Error(`... exited with code ${code}`)] *)

(** How a call ends; [OutOfFuel] only arises from the bounded unrolling of
    a [while] loop. *)
Inductive Outcome (A : Type) : Type :=
| Returned (a : A)
| Thrown (e : Error)
| OutOfFuel.
Arguments Returned {A} a.
Arguments Thrown {A} e.
Arguments OutOfFuel {A}.

(** [x || d] on an optional number: [undefined] and [0] are falsy. *)
Definition or_else (x : option Q) (d : Q) : Q :=
  match x with
  | Some v => if Qeq_bool v 0 then d else v
  | None => d
  end.

(** [{ ...defaults, ...options }], field by field. *)
Definition spread {A : Type} (dflt given : option A) : option A :=
  match given with
  | Some v => Some v
  | None => dflt
  end.

(** [array.length] as a number. *)
Definition len {A : Type} (l : list A) : Q := inject_Z (Z.of_nat (length l)).

(** Number of turns of [for (let i = 0; i < n; i++)]. *)
Definition loop_count (n : Q) : nat := Z.to_nat (Qceiling n).

(** [Math.floor]. *)
Definition floor (x : Q) : Q := inject_Z (Qfloor x).

(** [a > b], [a < b] and [a === b] on numbers, as booleans. *)
Definition gt (a b : Q) : bool := negb (Qle_bool a b).
Definition lt (a b : Q) : bool := negb (Qle_bool b a).
Definition eqb (a b : Q) : bool := Qeq_bool a b.

(** [Math.min(a, b)] and [Math.max(a, b)]. *)
Definition min (a b : Q) : Q := if Qle_bool a b then a else b.
Definition max (a b : Q) : Q := if Qle_bool a b then b else a.

(** [Math.min(...values)] and [Math.max(...values)] on a non-empty array
    given as head and tail. *)
Definition min_of (x : Q) (rest : list Q) : Q := fold_left min rest x.
Definition max_of (x : Q) (rest : list Q) : Q := fold_left max rest x.

(** [values.reduce((sum, val) => sum + val, 0)]. *)
Definition sum (values : list Q) : Q := fold_left Qplus values 0.

(** A number without fractional part. *)
Definition whole (x : Q) : Prop := floor x == x.

(** The comparator [(a, b) => a - b]: [a] goes before [b] when the
    difference is not positive. *)
Definition before (a b : Q) : bool := Qle_bool (a - b) 0.

(** [[...values].sort((a, b) => a - b)], as a stable insertion sort. *)
Fixpoint insert (x : Q) (sorted : list Q) : list Q :=
  match sorted with
  | [] => [x]
  | y :: rest => if before x y then x :: sorted else y :: insert x rest
  end.

Definition sort (values : list Q) : list Q := fold_right insert [] values.

(** [sorted[Math.floor(sorted.length / 2)]]; [None] is [undefined], which
    only an empty array gives. *)
Definition middle (sorted : list Q) : option Q :=
  nth_error sorted (length sorted / 2).

End Js.
Import Js.

(** ** Statistics engine (stats-utils.ts and the core module) *)

Module Stats.

Record StatsResult : Type := mkStats {
  mean : Q;
  median : Q;
  min : Q;
  max : Q;
  standardDeviation : Q
}.

Record Outliers : Type := mkOutliers {
  mild : list Q;
  extreme : list Q
}.

Record Detection : Type := mkDetection {
  cleanValues : list Q;
  outliers : Outliers
}.

Definition MILD_THRESHOLD : Q := 35 # 10.
Definition EXTREME_THRESHOLD : Q := 5.

(** The modified z-score of one value. *)
Definition modifiedZScore (med mad value : Q) : Q :=
  if eqb mad 0 then 0 else Qabs ((6745 # 10000) * (value - med) / mad).

(** The three buckets filled by the [forEach] of [detectOutliers], in
    input order. *)
Record Buckets : Type := mkBuckets {
  b_clean : list Q;
  b_mild : list Q;
  b_extreme : list Q
}.

Definition classify (med mad : Q) (b : Buckets) (value : Q) : Buckets :=
  let z := modifiedZScore med mad value in
  if gt z EXTREME_THRESHOLD then
    mkBuckets (b_clean b) (b_mild b) (b_extreme b ++ [value])
  else if gt z MILD_THRESHOLD then
    mkBuckets (b_clean b) (b_mild b ++ [value]) (b_extreme b)
  else
    mkBuckets (b_clean b ++ [value]) (b_mild b) (b_extreme b).

(** The values that [classify] puts into the clean bucket. *)
Definition isClean (med mad value : Q) : bool :=
  negb (gt (modifiedZScore med mad value) EXTREME_THRESHOLD)
  && negb (gt (modifiedZScore med mad value) MILD_THRESHOLD).

(** The safety valve at the end of [detectOutliers]. *)
Definition safetyValve (values : list Q) (b : Buckets) : Detection :=
  if lt (len (b_clean b)) (len values * (1 # 2)) then
    mkDetection values (mkOutliers [] [])
  else
    mkDetection (b_clean b) (mkOutliers (b_mild b) (b_extreme b)).

(** The median and the MAD that [detectOutliers] computes. *)
Definition medianOf (values : list Q) : option Q := middle (sort values).

Definition madOf (med : Q) (values : list Q) : option Q :=
  middle (sort (map (fun val => Qabs (val - med)) values)).

(** The buckets after the [forEach]; an empty array has no median and
    nothing to classify. *)
Definition classification (values : list Q) : Buckets :=
  match medianOf values with
  | None => mkBuckets [] [] []
  | Some med =>
      match madOf med values with
      | None => mkBuckets [] [] []
      | Some mad => fold_left (classify med mad) values (mkBuckets [] [] [])
      end
  end.

Definition detectOutliers (values : list Q) : Detection :=
  safetyValve values (classification values).

(** [m] is the element at index n/2 of the ascending arrangement of the
    even-length array [l], the upper of its two middle values, and is their
    average only when they coincide.  The arrangement is any ascending
    permutation of [l]. *)
Definition UpperMiddle (l : list Q) (m : Q) : Prop :=
  exists (ascending : list Q) (k : nat) (lo : Q),
    Permutation ascending l /\
    StronglySorted Qle ascending /\
    length l = (2 * S k)%nat /\
    nth_error ascending k = Some lo /\
    nth_error ascending (S k) = Some m /\
    lo <= m /\
    (~ lo == m -> ~ m == (lo + m) / 2).

(** [m] is the element at index floor(n/2) of the ascending arrangement of
    [l], whatever the parity of n. *)
Definition Middle (l : list Q) (m : Q) : Prop :=
  exists ascending : list Q,
    Permutation ascending l /\
    StronglySorted Qle ascending /\
    nth_error ascending (length l / 2) = Some m.

(** The arithmetic mean, as every [reduce(...) / length] of the source. *)
Definition meanOf (values : list Q) : Q := sum values / len values.

Section WithSqrt.

(** [Math.sqrt] of the host. *)
Variable sqrt : Q -> Q.

(** [values.reduce((sum, val) => sum + Math.pow(val - mean, 2), 0)
    / values.length]. *)
Definition variance (values : list Q) (m : Q) : Q :=
  fold_left (fun acc val => acc + (val - m) ^ 2) values 0 / len values.

Definition calculateStats (values : list Q) : Outcome StatsResult :=
  match values with
  | [] => Thrown (Err "Cannot calculate stats for empty array")
  | x :: rest =>
      let sorted := sort values in
      let m := meanOf values in
      match middle sorted with
      | None => Thrown (Err "unreachable: a non-empty array has a middle")
      | Some med =>
          Returned (mkStats m med (min_of x rest) (max_of x rest)
                            (sqrt (variance values m)))
      end
  end.

Record Interval : Type := mkInterval { lower : Q; upper : Q }.

Definition calculateConfidenceInterval (values : list Q) (m stdDev : Q)
  : Interval :=
  let Z := 196 # 100 in
  let marginOfError := Z * (stdDev / sqrt (len values)) in
  mkInterval (m - marginOfError) (m + marginOfError).

Definition calculateSkewness (values : list Q) (m stdDev : Q) : Q :=
  if (length values <? 3)%nat || eqb stdDev 0 then 0
  else
    let cubedDeviations := map (fun val => ((val - m) / stdDev) ^ 3) values in
    let sumCubedDeviations := sum cubedDeviations in
    let n := len values in
    let biasAdjustment := n / ((n - 1) * (n - 2)) in
    biasAdjustment * sumCubedDeviations.

Definition calculateKurtosis (values : list Q) (m stdDev : Q) : Q :=
  if (length values <? 4)%nat || eqb stdDev 0 then 0
  else
    let fourthPowerDeviations :=
      map (fun val => ((val - m) / stdDev) ^ 4) values in
    let sumFourthPowerDeviations := sum fourthPowerDeviations in
    let n := len values in
    let biasAdjustment := (n * (n + 1)) / ((n - 1) * (n - 2) * (n - 3)) in
    let biasCorrection := (3 * (n - 1) ^ 2) / ((n - 2) * (n - 3)) in
    biasAdjustment * sumFourthPowerDeviations - biasCorrection.

Record EnhancedStatsResult : Type := mkEnhanced {
  e_stats : StatsResult;
  confidenceInterval95 : Interval;
  relativeMarginOfError : Q;
  e_outliers : Outliers;
  skewness : Q;
  kurtosis : Q
}.

Definition calculateEnhancedStats (values : list Q)
  : Outcome EnhancedStatsResult :=
  match values with
  | [] => Thrown (Err "Cannot calculate stats for empty array")
  | _ :: _ =>
      let d := detectOutliers values in
      let clean := cleanValues d in
      match clean, middle (sort clean) with
      | x :: rest, Some med =>
          let m := meanOf clean in
          let stdDev := sqrt (variance clean m) in
          let ci := calculateConfidenceInterval clean m stdDev in
          let marginOfError := (upper ci - lower ci) / 2 in
          Returned
            (mkEnhanced
               (mkStats m med (min_of x rest) (max_of x rest) stdDev)
               ci
               ((marginOfError / m) * 100)
               (outliers d)
               (calculateSkewness clean m stdDev)
               (calculateKurtosis clean m stdDev))
      | _, _ =>
          Thrown (Err "unreachable: the clean set of a non-empty array is non-empty")
      end
  end.

End WithSqrt.

End Stats.


(** ** The host and the effects of the program *)

Module Core.

Record MemorySnapshot : Type := mkSnapshot {
  heapUsed : Q;
  heapTotal : Q;
  rss : Q;
  external : Q;
  arrayBuffers : Q
}.

Record MemoryDelta : Type := mkDelta {
  d_heapUsed : Q;
  d_heapTotal : Q;
  d_rss : Q;
  d_external : Q
}.

(** What has happened so far: the host answers from it. *)
Record World : Type := mkWorld {
  clock_reads : nat;         (* calls of [performance.now] *)
  fn_calls : nat;            (* invocations of measured functions *)
  gc_runs : nat;             (* calls of [global.gc] *)
  snapshots : nat;           (* calls of [process.memoryUsage] *)
  warnings : list string     (* [console.warn] *)
}.

Definition startOfTime : World := mkWorld 0 0 0 0 [].

Record Host : Type := mkHost {
  performance_now : World -> Q;
  process_memoryUsage : World -> MemorySnapshot;
  global_gc : bool;          (* [typeof global.gc === 'function'] *)
  Math_sqrt : Q -> Q
}.

(** A measured function: what its next invocation does, [None] when it
    throws. *)
Definition BenchmarkFunction (T : Type) : Type := World -> option T.

Definition M (A : Type) : Type := World -> Outcome A * World.

Definition ret {A : Type} (a : A) : M A := fun w => (Returned a, w).

Definition throw {A : Type} (e : Error) : M A := fun w => (Thrown e, w).

Definition outOfFuel {A : Type} : M A := fun w => (OutOfFuel, w).

Definition bind {A B : Type} (m : M A) (k : A -> M B) : M B :=
  fun w =>
    match m w with
    | (Returned a, w') => k a w'
    | (Thrown e, w') => (Thrown e, w')
    | (OutOfFuel, w') => (OutOfFuel, w')
    end.

(** The call ends, by returning or by throwing, within the unrollings it
    was given. *)
Definition finishes {A : Type} (p : Outcome A * World) : Prop :=
  fst p <> OutOfFuel.

Declare Scope effect_scope.
Delimit Scope effect_scope with effect.
Notation "x <- m ;; k" := (bind m (fun x => k))
  (at level 61, m at next level, right associativity) : effect_scope.
Notation "m ;;; k" := (bind m (fun _ => k))
  (at level 61, right associativity) : effect_scope.
Local Open Scope effect_scope.

Section Effects.

Variable host : Host.

Definition now : M Q := fun w =>
  (Returned (performance_now host w),
   mkWorld (S (clock_reads w)) (fn_calls w) (gc_runs w) (snapshots w)
           (warnings w)).

Definition getMemorySnapshot : M MemorySnapshot := fun w =>
  (Returned (process_memoryUsage host w),
   mkWorld (clock_reads w) (fn_calls w) (gc_runs w) (S (snapshots w))
           (warnings w)).

Definition forceGc : M unit := fun w =>
  if global_gc host then
    (Returned tt,
     mkWorld (clock_reads w) (fn_calls w) (S (gc_runs w)) (snapshots w)
             (warnings w))
  else (Returned tt, w).

Definition warn (message : string) : M unit := fun w =>
  (Returned tt,
   mkWorld (clock_reads w) (fn_calls w) (gc_runs w) (snapshots w)
           (warnings w ++ [message])).

Definition call {T : Type} (fn : BenchmarkFunction T) : M T := fun w =>
  let w' := mkWorld (clock_reads w) (S (fn_calls w)) (gc_runs w)
                    (snapshots w) (warnings w) in
  match fn w with
  | Some v => (Returned v, w')
  | None => (Thrown FnThrew, w')
  end.

Definition when (b : bool) (m : M unit) : M unit :=
  if b then m else ret tt.

Definition calculateMemoryDelta (before after : MemorySnapshot)
  : MemoryDelta :=
  mkDelta (heapUsed after - heapUsed before)
          (heapTotal after - heapTotal before)
          (rss after - rss before)
          (external after - external before).

Record BenchmarkOptions : Type := mkOptions {
  iterations : option Q;
  runs : option Q;
  warmupRuns : option Q;
  gcBetweenRuns : option bool
}.

Definition DEFAULT_OPTIONS : BenchmarkOptions :=
  mkOptions (Some 100000) (Some 1) (Some 0) (Some true).

Definition noOptions : BenchmarkOptions := mkOptions None None None None.

Definition mergeOptions (d o : BenchmarkOptions) : BenchmarkOptions :=
  mkOptions (spread (iterations d) (iterations o))
            (spread (runs d) (runs o))
            (spread (warmupRuns d) (warmupRuns o))
            (spread (gcBetweenRuns d) (gcBetweenRuns o)).

Definition truthy (b : option bool) : bool :=
  match b with Some true => true | _ => false end.

Record BenchmarkResult (T : Type) : Type := mkResult {
  duration : Q;
  r_iterations : Q;
  operationsPerSecond : Q;
  memoryDelta : MemoryDelta;
  result : option T        (* [None] is [undefined] *)
}.
Arguments mkResult {T}.
Arguments duration {T}.
Arguments r_iterations {T}.
Arguments operationsPerSecond {T}.
Arguments memoryDelta {T}.
Arguments result {T}.

(** [for (let i = 0; i < n; i++) { benchmarkFn(); if (gc) forceGc(); }] *)
Fixpoint warmupLoop {T : Type} (fn : BenchmarkFunction T) (gc : bool)
  (n : nat) : M unit :=
  match n with
  | O => ret tt
  | S k => _ <- call fn ;; when gc forceGc ;;; warmupLoop fn gc k
  end.

(** [for (let i = 0; i < n; i++) { result = benchmarkFn(); }] *)
Fixpoint timedLoop {T : Type} (fn : BenchmarkFunction T) (n : nat)
  (last : option T) : M (option T) :=
  match n with
  | O => ret last
  | S k => v <- call fn ;; timedLoop fn k (Some v)
  end.

Definition runBenchmark {T : Type} (benchmarkFn : BenchmarkFunction T)
  (options : BenchmarkOptions) : M (BenchmarkResult T) :=
  let opts := mergeOptions DEFAULT_OPTIONS options in
  when (truthy (gcBetweenRuns opts)) forceGc ;;;
  warmupLoop benchmarkFn (truthy (gcBetweenRuns opts))
             (loop_count (or_else (warmupRuns opts) 0)) ;;;
  initialMemory <- getMemorySnapshot ;;
  startTime <- now ;;
  result <- timedLoop benchmarkFn
              (loop_count (or_else (iterations opts) 1)) None ;;
  endTime <- now ;;
  finalMemory <- getMemorySnapshot ;;
  let duration := endTime - startTime in
  let memoryDelta := calculateMemoryDelta initialMemory finalMemory in
  let iterations := or_else (iterations opts) 1 in
  let operationsPerSecond := (iterations / duration) * 1000 in
  ret (mkResult duration iterations operationsPerSecond memoryDelta result).

Record Comparison : Type := mkComparison {
  timeRatio : Q;
  opsRatio : Q;
  memoryRatio : Q;
  fasterName : string;
  percentFaster : Q
}.

(** The comparison that [compareBenchmarks] derives from the two
    results. *)
Definition comparisonOf {T U : Type} (nameA nameB : string)
  (resultA : BenchmarkResult T) (resultB : BenchmarkResult U)
  : Comparison :=
  let timeRatio := duration resultA / duration resultB in
  let opsRatio := operationsPerSecond resultB / operationsPerSecond resultA in
  let memoryRatio :=
    d_heapUsed (memoryDelta resultA) / d_heapUsed (memoryDelta resultB) in
  let fasterName := if gt timeRatio 1 then nameB else nameA in
  let percentFaster :=
    if gt timeRatio 1 then (timeRatio - 1) * 100
    else (1 / timeRatio - 1) * 100 in
  mkComparison timeRatio opsRatio memoryRatio fasterName percentFaster.

Record Named (T : Type) : Type := mkNamed {
  name : string;
  fn : BenchmarkFunction T
}.
Arguments mkNamed {T}.
Arguments name {T}.
Arguments fn {T}.

Definition compareBenchmarks {T U : Type} (benchmarkA : Named T)
  (benchmarkB : Named U) (options : BenchmarkOptions)
  : M (BenchmarkResult T * BenchmarkResult U * Comparison) :=
  resultA <- runBenchmark (fn benchmarkA) options ;;
  resultB <- runBenchmark (fn benchmarkB) options ;;
  ret (resultA, resultB,
       comparisonOf (name benchmarkA) (name benchmarkB) resultA resultB).

End Effects.

Arguments mkResult {T}.
Arguments duration {T}.
Arguments r_iterations {T}.
Arguments operationsPerSecond {T}.
Arguments memoryDelta {T}.
Arguments result {T}.
Arguments mkNamed {T}.
Arguments name {T}.
Arguments fn {T}.

End Core.

(** ** Adaptive calibration (the adaptive part of monitoring.ts) *)

Module Adaptive.
Import Core.
Local Open Scope effect_scope.

Record AdaptiveBenchmarkOptions : Type := mkAdaptiveOptions {
  base : BenchmarkOptions;
  minIterations : option Q;
  maxIterations : option Q;
  targetDuration : option Q;
  maxTime : option Q;
  targetRSD : option Q;
  minSamples : option Q;
  maxSamples : option Q;
  warmupRatio : option Q;
  adaptiveSteps : option Q
}.

Definition DEFAULT_ADAPTIVE_OPTIONS : AdaptiveBenchmarkOptions :=
  mkAdaptiveOptions noOptions
    (Some 1000) (Some 10000000) (Some 500) (Some 30000) (Some 2)
    (Some 5) (Some 100) (Some (1 # 10)) (Some 4).

Definition noAdaptiveOptions : AdaptiveBenchmarkOptions :=
  mkAdaptiveOptions noOptions None None None None None None None None None.

Definition mergeAdaptive (d o : AdaptiveBenchmarkOptions)
  : AdaptiveBenchmarkOptions :=
  mkAdaptiveOptions
    (mergeOptions (base d) (base o))
    (spread (minIterations d) (minIterations o))
    (spread (maxIterations d) (maxIterations o))
    (spread (targetDuration d) (targetDuration o))
    (spread (maxTime d) (maxTime o))
    (spread (targetRSD d) (targetRSD o))
    (spread (minSamples d) (minSamples o))
    (spread (maxSamples d) (maxSamples o))
    (spread (warmupRatio d) (warmupRatio o))
    (spread (adaptiveSteps d) (adaptiveSteps o)).

(** The relative standard deviation starts at [Infinity]. *)
Inductive Rsd : Type :=
| Infinity
| Finite (q : Q).

Definition rsd_gt (r : Rsd) (target : Q) : bool :=
  match r with
  | Infinity => true
  | Finite q => gt q target
  end.

Record Calibration : Type := mkCalibration {
  initialIterations : Q;
  finalIterations : Q;
  c_samples : Q;
  relativeStandardDeviation : Rsd;
  c_adjustmentSteps : Q;
  timeSpent : Q
}.

Record AdaptiveBenchmarkResult (T : Type) : Type := mkAdaptiveResult {
  a_result : BenchmarkResult T;
  calibration : Calibration
}.
Arguments mkAdaptiveResult {T}.
Arguments a_result {T}.
Arguments calibration {T}.

(** The variables that the main loop of [runAdaptiveBenchmark] updates. *)
Record LoopState (T : Type) : Type := mkLoop {
  l_iterations : Q;
  currentStep : Q;
  samples : list (BenchmarkResult T);
  adjustmentSteps : Q;
  l_rsd : Rsd
}.
Arguments mkLoop {T}.
Arguments l_iterations {T}.
Arguments currentStep {T}.
Arguments samples {T}.
Arguments adjustmentSteps {T}.
Arguments l_rsd {T}.

Section Controller.

Variable host : Host.
Variable T : Type.
Variable benchmarkFn : BenchmarkFunction T.

(** [for (let i = 0; i < iterations; i++) { fn(); }] *)
Fixpoint plainLoop (n : nat) : M unit :=
  match n with
  | O => ret tt
  | S k => _ <- call benchmarkFn ;; plainLoop k
  end.

Definition runWarmup (iterations : Q) : M unit :=
  if Qle_bool iterations 0 then ret tt
  else
    forceGc host ;;;
    plainLoop (loop_count iterations) ;;;
    forceGc host.

Definition measureDuration (iterations : Q) : M Q :=
  forceGc host ;;;
  start <- now host ;;
  plainLoop (loop_count iterations) ;;;
  finish <- now host ;;
  ret (finish - start).

(** [Math.max(min, Math.min(max, iterations))]. *)
Definition clamp (opts : AdaptiveBenchmarkOptions) (iterations : Q) : Q :=
  Js.max (or_else (minIterations opts) 1000)
         (Js.min (or_else (maxIterations opts) 10000000) iterations).

Definition findIterationsForTargetDuration
  (options : AdaptiveBenchmarkOptions) : M Q :=
  let opts := mergeAdaptive DEFAULT_ADAPTIVE_OPTIONS options in
  let warmupIterations :=
    Js.max 100 (floor (or_else (minIterations opts) 1000
                       * or_else (warmupRatio opts) (1 # 10))) in
  runWarmup warmupIterations ;;;
  let iterations := or_else (minIterations opts) 1000 in
  duration <- measureDuration iterations ;;
  let iterationsPerMs := iterations / duration in
  let iterations :=
    floor (iterationsPerMs * or_else (targetDuration opts) 500) in
  let iterations := clamp opts iterations in
  duration <- measureDuration iterations ;;
  if gt (Qabs (duration - or_else (targetDuration opts) 500))
        (or_else (targetDuration opts) 500 * (2 # 10))
  then
    let adjustmentFactor := or_else (targetDuration opts) 500 / duration in
    let iterations := floor (iterations * adjustmentFactor) in
    ret (clamp opts iterations)
  else ret iterations.

(** [for (let i = 0; i < (opts.warmupRuns || 1); i++) runWarmup(...)] *)
Fixpoint warmupRounds (n : nat) (iterations : Q) : M unit :=
  match n with
  | O => ret tt
  | S k => runWarmup iterations ;;; warmupRounds k iterations
  end.

Section Loop.

Variable opts : AdaptiveBenchmarkOptions.
Variable initial : Q.
Variable startTime : Q.

(** The condition of the [while], read left to right: the clock is
    only read when the earlier tests leave the answer open. *)
Definition loopCondition (st : LoopState T) : M bool :=
  if lt (len (samples st)) (or_else (minSamples opts) 5) then ret true
  else if rsd_gt (l_rsd st) (or_else (targetRSD opts) 2)
          && lt (len (samples st)) (or_else (maxSamples opts) 100)
  then
    t <- now host ;;
    ret (lt (t - startTime) (or_else (maxTime opts) 30000))
  else ret false.

(** The rescale step: more iterations, and the samples dropped once
    the count has more than doubled. *)
Definition rescale (st : LoopState T) (rsd : Q) : LoopState T :=
  let iterations :=
    Js.min (or_else (maxIterations opts) 10000000)
           (floor (l_iterations st * (15 # 10))) in
  mkLoop iterations (currentStep st + 1)
         (if gt iterations (initial * 2) then [] else samples st)
         (adjustmentSteps st + 1) (Finite rsd).

(** The statistics taken inside the loop once three samples exist. *)
Definition evaluate (st : LoopState T) : M (LoopState T) :=
  if Qle_bool 3 (len (samples st)) then
    match Stats.calculateStats (Math_sqrt host)
            (map duration (samples st)) with
    | Returned stats =>
        let rsd :=
          (Stats.standardDeviation stats / Stats.mean stats) * 100 in
        if Qle_bool (currentStep st) (or_else (adaptiveSteps opts) 4)
           && gt rsd (or_else (targetRSD opts) 2)
        then ret (rescale st rsd)
        else ret (mkLoop (l_iterations st) (currentStep st) (samples st)
                         (adjustmentSteps st) (Finite rsd))
    | Thrown e => throw e
    | OutOfFuel => outOfFuel
    end
  else ret st.

(** The [while] loop, unrolled at most [fuel] times. *)
Fixpoint mainLoop (fuel : nat) (st : LoopState T) : M (LoopState T) :=
  match fuel with
  | O => outOfFuel
  | S fuel' =>
      continue <- loopCondition st ;;
      if continue : bool then
        result <- runBenchmark host benchmarkFn
                    (mkOptions (Some (l_iterations st)) None None None) ;;
        let st1 :=
          mkLoop (l_iterations st) (currentStep st)
                 (samples st ++ [result]) (adjustmentSteps st)
                 (l_rsd st) in
        st2 <- evaluate st1 ;;
        t <- now host ;;
        if gt (t - startTime) (or_else (maxTime opts) 30000) then
          warn "Adaptive benchmark exceeded maximum time limit" ;;;
          ret st2
        else mainLoop fuel' st2
      else ret st
  end.

End Loop.

(** [samples.reduce((sum, s) => sum + s.memoryDelta.f, 0)
    / samples.length]. *)
Definition averageOf (f : MemoryDelta -> Q)
  (samples : list (BenchmarkResult T)) : Q :=
  fold_left (fun acc s => acc + f (memoryDelta s)) samples 0 / len samples.

Definition runAdaptiveBenchmark (fuel : nat)
  (options : AdaptiveBenchmarkOptions) : M (AdaptiveBenchmarkResult T) :=
  let opts := mergeAdaptive DEFAULT_ADAPTIVE_OPTIONS options in
  iterations <- findIterationsForTargetDuration opts ;;
  let initialIterations := iterations in
  startTime <- now host ;;
  warmupRounds (loop_count (or_else (warmupRuns (base opts)) 1))
               iterations ;;;
  st <- mainLoop opts initialIterations startTime fuel
          (mkLoop iterations 1 [] 0 Infinity) ;;
  let durations := map duration (samples st) in
  match Stats.calculateStats (Math_sqrt host) durations with
  | Thrown e => throw e
  | OutOfFuel => outOfFuel
  | Returned durationStats =>
      match last (map (fun s => Some s) (samples st)) None with
      | None => throw (Err "TypeError: Cannot read properties of undefined")
      | Some lastSample =>
          finish <- now host ;;
          ret (mkAdaptiveResult
                 (mkResult (Stats.mean durationStats)
                    (l_iterations st)
                    (l_iterations st / (Stats.mean durationStats / 1000))
                    (mkDelta (averageOf d_heapUsed (samples st))
                             (averageOf d_heapTotal (samples st))
                             (averageOf d_rss (samples st))
                             (averageOf d_external (samples st)))
                    (result lastSample))
                 (mkCalibration initialIterations (l_iterations st)
                    (len (samples st)) (l_rsd st) (adjustmentSteps st)
                    (finish - startTime)))
      end
  end.

End Controller.

Arguments mkAdaptiveResult {T}.
Arguments a_result {T}.
Arguments calibration {T}.
Arguments mkLoop {T}.
Arguments l_iterations {T}.
Arguments currentStep {T}.
Arguments samples {T}.
Arguments adjustmentSteps {T}.
Arguments l_rsd {T}.

(** The iteration bounds in force. *)
Definition lowerBound (opts : AdaptiveBenchmarkOptions) : Q :=
  or_else (minIterations opts) 1000.
Definition upperBound (opts : AdaptiveBenchmarkOptions) : Q :=
  or_else (maxIterations opts) 10000000.

(** The iteration count is a whole number not below the initial one. *)
Definition Safe {T : Type} (initial : Q) (st : LoopState T) : Prop :=
  initial <= l_iterations st /\ whole (l_iterations st).

(** A bound on the turns that the main loop can still take: the samples
    that fit under the larger of [minSamples] and [maxSamples], once more
    for every rescale step that is left. *)
Definition sampleCap (opts : AdaptiveBenchmarkOptions) : nat :=
  Z.to_nat (Qceiling (Js.max (or_else (minSamples opts) 5)
                             (or_else (maxSamples opts) 100))).

Definition rescalesLeft {T : Type} (opts : AdaptiveBenchmarkOptions)
  (st : LoopState T) : nat :=
  Z.to_nat (Qfloor (or_else (adaptiveSteps opts) 4 - currentStep st) + 1).

Definition turnsLeft {T : Type} (opts : AdaptiveBenchmarkOptions)
  (st : LoopState T) : nat :=
  rescalesLeft opts st * S (sampleCap opts)
  + (sampleCap opts - length (samples st)).

(** What the main loop keeps true of its variables: the samples stay
    under the cap, the step counter is one ahead of the count of rescale
    steps, which never exceeds [adaptiveSteps]; before the first rescale
    step the iteration count is the initial one, and after it the count is
    at most [maxIterations]. *)
Definition Kept {T : Type} (opts : AdaptiveBenchmarkOptions) (initial : Q)
  (st : LoopState T) : Prop :=
  (length (samples st) <= sampleCap opts)%nat /\
  adjustmentSteps st + 1 == currentStep st /\
  0 <= adjustmentSteps st /\
  ((adjustmentSteps st == 0 /\ l_iterations st = initial) \/
   (1 <= adjustmentSteps st /\
    adjustmentSteps st <= or_else (adaptiveSteps opts) 4 /\
    l_iterations st <= upperBound opts)).

(** Enough unrollings for a whole run with the given options. *)
Definition enoughFuel (options : AdaptiveBenchmarkOptions) : nat :=
  S (turnsLeft (mergeAdaptive DEFAULT_ADAPTIVE_OPTIONS options)
               (@mkLoop unit 0 1 [] 0 Infinity)).

End Adaptive.

(** ** The isolated-execution orchestrator *)

Module Isolation.
Import Core.

(** What a measured function is taken to return when its result crosses
    the context boundary: [null], a boolean or a number ([undefined] is
    the [None] of the [result] field).  Strings and objects are left out:
    adding them to a number needs number formatting. *)
Inductive Value : Type :=
| VNull
| VBoolean (b : bool)
| VNumber (n : Q)
| VNaN.

Definition Report : Type := BenchmarkResult Value.

(** [typeof v === 'number']. *)
Definition isNumber (v : option Value) : bool :=
  match v with
  | Some (VNumber _) | Some VNaN => true
  | _ => false
  end.

(** [sum + v] for a numeric [sum]; [None] is NaN. *)
Definition plus (sum : option Q) (v : option Value) : option Q :=
  match sum, v with
  | Some s, Some (VNumber n) => Some (s + n)
  | Some s, Some (VBoolean b) => Some (s + (if b then 1 else 0))
  | Some s, Some VNull => Some (s + 0)
  | _, _ => None
  end.

(** [results.reduce((sum, result) => sum + result[key], 0)
    / results.length] for the key [result]. *)
Definition averageResult (results : list Report) : Value :=
  match fold_left (fun sum r => plus sum (result r)) results (Some 0) with
  | Some s => VNumber (s / len results)
  | None => VNaN
  end.

(** The mean that the [forEach] of [combineResults] accumulates for one
    metric. *)
Definition accumulate (f : Report -> Q) (results : list Report) : Q :=
  fold_left (fun acc r => acc + f r / len results) results 0.

(** The reports carry the five keys written by the worker scripts, so
    [result] is the only custom key. *)
Definition combineResults (results : list Report) : Outcome Report :=
  match results with
  | [] => Thrown (Err "No results to combine")
  | [only] => Returned only
  | first :: _ =>
      Returned
        (mkResult
           (accumulate duration results)
           (r_iterations first)
           (accumulate operationsPerSecond results)
           (mkDelta
              (accumulate (fun r => d_heapUsed (memoryDelta r)) results)
              (accumulate (fun r => d_heapTotal (memoryDelta r)) results)
              (accumulate (fun r => d_rss (memoryDelta r)) results)
              (accumulate (fun r => d_external (memoryDelta r)) results))
           (if isNumber (result first) then Some (averageResult results)
            else result first))
  end.

Record IsolatedBenchmarkOptions : Type := mkIsolatedOptions {
  i_base : BenchmarkOptions;
  useWorkerThreads : option bool;
  processCount : option Q;
  prioritize : option bool;
  isolateCPU : option bool;
  warmup : option bool
}.

Definition DEFAULT_ISOLATION_OPTIONS : IsolatedBenchmarkOptions :=
  mkIsolatedOptions (mkOptions (Some 100000) (Some 1) (Some 0) (Some true))
    (Some false) (Some 1) (Some false) (Some false) (Some true).

Definition mergeIsolated (d o : IsolatedBenchmarkOptions)
  : IsolatedBenchmarkOptions :=
  mkIsolatedOptions
    (mergeOptions (i_base d) (i_base o))
    (spread (useWorkerThreads d) (useWorkerThreads o))
    (spread (processCount d) (processCount o))
    (spread (prioritize d) (prioritize o))
    (spread (isolateCPU d) (isolateCPU o))
    (spread (warmup d) (warmup o)).

Inductive MessageType : Type :=
| RUN_BENCHMARK
| BENCHMARK_RESULT
| ERROR.

Record BenchmarkMessage : Type := mkMessage {
  type : MessageType;
  m_result : option Report;
  m_error : option string
}.

(** What a launched context raises on the orchestrator's event loop. *)
Inductive ContextEvent : Type :=
| OnMessage (message : BenchmarkMessage)
| OnError (error : Error)
| OnExit (code : Z).

Inductive Promise : Type :=
| Pending
| Resolved (r : Report)
| Rejected (e : Error).

(** A settled promise ignores later calls of [resolve] and [reject]. *)
Definition settle (p outcome : Promise) : Promise :=
  match p with
  | Pending => outcome
  | _ => p
  end.

(** The variables captured by [handleCompletion], the promise, the
    cleanups of the temporary file and the exceptions that escaped an
    event handler. *)
Record Orchestration : Type := mkOrchestration {
  results : list Report;
  completedCount : nat;
  errorOccurred : bool;
  promise : Promise;
  cleanups : nat;
  uncaught : list Error
}.

Definition launched : Orchestration := mkOrchestration [] 0 false Pending 0 [].

(** [completedCount === opts.processCount]. *)
Definition reached (count : nat) (wanted : option Q) : bool :=
  match wanted with
  | Some n => eqb (inject_Z (Z.of_nat count)) n
  | None => false
  end.

Definition handleCompletion (opts : IsolatedBenchmarkOptions)
  (result : option Report) (error : option Error) (st : Orchestration)
  : Orchestration :=
  if errorOccurred st then st
  else
    match error with
    | Some e =>
        mkOrchestration (results st) (completedCount st) true
          (settle (promise st) (Rejected e)) (S (cleanups st)) (uncaught st)
    | None =>
        let results' :=
          match result with
          | Some r => results st ++ [r]
          | None => results st
          end in
        let count' := S (completedCount st) in
        if reached count' (processCount opts) then
          match combineResults results' with
          | Returned combinedResult =>
              mkOrchestration results' count' false
                (settle (promise st) (Resolved combinedResult))
                (S (cleanups st)) (uncaught st)
          | Thrown e =>
              mkOrchestration results' count' false (promise st)
                (S (cleanups st)) (uncaught st ++ [e])
          | OutOfFuel =>
              (* [combineResults] has no loop to unroll *)
              mkOrchestration results' count' false (promise st)
                (S (cleanups st)) (uncaught st)
          end
        else
          mkOrchestration results' count' false (promise st) (cleanups st)
            (uncaught st)
    end.

(** The arguments with which the listeners of a context call
    [handleCompletion], if they call it. *)
Definition callbackOf (event : ContextEvent)
  : option (option Report * option Error) :=
  match event with
  | OnMessage message =>
      match type message with
      | BENCHMARK_RESULT => Some (m_result message, None)
      | ERROR =>
          Some (None,
                Some (Err (match m_error message with
                           | Some text => text
                           | None => ""
                           end)))
      | RUN_BENCHMARK => None
      end
  | OnError error => Some (None, Some error)
  | OnExit code =>
      if (code =? 0)%Z then None else Some (None, Some (ExitError code))
  end.

Definition deliver (opts : IsolatedBenchmarkOptions) (st : Orchestration)
  (cb : option Report * option Error) : Orchestration :=
  handleCompletion opts (fst cb) (snd cb) st.

Definition listen (opts : IsolatedBenchmarkOptions) (st : Orchestration)
  (event : ContextEvent) : Orchestration :=
  match callbackOf event with
  | Some cb => deliver opts st cb
  | None => st
  end.

(** [/^[a-zA-Z0-9_$]+$/.test(benchmarkName)]. *)
Definition allowed (c : ascii) : bool :=
  let n := nat_of_ascii c in
  ((97 <=? n) && (n <=? 122) || (65 <=? n) && (n <=? 90)
   || (48 <=? n) && (n <=? 57) || (n =? 95) || (n =? 36))%nat.

Fixpoint allAllowed (s : string) : bool :=
  match s with
  | EmptyString => true
  | String c rest => allowed c && allAllowed rest
  end.

Definition validName (benchmarkName : string) : bool :=
  match benchmarkName with
  | EmptyString => false
  | _ => allAllowed benchmarkName
  end.

(** The state of the orchestration after the launched contexts have
    raised [events], in the order in which the event loop delivered them.
    A throw while launching, which the source catches and turns into a
    rejection, is not modelled. *)
Definition runIsolatedBenchmark (benchmarkName benchmarkCode : string)
  (options : IsolatedBenchmarkOptions) (events : list ContextEvent)
  : Outcome Orchestration :=
  let opts := mergeIsolated DEFAULT_ISOLATION_OPTIONS options in
  if validName benchmarkName then
    Returned (fold_left (listen opts) events launched)
  else
    Thrown (Err "Invalid benchmark name. Use only alphanumeric characters, _ and $").

(** The calls of [handleCompletion] that a trace of events makes. *)
Definition callbacks (events : list ContextEvent)
  : list (option Report * option Error) :=
  flat_map (fun event => match callbackOf event with
                         | Some cb => [cb]
                         | None => []
                         end) events.

(** The reports carried by calls of [handleCompletion]. *)
Definition payloads (calls : list (option Report * option Error))
  : list Report :=
  flat_map (fun cb => match fst cb with
                      | Some r => [r]
                      | None => []
                      end) calls.

Definition isReport (cb : option Report * option Error) : Prop :=
  snd cb = None.

(** Two merged results agree field by field. *)
Definition sameValue (a b : option Value) : Prop :=
  match a, b with
  | Some (VNumber x), Some (VNumber y) => x == y
  | _, _ => a = b
  end.

Definition sameMeans (a b : Report) : Prop :=
  duration a == duration b /\
  operationsPerSecond a == operationsPerSecond b /\
  d_heapUsed (memoryDelta a) == d_heapUsed (memoryDelta b) /\
  d_heapTotal (memoryDelta a) == d_heapTotal (memoryDelta b) /\
  d_rss (memoryDelta a) == d_rss (memoryDelta b) /\
  d_external (memoryDelta a) == d_external (memoryDelta b).

Definition sameReport (a b : Report) : Prop :=
  sameMeans a b /\
  r_iterations a == r_iterations b /\
  sameValue (result a) (result b).

(** The reports agree on what the merge copies from the first of them:
    the iteration count, and the [result] unless every report has a
    number there. *)
Definition Agree (reports : list Report) : Prop :=
  (forall r r', In r reports -> In r' reports ->
                r_iterations r == r_iterations r') /\
  ((forall r, In r reports -> exists n, result r = Some (VNumber n)) \/
   (forall r r', In r reports -> In r' reports ->
                 result r = result r' /\ isNumber (result r) = false)).

(** The number held by the [result] of a report. *)
Definition numberOf (r : Report) : Q :=
  match result r with
  | Some (VNumber n) => n
  | _ => 0
  end.

End Isolation.

(** ** Binary64 rounding *)

Module Binary64.

(** The finite values of a binary64 number are rationals; this is the
    rounding of a rational to the nearest of them, ties to the even
    significand, with the subnormal range and without the overflow to an
    infinity (results of magnitude 2^1024 and above are outside the
    model). *)

Definition pow2 (e : Z) : Q := Qpower 2 e.

(** The [e] with [2^e <= a < 2^(e+1)], for a positive [a]. *)
Definition exponent (a : Q) : Z :=
  let e := (Z.log2 (Qnum a) - Z.log2 (Zpos (Qden a)))%Z in
  if Qle_bool (pow2 e) a then e else (e - 1)%Z.

(** The distance between neighbouring binary64 values around [a]:
    53 significant bits, and 2^-1074 below 2^-1022. *)
Definition spacing (a : Q) : Q := pow2 (Z.max (exponent a) (-1022) - 52).

(** The nearest integer, the even one at a tie. *)
Definition nearestEven (m : Q) : Z :=
  let f := Qfloor m in
  match Qcompare (m - inject_Z f) (1 # 2) with
  | Lt => f
  | Gt => (f + 1)%Z
  | Eq => if Z.even f then f else (f + 1)%Z
  end.

Definition round (x : Q) : Q :=
  let x := Qred x in
  if Qeq_bool x 0 then 0
  else
    let s := spacing (Qabs x) in
    Qred (inject_Z (nearestEven (x / s)) * s).

End Binary64.

(** ** The arithmetic of the program with its rounding *)

Module Rounded.
Import Core Isolation.

Section Arithmetic.

(** What the machine returns for an exact result: [Binary64.round] for the
    program as it runs, the identity for arithmetic without rounding. *)
Variable rnd : Q -> Q.

Definition add (a b : Q) : Q := rnd (a + b).
Definition sub (a b : Q) : Q := rnd (a - b).
Definition div (a b : Q) : Q := rnd (a / b).

(** [Math.pow(a, 2)]. *)
Definition square (a : Q) : Q := rnd (a ^ 2).

(** The comparator [(a, b) => a - b]. *)
Definition before (a b : Q) : bool := Qle_bool (sub a b) 0.

Fixpoint insert (x : Q) (sorted : list Q) : list Q :=
  match sorted with
  | [] => [x]
  | y :: rest => if before x y then x :: sorted else y :: insert x rest
  end.

Definition sort (values : list Q) : list Q := fold_right insert [] values.

(** [values.reduce((sum, val) => sum + val, 0)]. *)
Definition sum (values : list Q) : Q := fold_left add values 0.

Section WithSqrt.

Variable sqrt : Q -> Q.

(** [values.reduce((sum, val) => sum + Math.pow(val - mean, 2), 0)
    / values.length]. *)
Definition variance (values : list Q) (m : Q) : Q :=
  div (fold_left (fun acc val => add acc (square (sub val m))) values 0)
      (len values).

(** [calculateStats] of the core module. *)
Definition calculateStats (values : list Q) : Outcome Stats.StatsResult :=
  match values with
  | [] => Thrown (Err "Cannot calculate stats for empty array")
  | x :: rest =>
      let sorted := sort values in
      let m := div (sum values) (len values) in
      match middle sorted with
      | None => Thrown (Err "unreachable: a non-empty array has a middle")
      | Some med =>
          Returned (Stats.mkStats m med (min_of x rest) (max_of x rest)
                                  (sqrt (variance values m)))
      end
  end.

End WithSqrt.

(** [combined.f += result.f / results.length], report by report. *)
Definition accumulate (f : Report -> Q) (results : list Report) : Q :=
  fold_left (fun acc r => add acc (div (f r) (len results))) results 0.

(** [sum + v] for a numeric [sum]; [None] is NaN. *)
Definition plus (sum : option Q) (v : option Value) : option Q :=
  match sum, v with
  | Some s, Some (VNumber n) => Some (add s n)
  | Some s, Some (VBoolean b) => Some (add s (if b then 1 else 0))
  | Some s, Some VNull => Some (add s 0)
  | _, _ => None
  end.

Definition averageResult (results : list Report) : Value :=
  match fold_left (fun sum r => plus sum (result r)) results (Some 0) with
  | Some s => VNumber (div s (len results))
  | None => VNaN
  end.

(** [combineResults] of the orchestrator. *)
Definition combineResults (results : list Report) : Outcome Report :=
  match results with
  | [] => Thrown (Err "No results to combine")
  | [only] => Returned only
  | first :: _ =>
      Returned
        (mkResult
           (accumulate duration results)
           (r_iterations first)
           (accumulate operationsPerSecond results)
           (mkDelta
              (accumulate (fun r => d_heapUsed (memoryDelta r)) results)
              (accumulate (fun r => d_heapTotal (memoryDelta r)) results)
              (accumulate (fun r => d_rss (memoryDelta r)) results)
              (accumulate (fun r => d_external (memoryDelta r)) results))
           (if isNumber (result first) then Some (averageResult results)
            else result first))
  end.

End Arithmetic.

(** Arithmetic without rounding. *)
Definition exact (x : Q) : Q := x.

(** What the theorems below ask of a rounding: it is a function of the
    value of its argument, and it leaves a rounded value as it is. *)
Definition Rounding (rnd : Q -> Q) : Prop :=
  (forall x y, x == y -> rnd x == rnd y) /\
  (forall x, rnd (rnd x) == rnd x).

End Rounded.

(** ** The three classes of [detectOutliers] *)

Module Classes.

(** The values that [classify] puts into the extreme and into the mild
    bucket ([Stats.isClean] tells the clean ones). *)
Definition isExtreme (med mad value : Q) : bool :=
  gt (Stats.modifiedZScore med mad value) Stats.EXTREME_THRESHOLD.

Definition isMild (med mad value : Q) : bool :=
  negb (gt (Stats.modifiedZScore med mad value) Stats.EXTREME_THRESHOLD)
  && gt (Stats.modifiedZScore med mad value) Stats.MILD_THRESHOLD.

(** Exactly one of three tests holds. *)
Definition exactlyOne (a b c : bool) : Prop :=
  (a = true /\ b = false /\ c = false) \/
  (a = false /\ b = true /\ c = false) \/
  (a = false /\ b = false /\ c = true).

End Classes.

(** ** Calibration by stability (stats-utils.ts) *)

Module Stability.
Import Core.
Local Open Scope effect_scope.

(** [calculateCV]. *)
Definition calculateCV (mean stdDev : Q) : Q :=
  if eqb mean 0 then 0 else (stdDev / mean) * 100.

(** [calculateMemoryDelta] of stats-utils.ts, on the five fields of
    [NodeJS.MemoryUsage]. *)
Definition calculateMemoryDelta (initialMemory finalMemory : MemorySnapshot)
  : MemorySnapshot :=
  mkSnapshot (heapUsed finalMemory - heapUsed initialMemory)
             (heapTotal finalMemory - heapTotal initialMemory)
             (rss finalMemory - rss initialMemory)
             (external finalMemory - external initialMemory)
             (arrayBuffers finalMemory - arrayBuffers initialMemory).

Section Calibration.

Variable host : Host.
Variable T : Type.
Variable benchmarkFn : BenchmarkFunction T.
Variable targetRSD : Q.
Variable initialIterations : Q.
Variable maxIterations : Q.
Variable minSamples : Q.

(** The test made once [minSamples] durations are collected. *)
Definition stable (samples : list Q) : bool :=
  if Qle_bool minSamples (len samples) then
    let mean := Stats.meanOf samples in
    let variance := Stats.variance samples mean in
    let stdDev := Math_sqrt host variance in
    let rsd := (stdDev / mean) * 100 in
    Qle_bool rsd targetRSD
  else false.

(** The [while] loop of [findIterationsForStatisticalStability], unrolled
    at most [fuel] times. *)
Fixpoint stabilityLoop (fuel : nat) (iterations : Q) (samples : list Q)
  : M Q :=
  match fuel with
  | O => outOfFuel
  | S fuel' =>
      if Qle_bool iterations maxIterations then
        start <- now host ;;
        _ <- call benchmarkFn ;;
        finish <- now host ;;
        let duration := finish - start in
        let samples1 := samples ++ [duration] in
        if stable samples1 then ret iterations
        else
          let iterations' := Js.min (iterations * 2) maxIterations in
          let samples2 :=
            if gt iterations' (initialIterations * 4) then [] else samples1 in
          forceGc host ;;;
          stabilityLoop fuel' iterations' samples2
      else ret maxIterations
  end.

Definition findIterationsForStatisticalStability (fuel : nat) : M Q :=
  stabilityLoop fuel initialIterations [].

End Calibration.

(** Where the loop is after no, one, two and more turns when the samples
    are reset before [minSamples] of them exist. *)
Definition OnTrack (initialIterations maxIterations iterations : Q)
  (samples : list Q) : Prop :=
  (iterations == initialIterations /\ length samples = 0%nat) \/
  (iterations == initialIterations * 2 /\ length samples = 1%nat) \/
  (iterations == initialIterations * 4 /\ length samples = 2%nat) \/
  (initialIterations * 4 < iterations /\ iterations <= maxIterations /\
   length samples = 0%nat).

(** The default arguments of [findIterationsForStatisticalStability]. *)
Definition defaultTargetRSD : Q := 2.
Definition defaultInitialIterations : Q := 1000.
Definition defaultMaxIterations : Q := 10000000.
Definition defaultMinSamples : Q := 5.

End Stability.

(** ** Batches and repeated runs (the core module) *)

Module Batches.
Import Core.
Local Open Scope effect_scope.

(** [ToIntegerOrInfinity] on a finite number: the fraction is dropped. *)
Definition trunc (x : Q) : Z :=
  if Qle_bool 0 x then Qfloor x else Qceiling x.

(** The position that [Array.prototype.slice] makes of an argument: a
    negative one counts from the end, and the result stays in the array. *)
Definition toIndex (length : nat) (x : Q) : nat :=
  let t := trunc x in
  if (t <? 0)%Z then Z.to_nat (Z.max (Z.of_nat length + t) 0)
  else Z.to_nat (Z.min t (Z.of_nat length)).

(** [items.slice(from, to)]. *)
Definition slice {A : Type} (items : list A) (from to : Q) : list A :=
  let k := toIndex (length items) from in
  let final := toIndex (length items) to in
  firstn (final - k) (skipn k items).

(** The batches that [batchGenerator] yields from index [i] on, the loop
    unrolled at most [fuel] times. *)
Fixpoint batchesFrom {A : Type} (fuel : nat) (items : list A)
  (batchSize i : Q) : Outcome (list (list A)) :=
  match fuel with
  | O => OutOfFuel
  | S fuel' =>
      if lt i (len items) then
        match batchesFrom fuel' items batchSize (i + batchSize) with
        | Returned rest => Returned (slice items i (i + batchSize) :: rest)
        | Thrown e => Thrown e
        | OutOfFuel => OutOfFuel
        end
      else Returned []
  end.

Definition batchGenerator {A : Type} (fuel : nat) (items : list A)
  (batchSize : Q) : Outcome (list (list A)) :=
  batchesFrom fuel items batchSize 0.

Definition defaultBatchSize : Q := 1000000.

(** The body of the [for ... of] of [processInBatches], batch after
    batch. *)
Fixpoint processEach {A R : Type} (host : Host)
  (processor : list A -> list R) (gcBetweenBatches : bool)
  (batches : list (list A)) (results : list R) : M (list R) :=
  match batches with
  | [] => ret results
  | batch :: rest =>
      let batchResults := processor batch in
      when gcBetweenBatches (forceGc host) ;;;
      processEach host processor gcBetweenBatches rest
                  (results ++ batchResults)
  end.

Definition processInBatches {A R : Type} (host : Host) (fuel : nat)
  (items : list A) (processor : list A -> list R) (batchSize : Q)
  (gcBetweenBatches : bool) : M (list R) :=
  match batchGenerator fuel items batchSize with
  | Returned batches =>
      processEach host processor gcBetweenBatches batches []
  | Thrown e => throw e
  | OutOfFuel => outOfFuel
  end.

End Batches.

Module Multiple.
Import Core.
Local Open Scope effect_scope.

Record RunStats : Type := mkRunStats {
  s_duration : Stats.StatsResult;
  s_operationsPerSecond : Stats.StatsResult;
  s_memoryUsed : Stats.StatsResult
}.

Section Runs.

Variable host : Host.
Variable T : Type.
Variable benchmarkFn : BenchmarkFunction T.

(** [{ ...DEFAULT_OPTIONS, ...options, runs: options.runs || 5 }]. *)
Definition multipleOptions (options : BenchmarkOptions) : BenchmarkOptions :=
  let merged := mergeOptions DEFAULT_OPTIONS options in
  mkOptions (iterations merged) (Some (or_else (runs options) 5))
            (warmupRuns merged) (gcBetweenRuns merged).

(** The [for] loop over the runs; [first] tells the run with [i === 0]. *)
Fixpoint runsLoop (n : nat) (first : bool) (opts : BenchmarkOptions)
  (done : list (BenchmarkResult T)) : M (list (BenchmarkResult T)) :=
  match n with
  | O => ret done
  | S k =>
      result <- runBenchmark host benchmarkFn
                  (mkOptions (iterations opts) (runs opts)
                             (if first then warmupRuns opts else Some 0)
                             (gcBetweenRuns opts)) ;;
      when (truthy (gcBetweenRuns opts)) (forceGc host) ;;;
      runsLoop k false opts (done ++ [result])
  end.

(** [calculateStats], its throw propagated. *)
Definition statsOf (values : list Q) : M Stats.StatsResult :=
  match Stats.calculateStats (Math_sqrt host) values with
  | Returned s => ret s
  | Thrown e => throw e
  | OutOfFuel => outOfFuel
  end.

Definition runMultipleBenchmarks (options : BenchmarkOptions)
  : M (list (BenchmarkResult T) * RunStats) :=
  let opts := multipleOptions options in
  runs <- runsLoop (loop_count (or_else (runs options) 5)) true opts [] ;;
  duration <- statsOf (map duration runs) ;;
  operationsPerSecond <- statsOf (map operationsPerSecond runs) ;;
  memoryUsed <-
    statsOf (map (fun r => d_heapUsed (memoryDelta r) / (1024 * 1024)) runs) ;;
  ret (runs, mkRunStats duration operationsPerSecond memoryUsed).

End Runs.

End Multiple.

(** ** Comparison and ranking of adaptive runs (monitoring.ts) *)

Module Ranking.
Import Core Adaptive.
Local Open Scope effect_scope.

Section Objects.

Variable V : Type.

(** An object used as a map from names: its own properties in the order
    in which they were created. *)
Definition Obj : Type := list (string * V).

(** [o[key] = value] for a key that names an own property or none: a
    property that exists keeps its place. *)
Fixpoint define (o : Obj) (key : string) (value : V) : Obj :=
  match o with
  | [] => [(key, value)]
  | (k, v) :: rest =>
      if String.eqb k key then (k, value) :: rest
      else (k, v) :: define rest key value
  end.

(** [o[key] = value] on an object created by [{}], for a [value] that is an
    object.  The key ["__proto__"] reaches the setter inherited from
    [Object.prototype]: the assignment replaces the prototype and creates no
    own property.  Every other property that can be inherited here is a
    writable data property, so the assignment defines an own one. *)
Definition assign (o : Obj) (key : string) (value : V) : Obj :=
  if String.eqb key "__proto__" then o else define o key value.

(** The value of a decimal digit. *)
Definition digit (c : ascii) : option N :=
  let n := N_of_ascii c in
  if ((48 <=? n) && (n <=? 57))%N then Some (n - 48)%N else None.

Fixpoint digits (s : string) (acc : N) : option N :=
  match s with
  | EmptyString => Some acc
  | String c rest =>
      match digit c with
      | Some d => digits rest (acc * 10 + d)%N
      | None => None
      end
  end.

(** A key is an array index when it is the canonical decimal form of an
    integer from 0 to 2^32 - 2. *)
Definition arrayIndex (key : string) : option N :=
  match key with
  | EmptyString => None
  | String c rest =>
      if Ascii.eqb c "0" && negb (String.eqb rest EmptyString) then None
      else
        match digits key 0 with
        | Some n => if (n <? 4294967295)%N then Some n else None
        | None => None
        end
  end.

Fixpoint insertIndexed (e : N * (string * V)) (l : list (N * (string * V)))
  : list (N * (string * V)) :=
  match l with
  | [] => [e]
  | x :: rest =>
      if (fst e <? fst x)%N then e :: l else x :: insertIndexed e rest
  end.

Definition indexed (o : Obj) : list (N * (string * V)) :=
  flat_map (fun e => match arrayIndex (fst e) with
                     | Some n => [(n, e)]
                     | None => []
                     end) o.

Definition named (o : Obj) : Obj :=
  filter (fun e => match arrayIndex (fst e) with
                   | Some _ => false
                   | None => true
                   end) o.

(** The properties in the order of [Object.keys]: the array indices in
    ascending order, then the other keys in creation order. *)
Definition entries (o : Obj) : list (string * V) :=
  map snd (fold_right insertIndexed [] (indexed o)) ++ named o.

Definition keys (o : Obj) : list string := map fst (entries o).

End Objects.

Arguments define {V}.
Arguments assign {V}.
Arguments entries {V}.
Arguments keys {V}.
Arguments indexed {V}.
Arguments named {V}.
Arguments insertIndexed {V}.

(** One element of [comparisons]. *)
Record PairComparison : Type := mkPair {
  benchmarkA : string;
  benchmarkB : string;
  p_timeRatio : Q;
  p_fasterName : string;
  p_percentFaster : Q
}.

Record Report (T : Type) : Type := mkReport {
  results : Obj (AdaptiveBenchmarkResult T);
  comparisons : list PairComparison;
  fastest : option string;     (* [None] is [undefined] *)
  slowest : option string
}.
Arguments mkReport {T}.
Arguments results {T}.
Arguments comparisons {T}.
Arguments fastest {T}.
Arguments slowest {T}.

Section Reports.

Variable host : Host.
Variable fuel : nat.

Definition compareAdaptiveBenchmarks {T U : Type} (benchmarkA : Named T)
  (benchmarkB : Named U) (options : AdaptiveBenchmarkOptions)
  : M (AdaptiveBenchmarkResult T * AdaptiveBenchmarkResult U * Comparison) :=
  resultA <- runAdaptiveBenchmark host T (fn benchmarkA) fuel options ;;
  resultB <- runAdaptiveBenchmark host U (fn benchmarkB) fuel options ;;
  ret (resultA, resultB,
       comparisonOf (name benchmarkA) (name benchmarkB)
         (a_result resultA) (a_result resultB)).

Variable T : Type.

(** A name of [benchmarkNames] with [results[name]]. *)
Definition Entry : Type := (string * AdaptiveBenchmarkResult T)%type.

Definition durationOf (e : Entry) : Q := duration (a_result (snd e)).

(** [for (const benchmark of benchmarks)
       results[benchmark.name] = runAdaptiveBenchmark(benchmark.fn, options)] *)
Fixpoint runAll (options : AdaptiveBenchmarkOptions)
  (benchmarks : list (Named T)) (results : Obj (AdaptiveBenchmarkResult T))
  : M (Obj (AdaptiveBenchmarkResult T)) :=
  match benchmarks with
  | [] => ret results
  | benchmark :: rest =>
      r <- runAdaptiveBenchmark host T (fn benchmark) fuel options ;;
      runAll options rest (assign results (name benchmark) r)
  end.

(** The body of the inner loop over [j]. *)
Definition compare (a b : Entry) : PairComparison :=
  let timeRatio := durationOf a / durationOf b in
  mkPair (fst a) (fst b) timeRatio
    (if gt timeRatio 1 then fst b else fst a)
    (if gt timeRatio 1 then (timeRatio - 1) * 100
     else (1 / timeRatio - 1) * 100).

(** The two nested loops over [i] and [j > i]. *)
Fixpoint pairwise (names : list Entry) : list PairComparison :=
  match names with
  | [] => []
  | a :: rest => map (compare a) rest ++ pairwise rest
  end.

(** One turn of the loop that looks for the fastest and the slowest. *)
Definition pick (state : Entry * Entry) (e : Entry) : Entry * Entry :=
  (if lt (durationOf e) (durationOf (fst state)) then e else fst state,
   if gt (durationOf e) (durationOf (snd state)) then e else snd state).

(** [None] when [benchmarkNames[0]] is [undefined]. *)
Definition extremes (names : list Entry) : option (Entry * Entry) :=
  match names with
  | [] => None
  | first :: rest => Some (fold_left pick rest (first, first))
  end.

Definition runMultipleAdaptiveBenchmarks (benchmarks : list (Named T))
  (options : AdaptiveBenchmarkOptions) : M (Report T) :=
  results <- runAll options benchmarks [] ;;
  let benchmarkNames := entries results in
  ret (mkReport results (pairwise benchmarkNames)
         (option_map (fun state => fst (fst state)) (extremes benchmarkNames))
         (option_map (fun state => fst (snd state))
            (extremes benchmarkNames))).

End Reports.

(** [best] is the first element of [l] that none beats: the elements before
    it are strictly worse ([strict best x]) and no element is better
    ([weak best x]). *)
Definition FirstBest {A : Type} (strict weak : A -> A -> Prop)
  (l : list A) (best : A) : Prop :=
  (exists pre post,
      l = pre ++ best :: post /\ forall x, In x pre -> strict best x) /\
  forall x, In x l -> weak best x.

End Ranking.

(** ** The counts that a completion can reach *)

Module Completion.

(** The values that [completedCount] takes when it is compared with
    [opts.processCount]: 1, 2, 3, ... *)
Definition reachable (n : Q) : Prop :=
  exists k : nat, n == inject_Z (Z.of_nat (S k)).

(** The calls of [cleanupTempFile] made inside [handleCompletion]: one when
    the error flag is set, one when the count is reached. *)
Definition expectedCleanups (m : nat) (st : Isolation.Orchestration) : nat :=
  (if Isolation.errorOccurred st then 1 else 0)
  + (if (m <? Isolation.completedCount st)%nat then 1 else 0).

(** How the promise, the error flag and the counter go together when
    [processCount] is [m + 1]. *)
Definition Coherent (m : nat) (st : Isolation.Orchestration) : Prop :=
  Isolation.cleanups st = expectedCleanups m st /\
  match Isolation.promise st with
  | Isolation.Pending => Isolation.errorOccurred st = false
  | Isolation.Resolved _ => (m < Isolation.completedCount st)%nat
  | Isolation.Rejected _ => Isolation.errorOccurred st = true
  end.

End Completion.

(** ** Concrete inputs used by the examples below *)

Module Scenario.

(** The sample of the outlier scenario of the specification. *)
Definition outlierSample : list Q := [10; 10; 10; 10; 10; 100].

(** A host without [global.gc] whose clock advances by one millisecond
    per invocation of a measured function and whose memory is flat. *)
Definition steadyHost : Core.Host :=
  Core.mkHost (fun w => inject_Z (Z.of_nat (Core.fn_calls w)))
              (fun _ => Core.mkSnapshot 0 0 0 0 0)
              false
              (fun x => x).

(** A measured function that returns without throwing. *)
Definition quietFn : Core.BenchmarkFunction unit := fun _ => Some tt.

(** [{ iterations: 0 }]. *)
Definition zeroIterations : Core.BenchmarkOptions :=
  Core.mkOptions (Some 0) None None None.

(** A host square root: the root of a rational, cut to six decimals. *)
Definition sqrt6 (x : Q) : Q :=
  Z.sqrt (Qfloor (x * 1000000000000)) # 1000000.

(** A host on which every invocation of the measured function takes 7 ms,
    with a single pause of 600 ms during the second sample (the clock is
    ahead by 600 ms from its tenth reading on). *)
Definition slowHost : Core.Host :=
  Core.mkHost
    (fun w => 7 * inject_Z (Z.of_nat (Core.fn_calls w))
              + (if (9 <=? Core.clock_reads w)%nat then 600 else 0))
    (fun _ => Core.mkSnapshot 0 0 0 0 0)
    false
    sqrt6.

(** [{ minIterations: 1000, maxIterations: 500 }]. *)
Definition invertedBounds : Adaptive.AdaptiveBenchmarkOptions :=
  Adaptive.mkAdaptiveOptions Core.noOptions
    (Some 1000) (Some 500) None None None None None None None.

(** [{ maxTime: 28000 }]. *)
Definition shortBudget : Adaptive.AdaptiveBenchmarkOptions :=
  Adaptive.mkAdaptiveOptions Core.noOptions
    None None None (Some 28000) None None None None None.

(** Two reports that differ in the value returned by the function. *)
Definition reportTrue : Isolation.Report :=
  Core.mkResult 10 1000 100000 (Core.mkDelta 0 0 0 0)
                (Some (Isolation.VBoolean true)).
Definition reportFalse : Isolation.Report :=
  Core.mkResult 20 1000 50000 (Core.mkDelta 0 0 0 0)
                (Some (Isolation.VBoolean false)).

(** Two reports of a function that returns a number. *)
Definition reportOne : Isolation.Report :=
  Core.mkResult 10 1000 100000 (Core.mkDelta 8 0 0 0)
                (Some (Isolation.VNumber 1)).
Definition reportThree : Isolation.Report :=
  Core.mkResult 20 1000 50000 (Core.mkDelta 4 0 0 0)
                (Some (Isolation.VNumber 3)).

(** Three contexts: the first reports, the second sends an error report
    and exits with code 1, the third reports after that. *)
Definition failingTrace : list Isolation.ContextEvent :=
  [ Isolation.OnMessage
      (Isolation.mkMessage Isolation.BENCHMARK_RESULT (Some reportOne) None);
    Isolation.OnExit 0;
    Isolation.OnMessage
      (Isolation.mkMessage Isolation.ERROR None (Some "boom"%string));
    Isolation.OnExit 1;
    Isolation.OnMessage
      (Isolation.mkMessage Isolation.BENCHMARK_RESULT (Some reportThree) None);
    Isolation.OnExit 0 ].

(** Two contexts that both report. *)
Definition completeTrace : list Isolation.ContextEvent :=
  [ Isolation.OnMessage
      (Isolation.mkMessage Isolation.BENCHMARK_RESULT (Some reportThree) None);
    Isolation.OnMessage
      (Isolation.mkMessage Isolation.BENCHMARK_RESULT (Some reportOne) None);
    Isolation.OnExit 0;
    Isolation.OnExit 0 ].

Definition withProcessCount (n : Q) : Isolation.IsolatedBenchmarkOptions :=
  Isolation.mkIsolatedOptions Core.noOptions None (Some n) None None None.

(** Two results with the same duration. *)
Definition tieA : Core.BenchmarkResult unit :=
  Core.mkResult 5 1000 200000 (Core.mkDelta 0 0 0 0) None.
Definition tieB : Core.BenchmarkResult unit :=
  Core.mkResult 5 1000 200000 (Core.mkDelta 0 0 0 0) None.

End Scenario.

(** ** Further concrete inputs *)

Module Cases.

(** One value far from four close ones. *)
Definition skewedSample : list Q := [1; 2; 3; 4; 100].

(** Four equal values and one far away: the MAD is 0. *)
Definition mostlySeven : list Q := [7; 7; 7; 1000000; 7].

(** Three close values and one far away. *)
Definition farFourth : list Q := [1; 2; 3; 100].

(** The binary64 values written 0.1, 0.2 and 0.3. *)
Definition tenth : Q := Binary64.round (1 # 10).
Definition fifth : Q := Binary64.round (2 # 10).
Definition threeTenths : Q := Binary64.round (3 # 10).

(** Three reports that took 0.1, 0.2 and 0.3 ms. *)
Definition reportOfDuration (d : Q) : Isolation.Report :=
  Core.mkResult d 1000 (Binary64.round (Binary64.round (1000 / d) * 1000))
                (Core.mkDelta 0 0 0 0) None.
Definition quickReports : list Isolation.Report :=
  [reportOfDuration tenth; reportOfDuration fifth;
   reportOfDuration threeTenths].

(** Three contexts of which the second sends a result message that carries
    no result. *)
Definition emptyHandedTrace : list Isolation.ContextEvent :=
  [ Isolation.OnMessage
      (Isolation.mkMessage Isolation.BENCHMARK_RESULT
         (Some Scenario.reportOne) None);
    Isolation.OnMessage
      (Isolation.mkMessage Isolation.BENCHMARK_RESULT None None);
    Isolation.OnMessage
      (Isolation.mkMessage Isolation.BENCHMARK_RESULT
         (Some Scenario.reportThree) None) ].

(** Two named functions that return without throwing. *)
Definition benchA : Core.Named unit := Core.mkNamed "a" Scenario.quietFn.
Definition benchB : Core.Named unit := Core.mkNamed "b" Scenario.quietFn.

(** Four benchmarks, two of them under the same name and one under a name
    that is an array index. *)
Definition lineup : list (Core.Named unit) :=
  [benchB; Core.mkNamed "1" Scenario.quietFn; benchA; benchB].

(** A context that reports and then exits with code 1. *)
Definition reportThenCrash : list Isolation.ContextEvent :=
  [ Isolation.OnMessage
      (Isolation.mkMessage Isolation.BENCHMARK_RESULT
         (Some Scenario.reportOne) None);
    Isolation.OnExit 1 ].

End Cases.
(** ** Facts about the helpers *)

Section HelperFacts.

Lemma gt_true_iff (a b : Q) : gt a b = true <-> b < a.
Proof.
  unfold gt. rewrite negb_true_iff, <- not_true_iff_false, Qle_bool_iff.
  split; intro H; [apply Qnot_le_lt | apply Qlt_not_le]; exact H.
Qed.

Lemma lt_true_iff (a b : Q) : lt a b = true <-> a < b.
Proof. unfold lt. apply (gt_true_iff b a). Qed.

Lemma lt_false_iff (a b : Q) : lt a b = false <-> b <= a.
Proof.
  unfold lt. rewrite negb_false_iff. apply Qle_bool_iff.
Qed.

Lemma min_le_l (a b : Q) : Js.min a b <= a.
Proof.
  unfold Js.min. destruct (Qle_bool a b) eqn:E.
  - apply Qle_refl.
  - apply Qlt_le_weak, Qnot_le_lt. intro H.
    apply Qle_bool_iff in H. congruence.
Qed.

Lemma min_le_r (a b : Q) : Js.min a b <= b.
Proof.
  unfold Js.min. destruct (Qle_bool a b) eqn:E.
  - now apply Qle_bool_iff.
  - apply Qle_refl.
Qed.

Lemma max_ge_l (a b : Q) : a <= Js.max a b.
Proof.
  unfold Js.max. destruct (Qle_bool a b) eqn:E.
  - now apply Qle_bool_iff.
  - apply Qle_refl.
Qed.

Lemma max_ge_r (a b : Q) : b <= Js.max a b.
Proof.
  unfold Js.max. destruct (Qle_bool a b) eqn:E.
  - apply Qle_refl.
  - apply Qlt_le_weak, Qnot_le_lt. intro H.
    apply Qle_bool_iff in H. congruence.
Qed.

Lemma min_of_le_head (rest : list Q) (x : Q) : min_of x rest <= x.
Proof.
  unfold min_of. revert x.
  induction rest as [| a rest IH]; intro x; simpl.
  - apply Qle_refl.
  - eapply Qle_trans; [apply IH | apply min_le_l].
Qed.

Lemma min_of_le_in (rest : list Q) (x y : Q) :
  In y rest -> min_of x rest <= y.
Proof.
  unfold min_of. revert x.
  induction rest as [| a rest IH]; intros x Hin; simpl in *.
  - contradiction.
  - destruct Hin as [-> | Hin].
    + eapply Qle_trans; [apply (min_of_le_head rest) | apply min_le_r].
    + now apply IH.
Qed.

Lemma max_of_ge_head (rest : list Q) (x : Q) : x <= max_of x rest.
Proof.
  unfold max_of. revert x.
  induction rest as [| a rest IH]; intro x; simpl.
  - apply Qle_refl.
  - eapply Qle_trans; [apply max_ge_l | apply IH].
Qed.

Lemma max_of_ge_in (rest : list Q) (x y : Q) :
  In y rest -> y <= max_of x rest.
Proof.
  unfold max_of. revert x.
  induction rest as [| a rest IH]; intros x Hin; simpl in *.
  - contradiction.
  - destruct Hin as [-> | Hin].
    + eapply Qle_trans; [apply max_ge_r | apply (max_of_ge_head rest)].
    + now apply IH.
Qed.

Lemma min_of_lower (x y : Q) (rest : list Q) :
  In y (x :: rest) -> min_of x rest <= y.
Proof.
  intros [-> | H]; [apply min_of_le_head | now apply min_of_le_in].
Qed.

Lemma max_of_upper (x y : Q) (rest : list Q) :
  In y (x :: rest) -> y <= max_of x rest.
Proof.
  intros [-> | H]; [apply max_of_ge_head | now apply max_of_ge_in].
Qed.



Lemma len_cons {A : Type} (x : A) (l : list A) : len (x :: l) == 1 + len l.
Proof.
  unfold len. simpl length.
  rewrite Nat2Z.inj_succ, <- Z.add_1_l, inject_Z_plus. reflexivity.
Qed.

Lemma len_nonneg {A : Type} (l : list A) : 0 <= len l.
Proof.
  unfold len. change 0 with (inject_Z 0). rewrite <- Zle_Qle. lia.
Qed.

Lemma len_pos {A : Type} (x : A) (l : list A) : 0 < len (x :: l).
Proof. rewrite len_cons. pose proof (len_nonneg l). lra. Qed.



Lemma before_le (a b : Q) : before a b = true <-> a <= b.
Proof.
  unfold before. rewrite Qle_bool_iff. split; intro; lra.
Qed.

Lemma before_false (a b : Q) : before a b = false -> b <= a.
Proof.
  intro H. apply Qlt_le_weak, Qnot_le_lt. intro Hle.
  apply before_le in Hle. congruence.
Qed.

Lemma insert_perm (x : Q) (l : list Q) : Permutation (x :: l) (insert x l).
Proof.
  induction l as [| y l IH]; simpl.
  - apply Permutation_refl.
  - destruct (before x y).
    + apply Permutation_refl.
    + eapply perm_trans; [apply perm_swap | apply perm_skip, IH].
Qed.

(** The sorted copy is a permutation of the array, in ascending order. *)
Lemma sort_perm (l : list Q) : Permutation l (sort l).
Proof.
  induction l as [| x l IH]; simpl.
  - apply perm_nil.
  - eapply perm_trans; [apply perm_skip, IH | apply insert_perm].
Qed.

Lemma sort_length (l : list Q) : length (sort l) = length l.
Proof. symmetry. apply Permutation_length, sort_perm. Qed.

Lemma insert_hd (x a : Q) (l : list Q) :
  a <= x -> HdRel Qle a l -> HdRel Qle a (insert x l).
Proof.
  intros Hax Hd. destruct l as [| y l]; simpl.
  - now constructor.
  - inversion Hd; subst. destruct (before x y); now constructor.
Qed.

Lemma insert_sorted (x : Q) (l : list Q) :
  Sorted Qle l -> Sorted Qle (insert x l).
Proof.
  induction 1 as [| y l Hs IH Hd]; simpl.
  - repeat constructor.
  - destruct (before x y) eqn:E.
    + constructor; [now constructor |].
      constructor. now apply before_le.
    + constructor; [exact IH |].
      apply insert_hd; [now apply before_false | exact Hd].
Qed.

Lemma sort_sorted (l : list Q) : Sorted Qle (sort l).
Proof.
  induction l as [| x l IH]; simpl.
  - constructor.
  - now apply insert_sorted.
Qed.

Lemma middle_some (l : list Q) :
  l <> [] -> exists med, middle l = Some med /\ In med l.
Proof.
  intro Hne. unfold middle.
  destruct (nth_error l (length l / 2)) as [med |] eqn:E.
  - exists med. split; [reflexivity | eapply nth_error_In; eauto].
  - apply nth_error_None in E.
    destruct l as [| x l]; [congruence |]. simpl length in E.
    assert (S (length l) / 2 < S (length l))%nat
      by (apply Nat.div_lt; lia).
    lia.
Qed.

(** Neighbours of an ascending array are in order. *)
Lemma sorted_adjacent (l : list Q) (i : nat) (a b : Q) :
  Sorted Qle l ->
  nth_error l i = Some a -> nth_error l (S i) = Some b -> a <= b.
Proof.
  intro Hs. revert i. induction Hs as [| x l Hs IH Hd]; intros i Ha Hb.
  - destruct i; discriminate.
  - destruct i as [| i]; simpl in *.
    + injection Ha as <-. destruct Hd as [| y l' Hxy]; simpl in Hb.
      * discriminate.
      * now injection Hb as <-.
    + eapply IH; eauto.
Qed.

End HelperFacts.

(** ** The statistics engine *)

Section StatsFacts.
Import Stats.


Lemma middle_sort_in (x : Q) (rest : list Q) :
  exists med, middle (sort (x :: rest)) = Some med /\ In med (x :: rest).
Proof.
  destruct (middle_some (sort (x :: rest))) as (med & Hm & Hin).
  - intro E. pose proof (sort_length (x :: rest)) as L.
    rewrite E in L. discriminate.
  - exists med. split; [exact Hm |].
    eapply Permutation_in; [apply Permutation_sym, sort_perm | exact Hin].
Qed.

Lemma sort_ascending (l : list Q) : StronglySorted Qle (sort l).
Proof.
  apply Sorted_StronglySorted; [| apply sort_sorted].
  intros a b c. apply Qle_trans.
Qed.

(** The middle of the sorted copy is the element at index floor(n/2) of an
    ascending permutation of the array. *)
Lemma middle_sort_middle (l : list Q) (m : Q) :
  middle (sort l) = Some m -> Middle l m.
Proof.
  intro H. exists (sort l). split; [apply Permutation_sym, sort_perm |].
  split; [apply sort_ascending |].
  unfold middle in H. now rewrite sort_length in H.
Qed.

(** On an array of even length [2 (k + 1)] the middle of the sorted copy
    is the upper of the two middle values. *)
Lemma middle_sort_upper (l : list Q) (k : nat) :
  length l = (2 * S k)%nat ->
  exists m, middle (sort l) = Some m /\ UpperMiddle l m.
Proof.
  intro L. unfold middle. rewrite sort_length, L.
  replace (2 * S k / 2)%nat with (S k)
    by (symmetry; rewrite Nat.mul_comm; apply Nat.div_mul; lia).
  destruct (nth_error (sort l) (S k)) as [m |] eqn:Em.
  2:{ apply nth_error_None in Em. rewrite sort_length in Em. lia. }
  destruct (nth_error (sort l) k) as [lo |] eqn:Elo.
  2:{ apply nth_error_None in Elo. rewrite sort_length in Elo. lia. }
  exists m. split; [reflexivity |].
  exists (sort l), k, lo.
  split; [apply Permutation_sym, sort_perm |].
  split; [apply sort_ascending |].
  repeat split; auto.
  - eapply sorted_adjacent; eauto using sort_sorted.
  - intros Hne Havg. apply Hne.
    assert ((lo + m) / 2 * 2 == lo + m) as H2 by field.
    rewrite <- Havg in H2. lra.
Qed.

Lemma classify_clean_incl (med mad : Q) (values : list Q) (b : Buckets) :
  incl (b_clean (fold_left (classify med mad) values b))
       (b_clean b ++ values).
Proof.
  revert b. induction values as [| v values IH]; intro b; simpl.
  - rewrite app_nil_r. apply incl_refl.
  - eapply incl_tran; [apply IH |].
    unfold classify.
    destruct (gt _ EXTREME_THRESHOLD); [| destruct (gt _ MILD_THRESHOLD)];
      simpl; try rewrite <- app_assoc; simpl;
      try apply incl_refl;
      apply incl_app; try (apply incl_appl, incl_refl);
      apply incl_appr, incl_tl, incl_refl.
Qed.

Lemma classification_incl (values : list Q) :
  incl (b_clean (classification values)) values.
Proof.
  unfold classification.
  destruct (medianOf values) as [med |]; [| apply incl_nil_l].
  destruct (madOf med values) as [mad |]; [| apply incl_nil_l].
  apply (classify_clean_incl med mad values (mkBuckets [] [] [])).
Qed.

Lemma safetyValve_half (values : list Q) (b : Buckets) :
  len values * (1 # 2) <= len (cleanValues (safetyValve values b)).
Proof.
  unfold safetyValve. destruct (lt _ _) eqn:E; simpl.
  - pose proof (len_nonneg values). lra.
  - now apply lt_false_iff in E.
Qed.

Lemma calculateStats_returns (sqrt : Q -> Q) (x : Q) (rest : list Q) :
  exists med,
    middle (sort (x :: rest)) = Some med /\ In med (x :: rest) /\
    calculateStats sqrt (x :: rest) =
      Returned (mkStats (meanOf (x :: rest)) med (min_of x rest)
                        (max_of x rest)
                        (sqrt (variance (x :: rest) (meanOf (x :: rest))))).
Proof.
  destruct (middle_sort_in x rest) as (med & Hm & Hin).
  exists med. repeat split; auto.
  unfold calculateStats. now rewrite Hm.
Qed.

End StatsFacts.

(** C1 (as stated, refuted).  On [10,10,10,10,10,100] the value 100 is in
    neither outlier bucket and the mean of the clean set is not 10. *)
Lemma detectOutliers_sample_keeps_100 :
  let d := Stats.detectOutliers Scenario.outlierSample in
  ~ ((In 100 (Stats.extreme (Stats.outliers d)) \/
      In 100 (Stats.mild (Stats.outliers d))) /\
     Stats.meanOf (Stats.cleanValues d) == 10).
Proof.
  vm_compute. intros [[H | H] _]; exact H.
Qed.

(** C1 (amended).  On [10,10,10,10,10,100] the median is 10 and the MAD is
    0, so every modified z-score is 0: all six values, 100 included, are
    clean, both outlier buckets are empty, and the mean of the clean set
    is 25. *)
Theorem detectOutliers_sample_all_clean :
  Stats.medianOf Scenario.outlierSample = Some 10 /\
  Stats.madOf 10 Scenario.outlierSample = Some 0 /\
  (forall v, Stats.modifiedZScore 10 0 v = 0) /\
  Stats.detectOutliers Scenario.outlierSample =
    Stats.mkDetection Scenario.outlierSample (Stats.mkOutliers [] []) /\
  Stats.meanOf (Stats.cleanValues (Stats.detectOutliers Scenario.outlierSample))
    == 25.
Proof.
  repeat split; vm_compute; reflexivity.
Qed.

(** C4.  The clean set returned by [detectOutliers] holds at least half as
    many values as the input and only values of the input; and whenever the
    classified clean bucket is smaller than half of the input, the safety
    valve returns the input itself with both outlier buckets empty. *)
Theorem detectOutliers_safety_valve (values : list Q) (b : Stats.Buckets) :
  len values * (1 # 2) <= len (Stats.cleanValues (Stats.detectOutliers values)) /\
  incl (Stats.cleanValues (Stats.detectOutliers values)) values /\
  Stats.detectOutliers values =
    Stats.safetyValve values (Stats.classification values) /\
  (len (Stats.b_clean b) < len values * (1 # 2) ->
   Stats.safetyValve values b =
     Stats.mkDetection values (Stats.mkOutliers [] [])).
Proof.
  unfold Stats.detectOutliers, Stats.safetyValve. repeat split.
  - apply safetyValve_half.
  - destruct (lt _ _) eqn:E; simpl.
    + apply incl_refl.
    + apply classification_incl.
  - intro H. apply lt_true_iff in H. now rewrite H.
Qed.

Lemma detectOutliers_safety_valve_witness :
  len (Stats.b_clean (Stats.mkBuckets [1] [2] [3])) < len [1; 2; 3] * (1 # 2) /\
  Stats.safetyValve [1; 2; 3] (Stats.mkBuckets [1] [2] [3]) =
    Stats.mkDetection [1; 2; 3] (Stats.mkOutliers [] []).
Proof.
  assert (len (Stats.b_clean (Stats.mkBuckets [1] [2] [3]))
          < len [1; 2; 3] * (1 # 2)) as H by reflexivity.
  split; [exact H |].
  exact (proj2 (proj2 (proj2
    (detectOutliers_safety_valve [1; 2; 3] (Stats.mkBuckets [1] [2] [3])))) H).
Defined.

Section EnhancedFacts.
Import Stats.

Lemma detectOutliers_clean_nonempty (x : Q) (rest : list Q) :
  cleanValues (detectOutliers (x :: rest)) <> [].
Proof.
  intro E.
  pose proof (safetyValve_half (x :: rest) (classification (x :: rest))) as H.
  fold (detectOutliers (x :: rest)) in H. rewrite E in H. pose proof (len_pos x rest).
  change (len (@nil Q)) with 0 in H. lra.
Qed.

Lemma calculateEnhancedStats_returns (sqrt : Q -> Q) (x : Q) (rest : list Q) :
  exists e,
    calculateEnhancedStats sqrt (x :: rest) = Returned e /\
    middle (sort (cleanValues (detectOutliers (x :: rest))))
      = Some (median (e_stats e)) /\
    e_outliers e = outliers (detectOutliers (x :: rest)).
Proof.
  unfold calculateEnhancedStats.
  pose proof (detectOutliers_clean_nonempty x rest) as Hne.
  destruct (cleanValues (detectOutliers (x :: rest))) as [| c clean];
    [congruence |].
  destruct (middle_sort_in c clean) as (med & Hm & _).
  rewrite Hm. eexists. split; [reflexivity |]. simpl. auto.
Qed.

End EnhancedFacts.

(** C10 (amended).  For every even-length input list the median of
    [calculateStats] and the median and the MAD inside [detectOutliers] are
    the element at index n/2 of the ascending-sorted list, the upper of the
    two middle values, which is their average only when the two coincide.
    [calculateEnhancedStats] takes its median in the same way from the list
    of clean values, not from the input: it is the element at index
    floor(c/2) of the c ascending clean values, and the upper of their two
    middle values when c is even. *)
Theorem median_is_upper_middle (sqrt : Q -> Q) (values : list Q) (k : nat) :
  length values = (2 * S k)%nat ->
  (exists s, Stats.calculateStats sqrt values = Returned s /\
             Stats.UpperMiddle values (Stats.median s)) /\
  (exists med mad,
      Stats.medianOf values = Some med /\ Stats.UpperMiddle values med /\
      Stats.madOf med values = Some mad /\
      Stats.UpperMiddle (map (fun val => Qabs (val - med)) values) mad) /\
  (exists e, Stats.calculateEnhancedStats sqrt values = Returned e /\
      let clean := Stats.cleanValues (Stats.detectOutliers values) in
      Stats.Middle clean (Stats.median (Stats.e_stats e)) /\
      (forall j, length clean = (2 * S j)%nat ->
                 Stats.UpperMiddle clean (Stats.median (Stats.e_stats e)))).
Proof.
  intro L.
  destruct (middle_sort_upper values k L) as (m & Hm & Hup).
  destruct values as [| x rest]; [discriminate |].
  split; [| split].
  - destruct (calculateStats_returns sqrt x rest) as (med & Hmed & _ & ->).
    eexists. split; [reflexivity |]. simpl.
    rewrite Hm in Hmed. now injection Hmed as <-.
  - destruct (middle_sort_upper (map (fun val => Qabs (val - m)) (x :: rest)) k)
      as (mad & Hmad & Hupmad).
    { now rewrite length_map. }
    exists m, mad. unfold Stats.medianOf, Stats.madOf. auto.
  - destruct (calculateEnhancedStats_returns sqrt x rest) as (e & -> & He & _).
    exists e. split; [reflexivity |]. cbv zeta.
    split; [now apply middle_sort_middle |].
    intros j Lj.
    destruct (middle_sort_upper _ j Lj) as (m' & Hm' & Hup').
    rewrite He in Hm'. now injection Hm' as <-.
Qed.

Lemma median_is_upper_middle_witness :
  length [1; 2; 3; 4] = (2 * 2)%nat /\
  exists s, Stats.calculateStats (fun x => x) [1; 2; 3; 4] = Returned s /\
            Stats.UpperMiddle [1; 2; 3; 4] (Stats.median s).
Proof.
  split; [reflexivity |].
  exact (proj1 (median_is_upper_middle (fun x => x) [1; 2; 3; 4] 1 eq_refl)).
Defined.

(** ** The classification keeps a majority *)

Section MajorityFacts.
Import Stats.

Lemma classify_clean_filter (med mad : Q) (values : list Q) (b : Buckets) :
  b_clean (fold_left (classify med mad) values b)
  = b_clean b ++ filter (isClean med mad) values.
Proof.
  revert b. induction values as [| v values IH]; intro b; simpl.
  - now rewrite app_nil_r.
  - rewrite IH. unfold classify, isClean.
    destruct (gt _ EXTREME_THRESHOLD); simpl; [reflexivity |].
    destruct (gt _ MILD_THRESHOLD); simpl; [reflexivity |].
    now rewrite <- app_assoc.
Qed.

Lemma filter_length_le {A : Type} (p q : A -> bool) (l : list A) :
  (forall x, In x l -> p x = true -> q x = true) ->
  (length (filter p l) <= length (filter q l))%nat.
Proof.
  induction l as [| x l IH]; intro H; simpl; [lia |].
  assert (length (filter p l) <= length (filter q l))%nat as IH'
    by (apply IH; intros y Hy; apply H; now right).
  destruct (p x) eqn:Ep.
  - rewrite (H x (or_introl eq_refl) Ep). simpl. lia.
  - destruct (q x); simpl; lia.
Qed.

Lemma filter_map_length {A B : Type} (f : A -> B) (p : B -> bool)
  (l : list A) :
  length (filter p (map f l)) = length (filter (fun x => p (f x)) l).
Proof.
  induction l as [| x l IH]; simpl; [reflexivity |].
  destruct (p (f x)); simpl; now rewrite IH.
Qed.

Lemma filter_perm_length {A : Type} (p : A -> bool) (l l' : list A) :
  Permutation l l' -> length (filter p l) = length (filter p l').
Proof.
  induction 1 as [| x l l' _ IH | x y l | l l' l'' _ IH1 _ IH2]; simpl.
  - reflexivity.
  - destruct (p x); simpl; now rewrite IH.
  - destruct (p x), (p y); reflexivity.
  - now rewrite IH1.
Qed.

(** In an ascending array the elements up to index [k] are at most the
    element at index [k]. *)
Lemma sorted_prefix_below (s : list Q) (k : nat) (m : Q) :
  Sorted Qle s -> nth_error s k = Some m ->
  (k < length (filter (fun d => Qle_bool d m) s))%nat.
Proof.
  intro Hs. apply Sorted_StronglySorted in Hs.
  2:{ intros a b c. apply Qle_trans. }
  revert k. induction Hs as [| x s Hs IH Hall]; intros k Hk.
  - destruct k; discriminate.
  - destruct k as [| k]; simpl in *.
    + injection Hk as <-.
      assert (Qle_bool x x = true) as -> by (apply Qle_bool_iff, Qle_refl).
      simpl. lia.
    + assert (x <= m) as Hxm.
      { rewrite Forall_forall in Hall. apply Hall.
        eapply nth_error_In; eauto. }
      apply Qle_bool_iff in Hxm. rewrite Hxm. simpl.
      apply IH in Hk. lia.
Qed.

(** A value whose deviation is at most the MAD is clean. *)
Lemma within_mad_clean (med mad v : Q) :
  0 <= mad -> Qabs (v - med) <= mad -> isClean med mad v = true.
Proof.
  intros Hmad Hdev.
  assert (modifiedZScore med mad v <= 6745 # 10000) as Hz.
  { unfold modifiedZScore, eqb. destruct (Qeq_bool mad 0) eqn:E.
    - discriminate.
    - assert (~ mad == 0) as Hne
        by (intro H; apply Qeq_bool_iff in H; congruence).
      assert (0 < mad) as Hpos by lra.
      unfold Qdiv. rewrite Qabs_Qmult, Qabs_Qmult.
      rewrite (Qabs_pos (6745 # 10000)) by discriminate.
      rewrite (Qabs_pos (/ mad))
        by (apply Qlt_le_weak, Qinv_lt_0_compat; exact Hpos).
      assert (Qabs (v - med) * / mad <= 1) as H1.
      { apply Qle_shift_div_r; [exact Hpos | lra]. }
      rewrite <- Qmult_assoc.
      setoid_replace (6745 # 10000) with ((6745 # 10000) * 1) at 2 by ring.
      apply Qmult_le_l; [reflexivity | exact H1]. }
  unfold isClean.
  assert (gt (modifiedZScore med mad v) EXTREME_THRESHOLD = false) as ->.
  { apply not_true_iff_false. rewrite gt_true_iff.
    unfold EXTREME_THRESHOLD. intro H.
    assert ((6745 # 10000) < 5) by reflexivity. lra. }
  assert (gt (modifiedZScore med mad v) MILD_THRESHOLD = false) as ->.
  { apply not_true_iff_false. rewrite gt_true_iff.
    unfold MILD_THRESHOLD. intro H.
    assert ((6745 # 10000) < 35 # 10) by reflexivity. lra. }
  reflexivity.
Qed.

(** More than half of the values are classified clean, whatever the
    input. *)
Lemma classification_majority (values : list Q) :
  (length values < 2 * length (b_clean (classification values)) \/
   values = [])%nat.
Proof.
  destruct values as [| x rest]; [now right | left].
  set (values := x :: rest). unfold classification.
  destruct (middle_sort_in x rest) as (med & Hmed & _).
  unfold medianOf. fold values in Hmed. rewrite Hmed.
  set (devs := map (fun val => Qabs (val - med)) values).
  destruct (middle_some (sort devs)) as (mad & Hmad & Hin).
  { intro E. pose proof (sort_length devs) as L. rewrite E in L.
    unfold devs, values in L. simpl in L. discriminate. }
  unfold madOf. fold devs. rewrite Hmad.
  rewrite classify_clean_filter. simpl b_clean. rewrite app_nil_l.
  assert (0 <= mad) as Hpos.
  { eapply Permutation_in in Hin; [| apply Permutation_sym, sort_perm].
    unfold devs in Hin. apply in_map_iff in Hin as (v & <- & _).
    apply Qabs_nonneg. }
  assert (length devs / 2 < length (filter (fun d => Qle_bool d mad) devs))%nat
    as Hcount.
  { rewrite (filter_perm_length _ devs (sort devs) (sort_perm devs)).
    apply sorted_prefix_below; [apply sort_sorted |].
    unfold middle in Hmad. now rewrite sort_length in Hmad. }
  unfold devs in Hcount. rewrite filter_map_length, length_map in Hcount.
  assert (length (filter (fun v => Qle_bool (Qabs (v - med)) mad) values)
          <= length (filter (isClean med mad) values))%nat as Hle.
  { apply filter_length_le. intros v _ Hv.
    apply within_mad_clean; [exact Hpos | now apply Qle_bool_iff]. }
  pose proof (Nat.div_mod_eq (length values) 2) as Hdiv.
  pose proof (Nat.mod_upper_bound (length values) 2) as Hmod.
  lia.
Qed.

(** So the safety valve does not fire on what [classify] produces. *)
Lemma safetyValve_idle (values : list Q) :
  detectOutliers values =
    mkDetection (b_clean (classification values))
      (mkOutliers (b_mild (classification values))
                  (b_extreme (classification values))).
Proof.
  unfold detectOutliers, safetyValve.
  assert (lt (len (b_clean (classification values)))
             (len values * (1 # 2)) = false) as ->; [| reflexivity].
  apply lt_false_iff. unfold len.
  destruct (classification_majority values) as [H | ->].
  - assert (inject_Z (Z.of_nat (length values))
            <= inject_Z (2 * Z.of_nat (length (b_clean (classification values)))))
      as Hq by (rewrite <- Zle_Qle; lia).
    rewrite inject_Z_mult in Hq. change (inject_Z 2) with 2 in Hq. lra.
  - vm_compute. discriminate.
Qed.

End MajorityFacts.

(** ** The single-run executor *)

Section ExecutorFacts.
Import Core.
Local Open Scope effect_scope.

Variable host : Host.

Lemma forceGc_returns (w : World) :
  exists w', forceGc host w = (Returned tt, w') /\ fn_calls w' = fn_calls w.
Proof.
  unfold forceGc. destruct (global_gc host); eexists; split; reflexivity.
Qed.

Lemma when_forceGc_returns (b : bool) (w : World) :
  exists w', when b (forceGc host) w = (Returned tt, w') /\
             fn_calls w' = fn_calls w.
Proof.
  destruct b; simpl; [apply forceGc_returns |].
  eexists; split; reflexivity.
Qed.

Lemma warmupLoop_returns {T : Type} (fn : BenchmarkFunction T) (gc : bool)
  (n : nat) (w : World) :
  (forall w0, fn w0 <> None) ->
  exists w', warmupLoop host fn gc n w = (Returned tt, w') /\
             fn_calls w' = (fn_calls w + n)%nat.
Proof.
  intro Hfn. revert w. induction n as [| n IH]; intro w; simpl.
  - exists w. split; [reflexivity | lia].
  - unfold bind, call at 1.
    destruct (fn w) as [v |] eqn:E; [| now apply Hfn in E].
    match goal with |- context [when gc (forceGc host) ?w1] =>
      destruct (when_forceGc_returns gc w1) as (w2 & -> & H2) end.
    destruct (IH w2) as (w3 & -> & H3).
    exists w3. split; [reflexivity |]. simpl in H2. lia.
Qed.

Lemma timedLoop_returns {T : Type} (fn : BenchmarkFunction T) (n : nat)
  (last : option T) (w : World) :
  (forall w0, fn w0 <> None) ->
  exists v w', timedLoop fn n last w = (Returned v, w') /\
               fn_calls w' = (fn_calls w + n)%nat /\
               clock_reads w' = clock_reads w.
Proof.
  intro Hfn. revert last w. induction n as [| n IH]; intros last w; simpl.
  - exists last, w. repeat split; lia.
  - unfold bind, call at 1.
    destruct (fn w) as [v |] eqn:E; [| now apply Hfn in E].
    match goal with |- context [timedLoop fn n ?l ?w1] =>
      destruct (IH l w1) as (v' & w2 & -> & H2 & H3) end.
    exists v', w2. repeat split; simpl in *; lia.
Qed.

(** A run of [runBenchmark] on a function that does not throw returns,
    with the defaulted iteration count in its result. *)
Lemma runBenchmark_returns {T : Type} (fn : BenchmarkFunction T)
  (options : BenchmarkOptions) (w : World) :
  (forall w0, fn w0 <> None) ->
  exists r w',
    runBenchmark host fn options w = (Returned r, w') /\
    r_iterations r =
      or_else (iterations (mergeOptions DEFAULT_OPTIONS options)) 1 /\
    fn_calls w' =
      (fn_calls w
       + loop_count (or_else (warmupRuns (mergeOptions DEFAULT_OPTIONS options)) 0)
       + loop_count (or_else (iterations (mergeOptions DEFAULT_OPTIONS options)) 1))%nat.
Proof.
  intro Hfn. unfold runBenchmark.
  set (opts := mergeOptions DEFAULT_OPTIONS options).
  unfold bind at 1.
  destruct (when_forceGc_returns (truthy (gcBetweenRuns opts)) w)
    as (w1 & -> & H1).
  unfold bind at 1.
  destruct (warmupLoop_returns fn (truthy (gcBetweenRuns opts))
              (loop_count (or_else (warmupRuns opts) 0)) w1 Hfn)
    as (w2 & -> & H2).
  unfold bind at 1. unfold getMemorySnapshot at 1.
  unfold bind at 1. unfold now at 1.
  unfold bind at 1.
  match goal with |- context [timedLoop fn ?n ?l ?w3] =>
    destruct (timedLoop_returns fn n l w3 Hfn) as (v & w4 & -> & H4 & _) end.
  unfold bind, now, getMemorySnapshot, ret.
  eexists. eexists. split; [reflexivity |]. simpl in *. split; [reflexivity |].
  lia.
Qed.

End ExecutorFacts.

(** C2 (as stated, refuted).  With [{ iterations: 0 }] the call does not
    fail: it returns a result that reports one iteration, after invoking
    the function once. *)
Lemma runBenchmark_zero_iterations_returns :
  exists r w',
    Core.runBenchmark Scenario.steadyHost Scenario.quietFn
      Scenario.zeroIterations Core.startOfTime = (Returned r, w') /\
    Core.r_iterations r == 1 /\ Core.fn_calls w' = 1%nat.
Proof.
  eexists. eexists. split; [vm_compute; reflexivity |].
  split; reflexivity.
Qed.

(** C2 (amended).  A call of [runBenchmark] whose options give
    iterations = 0 behaves exactly as the call with iterations = 1: it does
    not fail on the option, and when the function does not throw it returns
    a result that reports one iteration, the timed loop having invoked the
    function once. *)
Theorem runBenchmark_zero_iterations_means_one
  (host : Core.Host) (T : Type) (fn : Core.BenchmarkFunction T)
  (options : Core.BenchmarkOptions) (z : Q) (w : Core.World) :
  Core.iterations options = Some z -> z == 0 ->
  Core.runBenchmark host fn options w =
    Core.runBenchmark host fn
      (Core.mkOptions (Some 1) (Core.runs options) (Core.warmupRuns options)
                      (Core.gcBetweenRuns options)) w /\
  ((forall w0, fn w0 <> None) ->
   exists r w',
     Core.runBenchmark host fn options w = (Returned r, w') /\
     Core.r_iterations r = 1 /\
     Core.fn_calls w' =
       (Core.fn_calls w + loop_count (or_else (Core.warmupRuns options) 0) + 1)%nat).
Proof.
  intros Hit Hz.
  assert (or_else (Core.iterations
            (Core.mergeOptions Core.DEFAULT_OPTIONS options)) 1 = 1) as E.
  { unfold Core.mergeOptions; simpl. rewrite Hit. simpl.
    apply Qeq_bool_iff in Hz. now rewrite Hz. }
  assert (or_else (Core.warmupRuns
            (Core.mergeOptions Core.DEFAULT_OPTIONS options)) 0
          = or_else (Core.warmupRuns options) 0) as Ew.
  { unfold Core.mergeOptions; simpl.
    destruct (Core.warmupRuns options); reflexivity. }
  split.
  - unfold Core.runBenchmark. rewrite E. reflexivity.
  - intro Hfn.
    destruct (runBenchmark_returns host fn options w Hfn)
      as (r & w' & Hrun & Hr & Hcalls).
    exists r, w'. rewrite E in Hr, Hcalls. rewrite Ew in Hcalls.
    repeat split; auto.
Qed.

Lemma runBenchmark_zero_iterations_means_one_witness :
  Core.iterations Scenario.zeroIterations = Some 0 /\ 0 == 0 /\
  Core.runBenchmark Scenario.steadyHost Scenario.quietFn
    Scenario.zeroIterations Core.startOfTime =
  Core.runBenchmark Scenario.steadyHost Scenario.quietFn
    (Core.mkOptions (Some 1) None None None) Core.startOfTime.
Proof.
  split; [reflexivity |]. split; [reflexivity |].
  exact (proj1 (runBenchmark_zero_iterations_means_one
                  Scenario.steadyHost unit Scenario.quietFn
                  Scenario.zeroIterations 0 Core.startOfTime
                  eq_refl (Qeq_refl 0))).
Defined.

(** ** The comparator *)

Section ComparatorFacts.
Import Core.

Lemma ratio_gt_one (a b : Q) : 0 < b -> (gt (a / b) 1 = true <-> b < a).
Proof.
  intro Hb. rewrite gt_true_iff. split; intro H.
  - apply (Qmult_lt_r _ _ b Hb) in H.
    setoid_replace (a / b * b) with a in H by (field; lra). lra.
  - apply Qlt_shift_div_l; [exact Hb | lra].
Qed.

Lemma ratio_gt_one_false (a b : Q) :
  0 < b -> (gt (a / b) 1 = false <-> a <= b).
Proof.
  intro Hb. rewrite <- not_true_iff_false, (ratio_gt_one a b Hb).
  split; intro H; [apply Qnot_lt_le | apply Qle_not_lt]; exact H.
Qed.

Lemma percentFaster_nonneg {T U : Type} (nameA nameB : string)
  (resultA : BenchmarkResult T) (resultB : BenchmarkResult U) :
  0 < duration resultA -> 0 < duration resultB ->
  0 <= percentFaster (comparisonOf nameA nameB resultA resultB).
Proof.
  intros Ha Hb. unfold comparisonOf; simpl.
  set (a := duration resultA) in *. set (b := duration resultB) in *.
  destruct (gt (a / b) 1) eqn:E.
  - apply gt_true_iff in E. lra.
  - apply (ratio_gt_one_false a b Hb) in E.
    assert (0 < a / b) as Hr by (apply Qlt_shift_div_l; lra).
    assert (1 <= 1 / (a / b)) as H1.
    { apply Qle_shift_div_l; [exact Hr |].
      setoid_replace (1 * (a / b)) with (a / b) by ring.
      apply Qle_shift_div_r; lra. }
    lra.
Qed.

End ComparatorFacts.

(** What [compareBenchmarks] returns is the comparison of its two runs. *)
Lemma compareBenchmarks_comparison (host : Core.Host) (T U : Type)
  (benchmarkA : Core.Named T) (benchmarkB : Core.Named U)
  (options : Core.BenchmarkOptions) (w w' : Core.World)
  (resultA : Core.BenchmarkResult T) (resultB : Core.BenchmarkResult U)
  (c : Core.Comparison) :
  Core.compareBenchmarks host benchmarkA benchmarkB options w
  = (Returned (resultA, resultB, c), w') ->
  c = Core.comparisonOf (Core.name benchmarkA) (Core.name benchmarkB)
        resultA resultB.
Proof.
  unfold Core.compareBenchmarks, Core.bind, Core.ret.
  destruct (Core.runBenchmark host (Core.fn benchmarkA) options w)
    as [[rA | e |] w1]; try discriminate.
  destruct (Core.runBenchmark host (Core.fn benchmarkB) options w1)
    as [[rB | e |] w2]; try discriminate.
  intro H. now inversion H.
Qed.

(** C9 (as stated, refuted).  On a tie the comparison names its first
    argument, so the two orders of the same pair name different
    benchmarks. *)
Lemma compare_tie_follows_argument_order :
  0 < Core.duration Scenario.tieA /\ 0 < Core.duration Scenario.tieB /\
  Core.fasterName (Core.comparisonOf "A" "B" Scenario.tieA Scenario.tieB)
  <> Core.fasterName (Core.comparisonOf "B" "A" Scenario.tieB Scenario.tieA).
Proof.
  split; [reflexivity |]. split; [reflexivity |].
  vm_compute. discriminate.
Qed.

(** C9 (amended).  For two results with positive durations, percentFaster
    is never negative and fasterName is one of the two input names; when the
    durations differ, the comparison with the inputs swapped names the same
    benchmark, the one with the lower duration; on an exact tie each order
    names its own first argument, with percentFaster 0. *)
Theorem compare_faster_consistent (T U : Type) (nameA nameB : string)
  (resultA : Core.BenchmarkResult T) (resultB : Core.BenchmarkResult U) :
  0 < Core.duration resultA -> 0 < Core.duration resultB ->
  let ab := Core.comparisonOf nameA nameB resultA resultB in
  let ba := Core.comparisonOf nameB nameA resultB resultA in
  0 <= Core.percentFaster ab /\
  (Core.fasterName ab = nameA \/ Core.fasterName ab = nameB) /\
  (Core.duration resultA < Core.duration resultB ->
   Core.fasterName ab = nameA /\ Core.fasterName ba = nameA) /\
  (Core.duration resultB < Core.duration resultA ->
   Core.fasterName ab = nameB /\ Core.fasterName ba = nameB) /\
  (Core.duration resultA == Core.duration resultB ->
   Core.fasterName ab = nameA /\ Core.fasterName ba = nameB /\
   Core.percentFaster ab == 0).
Proof.
  intros Ha Hb ab ba.
  split; [apply percentFaster_nonneg; assumption |].
  subst ab ba. unfold Core.comparisonOf; simpl.
  set (a := Core.duration resultA) in *. set (b := Core.duration resultB) in *.
  split; [destruct (gt (a / b) 1); auto |].
  split; [| split].
  - intro Hlt.
    assert (gt (a / b) 1 = false) as ->
      by (apply ratio_gt_one_false; lra).
    assert (gt (b / a) 1 = true) as ->
      by (apply ratio_gt_one; lra).
    auto.
  - intro Hlt.
    assert (gt (a / b) 1 = true) as ->
      by (apply ratio_gt_one; lra).
    assert (gt (b / a) 1 = false) as ->
      by (apply ratio_gt_one_false; lra).
    auto.
  - intro Heq.
    assert (gt (a / b) 1 = false) as ->
      by (apply ratio_gt_one_false; lra).
    assert (gt (b / a) 1 = false) as ->
      by (apply ratio_gt_one_false; lra).
    repeat split.
    rewrite Heq. field. lra.
Qed.

Lemma compare_faster_consistent_witness :
  let fast := Core.mkResult 10 1000 100000 (Core.mkDelta 0 0 0 0) (@None unit) in
  let slow := Core.mkResult 20 1000 50000 (Core.mkDelta 0 0 0 0) (@None unit) in
  0 < Core.duration fast /\ 0 < Core.duration slow /\
  Core.duration fast < Core.duration slow /\
  Core.fasterName (Core.comparisonOf "A" "B" fast slow) = "A"%string /\
  Core.fasterName (Core.comparisonOf "B" "A" slow fast) = "A"%string.
Proof.
  intros fast slow.
  assert (0 < Core.duration fast) as Hf by reflexivity.
  assert (0 < Core.duration slow) as Hs by reflexivity.
  assert (Core.duration fast < Core.duration slow) as Hlt by reflexivity.
  split; [exact Hf |]. split; [exact Hs |]. split; [exact Hlt |].
  exact (proj1 (proj2 (proj2
    (compare_faster_consistent unit unit "A" "B" fast slow Hf Hs))) Hlt).
Defined.

(** ** The adaptive calibration controller *)

Section MonadFacts.
Import Core.

Lemma bind_returned {A B : Type} (m : M A) (k : A -> M B) (w w' : World)
  (b : B) :
  bind m k w = (Returned b, w') ->
  exists a w1, m w = (Returned a, w1) /\ k a w1 = (Returned b, w').
Proof.
  unfold bind. destruct (m w) as [[a | e |] w1]; intro H;
    try discriminate.
  exists a, w1. auto.
Qed.

Lemma ret_returned {A : Type} (a b : A) (w w' : World) :
  ret a w = (Returned b, w') -> a = b /\ w = w'.
Proof. unfold ret. intro H. now inversion H. Qed.

End MonadFacts.

Ltac bind_inv H :=
  let a := fresh "a" in
  let w := fresh "w" in
  let Hm := fresh "Hm" in
  apply bind_returned in H; destruct H as (a & w & Hm & H).

Section WholeNumbers.

Lemma whole_floor (x : Q) : whole (floor x).
Proof. unfold whole, floor. now rewrite Qfloor_Z. Qed.

Lemma whole_min (a b : Q) : whole a -> whole b -> whole (Js.min a b).
Proof. unfold Js.min. now destruct (Qle_bool a b). Qed.

Lemma whole_max (a b : Q) : whole a -> whole b -> whole (Js.max a b).
Proof. unfold Js.max. now destruct (Qle_bool a b). Qed.

(** Scaling a whole, non-negative count by 1.5 and rounding down does not
    lower it. *)
Lemma floor_scale_ge (x : Q) :
  whole x -> 0 <= x -> x <= floor (x * (15 # 10)).
Proof.
  unfold whole, floor. intros Hw H0.
  rewrite <- Hw at 1. rewrite <- Zle_Qle.
  apply Qfloor_resp_le. lra.
Qed.

End WholeNumbers.

Section ControllerFacts.
Import Core Adaptive.

Variable host : Host.
Variable T : Type.
Variable benchmarkFn : BenchmarkFunction T.

Lemma spread_idem {A : Type} (d x : option A) :
  spread d (spread d x) = spread d x.
Proof. destruct x; [reflexivity | now destruct d]. Qed.

Lemma mergeAdaptive_idem (options : AdaptiveBenchmarkOptions) :
  mergeAdaptive DEFAULT_ADAPTIVE_OPTIONS
    (mergeAdaptive DEFAULT_ADAPTIVE_OPTIONS options)
  = mergeAdaptive DEFAULT_ADAPTIVE_OPTIONS options.
Proof.
  unfold mergeAdaptive, mergeOptions. cbn [base minIterations maxIterations
    targetDuration maxTime targetRSD minSamples maxSamples warmupRatio
    adaptiveSteps iterations runs warmupRuns gcBetweenRuns].
  now rewrite !spread_idem.
Qed.

Section Bounds.

Variable opts : AdaptiveBenchmarkOptions.

Hypothesis lo_whole : whole (lowerBound opts).
Hypothesis hi_whole : whole (upperBound opts).
Hypothesis lo_nonneg : 0 <= lowerBound opts.
Hypothesis lo_le_hi : lowerBound opts <= upperBound opts.

Lemma clamp_range (x : Q) :
  lowerBound opts <= clamp opts x /\ clamp opts x <= upperBound opts.
Proof.
  unfold clamp, lowerBound, upperBound in *. split; [apply max_ge_l |].
  pose proof (min_le_l (or_else (maxIterations opts) 10000000) x).
  unfold Js.max. now destruct (Qle_bool _ (Js.min _ x)).
Qed.

Lemma clamp_whole (x : Q) : whole x -> whole (clamp opts x).
Proof.
  intro Hx. unfold clamp.
  apply whole_max; [exact lo_whole | apply whole_min; [exact hi_whole | exact Hx]].
Qed.

Lemma rescale_safe (initial rsd : Q) (st : LoopState T) :
  lowerBound opts <= initial -> initial <= upperBound opts ->
  Safe initial st -> Safe initial (rescale T opts initial st rsd).
Proof.
  intros Hlo Hhi [Hge Hw]. unfold Safe, rescale; simpl.
  assert (l_iterations st <= floor (l_iterations st * (15 # 10))) as Hs
    by (apply floor_scale_ge; [assumption | lra]).
  split.
  - unfold upperBound in Hhi. unfold Js.min. destruct (Qle_bool _ _); lra.
  - apply whole_min; [exact hi_whole | apply whole_floor].
Qed.

Lemma evaluate_safe (initial : Q) (st st' : LoopState T) (w w' : World) :
  lowerBound opts <= initial -> initial <= upperBound opts ->
  Safe initial st ->
  evaluate host T opts initial st w = (Returned st', w') ->
  Safe initial st'.
Proof.
  intros Hlo Hhi Hs. unfold evaluate.
  destruct (Qle_bool 3 (len (samples st))).
  2:{ intro H. apply ret_returned in H as [<- _]. exact Hs. }
  destruct (Stats.calculateStats _ _) as [stats | e |];
    try discriminate.
  destruct (_ && _); intro H; apply ret_returned in H as [<- _].
  - now apply rescale_safe.
  - exact Hs.
Qed.

Lemma mainLoop_safe (initial startTime : Q) (fuel : nat) :
  lowerBound opts <= initial -> initial <= upperBound opts ->
  forall (st st' : LoopState T) (w w' : World),
    Safe initial st ->
    mainLoop host T benchmarkFn opts initial startTime fuel st w
      = (Returned st', w') ->
    Safe initial st'.
Proof.
  intros Hlo Hhi. induction fuel as [| fuel IH]; intros st st' w w' Hs H.
  - discriminate.
  - simpl in H. bind_inv H. destruct a.
    + bind_inv H. bind_inv H.
      apply evaluate_safe in Hm1; [| assumption | assumption |].
      2:{ destruct Hs as [Hge Hw]. split; simpl; assumption. }
      bind_inv H.
      destruct (gt _ _).
      * bind_inv H. apply ret_returned in H as [<- _]. exact Hm1.
      * eapply IH; eauto.
    + apply ret_returned in H as [<- _]. exact Hs.
Qed.

Lemma findIterations_clamped (v : Q) (w w' : World) :
  mergeAdaptive DEFAULT_ADAPTIVE_OPTIONS opts = opts ->
  findIterationsForTargetDuration host T benchmarkFn opts w
    = (Returned v, w') ->
  lowerBound opts <= v /\ v <= upperBound opts /\ whole v.
Proof.
  intros Hm H. unfold findIterationsForTargetDuration in H.
  rewrite Hm in H.
  bind_inv H. bind_inv H. bind_inv H.
  destruct (gt _ _); apply ret_returned in H as [<- _].
  - pose proof (clamp_range (floor (clamp opts
        (floor (or_else (minIterations opts) 1000 / a0
                * or_else (targetDuration opts) 500))
        * (or_else (targetDuration opts) 500 / a1)))) as [? ?].
    repeat split; try assumption.
    apply clamp_whole, whole_floor.
  - pose proof (clamp_range
        (floor (or_else (minIterations opts) 1000 / a0
                * or_else (targetDuration opts) 500))) as [? ?].
    repeat split; try assumption.
    apply clamp_whole, whole_floor.
Qed.

End Bounds.

End ControllerFacts.

(** C3 (failing input).  With the default options, a function that never
    throws and takes 7 ms per call makes the fourth sample both trigger the
    rescale that clears the samples and exceed [maxTime]: the loop warns and
    breaks with no sample left, and the final [calculateStats] throws instead
    of a result being returned.  This holds for every unrolling bound from
    four on. *)
Theorem adaptive_budget_break_without_samples (k : nat) :
  (forall w, Scenario.quietFn w <> None) /\
  Adaptive.runAdaptiveBenchmark Scenario.slowHost unit Scenario.quietFn
    (4 + k) Adaptive.noAdaptiveOptions Core.startOfTime
  = (Thrown (Err "Cannot calculate stats for empty array"),
     Core.mkWorld 17 (76 * 100) 0 8
       ["Adaptive benchmark exceeded maximum time limit"%string]).
Proof.
  split; [discriminate |].
  vm_compute. reflexivity.
Qed.

(** C7 (as stated, refuted).  With [minIterations] 1000 above
    [maxIterations] 500 the run starts at 1000 iterations, rescales twice and
    reports 500 final iterations. *)
Lemma adaptive_inverted_bounds_lower_iterations :
  exists r w',
    Adaptive.runAdaptiveBenchmark Scenario.slowHost unit Scenario.quietFn
      100 Scenario.invertedBounds Core.startOfTime = (Returned r, w') /\
    1 <= Adaptive.c_adjustmentSteps (Adaptive.calibration r) /\
    Adaptive.initialIterations (Adaptive.calibration r) == 1000 /\
    Adaptive.finalIterations (Adaptive.calibration r) == 500 /\
    ~ Adaptive.initialIterations (Adaptive.calibration r)
      <= Adaptive.finalIterations (Adaptive.calibration r).
Proof.
  eexists. eexists. split; [vm_compute; reflexivity |].
  simpl. repeat split; try reflexivity; try discriminate.
  intro H. apply H. reflexivity.
Qed.

(** C7 (amended).  When the lower and upper iteration bounds in force
    ([minIterations] and [maxIterations] after defaulting) are whole numbers
    with 0 <= min <= max, every adaptive run that returns after at least one
    rescale step reports finalIterations >= initialIterations. *)
Theorem adaptive_final_iterations_ge_initial
  (host : Core.Host) (T : Type) (fn : Core.BenchmarkFunction T) (fuel : nat)
  (options : Adaptive.AdaptiveBenchmarkOptions) (w w' : Core.World)
  (r : Adaptive.AdaptiveBenchmarkResult T) :
  let opts := Adaptive.mergeAdaptive Adaptive.DEFAULT_ADAPTIVE_OPTIONS options in
  whole (Adaptive.lowerBound opts) -> whole (Adaptive.upperBound opts) ->
  0 <= Adaptive.lowerBound opts ->
  Adaptive.lowerBound opts <= Adaptive.upperBound opts ->
  Adaptive.runAdaptiveBenchmark host T fn fuel options w = (Returned r, w') ->
  1 <= Adaptive.c_adjustmentSteps (Adaptive.calibration r) ->
  Adaptive.initialIterations (Adaptive.calibration r)
  <= Adaptive.finalIterations (Adaptive.calibration r).
Proof.
  intros opts Hlo Hhi H0 Hle Hrun _.
  unfold Adaptive.runAdaptiveBenchmark in Hrun. fold opts in Hrun.
  bind_inv Hrun. bind_inv Hrun. bind_inv Hrun. bind_inv Hrun.
  destruct (findIterations_clamped host T fn opts Hlo Hhi Hle a w w0
              (mergeAdaptive_idem options) Hm) as (Ha1 & Ha2 & Ha3).
  assert (Adaptive.l_iterations a2 >= a) as Hsafe.
  { eapply (mainLoop_safe host T fn opts Hhi H0 a a0 fuel Ha1 Ha2);
      [| exact Hm2].
    split; simpl; [apply Qle_refl | exact Ha3]. }
  destruct (Stats.calculateStats _ _) as [stats | e |]; try discriminate.
  destruct (last _ _) as [lastSample |]; try discriminate.
  bind_inv Hrun. apply ret_returned in Hrun as [<- _]. simpl.
  exact Hsafe.
Qed.

Lemma adaptive_final_iterations_ge_initial_witness :
  exists r w',
    Adaptive.runAdaptiveBenchmark Scenario.slowHost unit Scenario.quietFn
      100 Scenario.shortBudget Core.startOfTime = (Returned r, w') /\
    1 <= Adaptive.c_adjustmentSteps (Adaptive.calibration r) /\
    Adaptive.initialIterations (Adaptive.calibration r)
    <= Adaptive.finalIterations (Adaptive.calibration r).
Proof.
  destruct (Adaptive.runAdaptiveBenchmark Scenario.slowHost unit
              Scenario.quietFn 100 Scenario.shortBudget Core.startOfTime)
    as [[r | e |] w'] eqn:E; try (vm_compute in E; discriminate).
  exists r, w'. split; [reflexivity |].
  assert (1 <= Adaptive.c_adjustmentSteps (Adaptive.calibration r)) as Hadj.
  { vm_compute in E. injection E as <- _. discriminate. }
  split; [exact Hadj |].
  apply (adaptive_final_iterations_ge_initial Scenario.slowHost unit
           Scenario.quietFn 100 Scenario.shortBudget Core.startOfTime w' r);
    try exact E; try exact Hadj; vm_compute; try reflexivity; discriminate.
Defined.

(** ** The merge of the orchestrator *)

Section MergeFacts.
Import Core Isolation.

Lemma sameMeans_refl (r : Report) : sameMeans r r.
Proof. unfold sameMeans. repeat split; reflexivity. Qed.

End MergeFacts.

(** ** The completion policy of the orchestrator *)

Section CompletionFacts.
Import Core Isolation.

Variable opts : IsolatedBenchmarkOptions.

Lemma listen_deliver (events : list ContextEvent) (st : Orchestration) :
  fold_left (listen opts) events st
  = fold_left (deliver opts) (callbacks events) st.
Proof.
  revert st. induction events as [| ev events IH]; intro st; simpl.
  - reflexivity.
  - rewrite fold_left_app, IH. unfold listen.
    now destruct (callbackOf ev).
Qed.

(** After an error nothing changes any more. *)
Lemma deliver_after_error (calls : list (option Report * option Error))
  (st : Orchestration) :
  errorOccurred st = true -> fold_left (deliver opts) calls st = st.
Proof.
  intro He. induction calls as [| cb calls IH]; simpl; [reflexivity |].
  unfold deliver at 2, handleCompletion. now rewrite He.
Qed.

Lemma deliver_keeps_settled (cb : option Report * option Error)
  (st : Orchestration) :
  promise st <> Pending -> promise (deliver opts st cb) = promise st.
Proof.
  intro Hp. unfold deliver, handleCompletion.
  destruct (errorOccurred st); [reflexivity |].
  destruct (snd cb); simpl.
  - destruct (promise st); [congruence | reflexivity | reflexivity].
  - destruct (reached _ _); [| reflexivity].
    destruct (combineResults _); simpl; try reflexivity.
    destruct (promise st); [congruence | reflexivity | reflexivity].
Qed.

(** A settled promise stays as it is. *)
Lemma settled_stays (calls : list (option Report * option Error))
  (st : Orchestration) :
  promise st <> Pending ->
  promise (fold_left (deliver opts) calls st) = promise st.
Proof.
  revert st. induction calls as [| cb calls IH]; intros st Hp; simpl.
  - reflexivity.
  - rewrite IH; rewrite deliver_keeps_settled; auto.
Qed.

Lemma reached_count (count : nat) :
  reached count (processCount opts) = true ->
  exists n, processCount opts = Some n /\ len (repeat tt count) == n.
Proof.
  unfold reached. destruct (processCount opts) as [n |]; [| discriminate].
  intro H. exists n. split; [reflexivity |].
  unfold len. rewrite repeat_length. now apply Qeq_bool_iff.
Qed.

Lemma payloads_app (a b : list (option Report * option Error)) :
  payloads (a ++ b) = payloads a ++ payloads b.
Proof. unfold payloads. apply flat_map_app. Qed.

(** How a pending orchestration can come to be resolved. *)
Lemma resolved_after (calls : list (option Report * option Error)) :
  forall (st : Orchestration) (r : Report),
    promise st = Pending -> errorOccurred st = false ->
    promise (fold_left (deliver opts) calls st) = Resolved r ->
    exists pre post,
      calls = pre ++ post /\ Forall isReport pre /\
      reached (completedCount st + length pre) (processCount opts) = true /\
      combineResults (results st ++ payloads pre) = Returned r.
Proof.
  induction calls as [| cb calls IH]; intros st r Hp He Hres; simpl in Hres.
  - congruence.
  - unfold deliver at 2 in Hres. unfold handleCompletion in Hres.
    rewrite He in Hres. destruct cb as [res [e |]]; simpl in Hres.
    + rewrite deliver_after_error in Hres by reflexivity.
      simpl in Hres. rewrite Hp in Hres. discriminate.
    + set (results' := match res with
                       | Some r0 => results st ++ [r0]
                       | None => results st
                       end) in *.
      assert (results' = results st ++ payloads [(res, @None Error)]) as Epay.
      { subst results'. unfold payloads. simpl.
        destruct res; simpl; now rewrite ?app_nil_r. }
      destruct (reached (S (completedCount st)) (processCount opts)) eqn:Er.
      * destruct (combineResults results') as [c | e |] eqn:Ec.
        -- rewrite settled_stays in Hres
             by (simpl; rewrite Hp; discriminate).
           simpl in Hres. rewrite Hp in Hres. simpl in Hres.
           injection Hres as <-.
           exists [(res, None)], calls. repeat split.
           ++ repeat constructor.
           ++ simpl length. now rewrite Nat.add_1_r.
           ++ now rewrite <- Epay.
        -- apply IH in Hres; [| assumption | reflexivity].
           destruct Hres as (pre & post & -> & Hf & Hr & Hc).
           exists ((res, None) :: pre), post. repeat split.
           ++ constructor; [reflexivity | assumption].
           ++ simpl in Hr |- *. now rewrite Nat.add_succ_r.
           ++ simpl results in Hc. rewrite Epay, <- app_assoc in Hc.
              now rewrite <- payloads_app in Hc.
        -- exfalso. unfold combineResults in Ec.
           destruct results' as [| ? [| ? ?]]; discriminate.
      * apply IH in Hres; [| assumption | reflexivity].
        destruct Hres as (pre & post & -> & Hf & Hr & Hc).
        exists ((res, None) :: pre), post. repeat split.
        -- constructor; [reflexivity | assumption].
        -- simpl in Hr |- *. now rewrite Nat.add_succ_r.
        -- simpl results in Hc. rewrite Epay, <- app_assoc in Hc.
           now rewrite <- payloads_app in Hc.
Qed.

End CompletionFacts.

Section RejectionFacts.
Import Core Isolation.

Variable opts : IsolatedBenchmarkOptions.

(** While fewer reports than wanted have arrived, the first error rejects
    the promise, whatever follows. *)
Lemma rejected_after (pre : list (option Report * option Error)) :
  forall (st : Orchestration) (res : option Report) (e : Error)
         (post : list (option Report * option Error)),
    promise st = Pending -> errorOccurred st = false ->
    Forall isReport pre ->
    (forall j, (1 <= j <= length pre)%nat ->
               reached (completedCount st + j) (processCount opts) = false) ->
    promise (fold_left (deliver opts) (pre ++ (res, Some e) :: post) st)
    = Rejected e.
Proof.
  induction pre as [| cb pre IH]; intros st res e post Hp He Hf Hnot; simpl.
  - unfold deliver at 2, handleCompletion. rewrite He. simpl.
    rewrite deliver_after_error by reflexivity. simpl. now rewrite Hp.
  - inversion Hf as [| cb' pre' Hcb Hf']; subst.
    destruct cb as [r0 err]. unfold isReport in Hcb. simpl in Hcb. subst err.
    unfold deliver at 2, handleCompletion. rewrite He. simpl.
    assert (reached (S (completedCount st)) (processCount opts) = false)
      as Hr.
    { rewrite <- Nat.add_1_r. apply Hnot. simpl. lia. }
    rewrite Hr. apply IH; simpl; auto.
    intros j Hj. rewrite <- Nat.add_succ_r. apply Hnot. simpl. lia.
Qed.

Lemma not_reached_below (n : Q) (count : nat) :
  processCount opts = Some n ->
  inject_Z (Z.of_nat count) < n ->
  reached count (processCount opts) = false.
Proof.
  intros -> H. unfold reached, eqb.
  apply not_true_iff_false. rewrite Qeq_bool_iff. lra.
Qed.

End RejectionFacts.

(** C5 (amended).  With [processCount] = n, the promise of
    [runIsolatedBenchmark] is resolved only when exactly n completion
    callbacks without an error have arrived with no error before them, and
    then with the merge of the reports they carried (n of them when every
    callback carries its result); and an error report, error event or
    abnormal exit that arrives while fewer than n callbacks have been
    counted rejects the promise with that error, whatever arrives later. *)
Theorem isolated_run_all_or_nothing
  (benchmarkName benchmarkCode : string)
  (options : Isolation.IsolatedBenchmarkOptions)
  (events : list Isolation.ContextEvent) (st : Isolation.Orchestration)
  (n : Q) :
  Isolation.processCount
    (Isolation.mergeIsolated Isolation.DEFAULT_ISOLATION_OPTIONS options)
  = Some n ->
  Isolation.runIsolatedBenchmark benchmarkName benchmarkCode options events
  = Returned st ->
  (forall r, Isolation.promise st = Isolation.Resolved r ->
     exists pre post,
       Isolation.callbacks events = pre ++ post /\
       Forall Isolation.isReport pre /\
       len pre == n /\
       Isolation.combineResults (Isolation.payloads pre) = Returned r /\
       (Forall (fun cb => fst cb <> None) pre ->
        len (Isolation.payloads pre) == n)) /\
  (forall pre res e post,
     Isolation.callbacks events = pre ++ (res, Some e) :: post ->
     Forall Isolation.isReport pre ->
     len pre < n ->
     Isolation.promise st = Isolation.Rejected e).
Proof.
  intros Hn Hrun. unfold Isolation.runIsolatedBenchmark in Hrun.
  destruct (Isolation.validName benchmarkName); [| discriminate].
  injection Hrun as <-. rewrite listen_deliver.
  set (opts := Isolation.mergeIsolated _ options) in *.
  split.
  - intros r Hres.
    apply resolved_after in Hres; [| reflexivity | reflexivity].
    destruct Hres as (pre & post & Hsplit & Hf & Hr & Hc).
    change (Isolation.completedCount Isolation.launched) with 0%nat in Hr.
    change (Isolation.results Isolation.launched)
      with (@nil Isolation.Report) in Hc.
    rewrite Nat.add_0_l in Hr. rewrite app_nil_l in Hc.
    exists pre, post.
    assert (len pre == n) as Hlen.
    { unfold Isolation.reached in Hr. rewrite Hn in Hr.
      now apply Qeq_bool_iff in Hr. }
    repeat split; auto.
    intro Hall.
    assert (length (Isolation.payloads pre) = length pre) as L.
    { clear - Hall. induction Hall as [| cb pre Hcb _ IH]; [reflexivity |].
      unfold Isolation.payloads in *. simpl.
      destruct (fst cb); [| congruence]. simpl. now rewrite IH. }
    unfold len in *. now rewrite L.
  - intros pre res e post Hsplit Hf Hlt. rewrite Hsplit.
    apply rejected_after; auto.
    intros j Hj.
    change (Isolation.completedCount Isolation.launched) with 0%nat.
    rewrite Nat.add_0_l. apply (not_reached_below opts n j Hn).
    unfold len in Hlt.
    assert (inject_Z (Z.of_nat j) <= inject_Z (Z.of_nat (length pre)))
      by (rewrite <- Zle_Qle; lia).
    lra.
Qed.

Lemma isolated_run_all_or_nothing_witness :
  exists st,
    Isolation.runIsolatedBenchmark "bench" "" (Scenario.withProcessCount 3)
      Scenario.failingTrace = Returned st /\
    Isolation.promise st = Isolation.Rejected (Err "boom").
Proof.
  eexists. split; [reflexivity |].
  refine (proj2 (isolated_run_all_or_nothing "bench" ""
                   (Scenario.withProcessCount 3) Scenario.failingTrace _ 3
                   eq_refl eq_refl)
            [(Some Scenario.reportOne, None)] None (Err "boom")
            [(None, Some (ExitError 1)); (Some Scenario.reportThree, None)]
            eq_refl _ _).
  - repeat constructor.
  - reflexivity.
Defined.

(** ** The main loop of the adaptive controller ends *)

Section FinishFacts.
Import Core.

Lemma bind_finishes {A B : Type} (m : M A) (k : A -> M B) (w : World) :
  finishes (m w) ->
  (forall a w1, m w = (Returned a, w1) -> finishes (k a w1)) ->
  finishes (bind m k w).
Proof.
  unfold finishes, bind. intros Hm Hk.
  destruct (m w) as [[a | e |] w1]; simpl in *.
  - now apply Hk.
  - discriminate.
  - congruence.
Qed.

Lemma ret_finishes {A : Type} (a : A) (w : World) : finishes (ret a w).
Proof. unfold finishes, ret. simpl. discriminate. Qed.

Lemma throw_finishes {A : Type} (e : Error) (w : World) :
  finishes (@throw A e w).
Proof. unfold finishes, throw. simpl. discriminate. Qed.

Lemma now_finishes (host : Host) (w : World) : finishes (now host w).
Proof. unfold finishes, now. simpl. discriminate. Qed.

Lemma snapshot_finishes (host : Host) (w : World) :
  finishes (getMemorySnapshot host w).
Proof. unfold finishes, getMemorySnapshot. simpl. discriminate. Qed.

Lemma forceGc_finishes (host : Host) (w : World) : finishes (forceGc host w).
Proof.
  unfold finishes, forceGc. destruct (global_gc host); simpl; discriminate.
Qed.

Lemma warn_finishes (message : string) (w : World) :
  finishes (warn message w).
Proof. unfold finishes, warn. simpl. discriminate. Qed.

Lemma call_finishes {T : Type} (fn : BenchmarkFunction T) (w : World) :
  finishes (call fn w).
Proof. unfold finishes, call. destruct (fn w); simpl; discriminate. Qed.

Lemma when_finishes (host : Host) (b : bool) (w : World) :
  finishes (when b (forceGc host) w).
Proof. destruct b; [apply forceGc_finishes | apply ret_finishes]. Qed.

End FinishFacts.

Create HintDb finishes.

#[local] Hint Resolve ret_finishes throw_finishes now_finishes
  snapshot_finishes forceGc_finishes warn_finishes call_finishes
  when_finishes : finishes.

Ltac step_finishes :=
  first [ apply bind_finishes; [auto with finishes | intros ? ? ?]
        | solve [auto with finishes] ].

Section LoopFinishFacts.
Import Core Adaptive.

Variable host : Host.
Variable T : Type.
Variable benchmarkFn : BenchmarkFunction T.

Lemma warmupLoop_finishes (gc : bool) (n : nat) (w : World) :
  finishes (warmupLoop host benchmarkFn gc n w).
Proof.
  revert w. induction n as [| n IH]; intro w; simpl.
  - auto with finishes.
  - repeat step_finishes; try apply IH.
Qed.

Lemma timedLoop_finishes (n : nat) (last : option T) (w : World) :
  finishes (timedLoop benchmarkFn n last w).
Proof.
  revert last w. induction n as [| n IH]; intros last w; simpl.
  - auto with finishes.
  - step_finishes; try apply IH.
Qed.

Lemma runBenchmark_finishes (options : BenchmarkOptions) (w : World) :
  finishes (runBenchmark host benchmarkFn options w).
Proof.
  unfold runBenchmark.
  step_finishes.
  apply bind_finishes; [apply warmupLoop_finishes | intros ? ? ?].
  do 2 step_finishes.
  apply bind_finishes; [apply timedLoop_finishes | intros ? ? ?].
  repeat step_finishes.
Qed.

Lemma plainLoop_finishes (n : nat) (w : World) :
  finishes (plainLoop T benchmarkFn n w).
Proof.
  revert w. induction n as [| n IH]; intro w; simpl.
  - auto with finishes.
  - step_finishes; try apply IH.
Qed.

Lemma runWarmup_finishes (iterations : Q) (w : World) :
  finishes (runWarmup host T benchmarkFn iterations w).
Proof.
  unfold runWarmup. destruct (Qle_bool iterations 0); [auto with finishes |].
  step_finishes.
  apply bind_finishes; [apply plainLoop_finishes | intros ? ? ?].
  auto with finishes.
Qed.

Lemma measureDuration_finishes (iterations : Q) (w : World) :
  finishes (measureDuration host T benchmarkFn iterations w).
Proof.
  unfold measureDuration. do 2 step_finishes.
  apply bind_finishes; [apply plainLoop_finishes | intros ? ? ?].
  repeat step_finishes.
Qed.

Lemma findIterations_finishes (options : AdaptiveBenchmarkOptions) (w : World) :
  finishes (findIterationsForTargetDuration host T benchmarkFn options w).
Proof.
  unfold findIterationsForTargetDuration.
  apply bind_finishes; [apply runWarmup_finishes | intros ? ? ?].
  apply bind_finishes; [apply measureDuration_finishes | intros ? ? ?].
  apply bind_finishes; [apply measureDuration_finishes | intros ? ? ?].
  destruct (gt _ _); auto with finishes.
Qed.

Lemma warmupRounds_finishes (n : nat) (iterations : Q) (w : World) :
  finishes (warmupRounds host T benchmarkFn n iterations w).
Proof.
  revert w. induction n as [| n IH]; intro w; simpl.
  - auto with finishes.
  - apply bind_finishes; [apply runWarmup_finishes | intros ? ? ?]. apply IH.
Qed.

Variable opts : AdaptiveBenchmarkOptions.
Variable initial : Q.
Variable startTime : Q.

Lemma loopCondition_finishes (st : LoopState T) (w : World) :
  finishes (loopCondition host T opts startTime st w).
Proof.
  unfold loopCondition.
  destruct (lt _ _); [auto with finishes |].
  destruct (_ && _); repeat step_finishes.
Qed.

Lemma evaluate_finishes (st : LoopState T) (w : World) :
  finishes (evaluate host T opts initial st w).
Proof.
  unfold evaluate. destruct (Qle_bool 3 _); [| auto with finishes].
  destruct (Stats.calculateStats _ _) as [stats | e |] eqn:E.
  - destruct (_ && _); auto with finishes.
  - auto with finishes.
  - unfold Stats.calculateStats in E.
    destruct (map duration (samples st)); [discriminate |].
    destruct (middle _); discriminate.
Qed.

Lemma below_ceiling (n : nat) (q : Q) :
  inject_Z (Z.of_nat n) < q -> (n < Z.to_nat (Qceiling q))%nat.
Proof.
  intro H. pose proof (Qle_ceiling q) as Hc.
  assert (Z.of_nat n < Qceiling q)%Z by (rewrite Zlt_Qlt; lra).
  lia.
Qed.

(** The loop only goes on while the samples are below the cap. *)
Lemma loopCondition_true (st : LoopState T) (w w1 : World) :
  loopCondition host T opts startTime st w = (Returned true, w1) ->
  (length (samples st) < sampleCap opts)%nat.
Proof.
  unfold loopCondition, sampleCap. intro H.
  set (lo := or_else (minSamples opts) 5) in *.
  set (hi := or_else (maxSamples opts) 100) in *.
  pose proof (max_ge_l lo hi). pose proof (max_ge_r lo hi).
  apply below_ceiling. fold (len (samples st)).
  destruct (lt (len (samples st)) lo) eqn:E1.
  - apply lt_true_iff in E1. lra.
  - destruct (rsd_gt _ _ && lt (len (samples st)) hi) eqn:E2.
    + apply andb_true_iff in E2 as [_ E2]. apply lt_true_iff in E2. lra.
    + apply ret_returned in H as [H _]. discriminate.
Qed.

Lemma floor_unique (z : Z) (y : Q) :
  inject_Z z <= y -> y < inject_Z (z + 1) -> Qfloor y = z.
Proof.
  intros Hlo Hhi.
  pose proof (Qfloor_le y) as Fl. pose proof (Qlt_floor y) as Fu.
  assert (z < Qfloor y + 1)%Z by (rewrite Zlt_Qlt; lra).
  assert (Qfloor y < z + 1)%Z by (rewrite Zlt_Qlt; lra).
  lia.
Qed.

(** A rescale step uses up one of the steps that are left. *)
Lemma rescale_uses_step (st : LoopState T) (rsd : Q) :
  Qle_bool (currentStep st) (or_else (adaptiveSteps opts) 4) = true ->
  S (rescalesLeft opts (rescale T opts initial st rsd)) = rescalesLeft opts st.
Proof.
  intro H. apply Qle_bool_iff in H.
  unfold rescalesLeft, rescale. cbn [currentStep].
  set (A := or_else (adaptiveSteps opts) 4) in *.
  set (c := currentStep st) in *.
  assert (0 <= Qfloor (A - c))%Z as Hpos.
  { change 0%Z with (Qfloor 0). apply Qfloor_resp_le. lra. }
  assert (Qfloor (A - (c + 1)) = Qfloor (A - c) - 1)%Z as ->.
  { apply floor_unique.
    - pose proof (Qfloor_le (A - c)) as Fl.
      unfold Z.sub. rewrite inject_Z_plus, inject_Z_opp.
      change (inject_Z 1) with 1. lra.
    - pose proof (Qlt_floor (A - c)) as Fu.
      replace (Qfloor (A - c) - 1 + 1)%Z with (Qfloor (A - c)) by lia.
      rewrite inject_Z_plus in Fu. change (inject_Z 1) with 1 in Fu. lra. }
  lia.
Qed.

(** Every turn of the loop lowers the bound on the turns that are left. *)
Lemma evaluate_decreases (st st2 : LoopState T) (r : BenchmarkResult T)
  (w w2 : World) :
  (length (samples st) < sampleCap opts)%nat ->
  evaluate host T opts initial
    (mkLoop (l_iterations st) (currentStep st) (samples st ++ [r])
            (adjustmentSteps st) (l_rsd st)) w = (Returned st2, w2) ->
  (turnsLeft opts st2 < turnsLeft opts st)%nat.
Proof.
  intros Hcap. unfold evaluate.
  set (st1 := mkLoop _ _ _ _ _).
  assert (turnsLeft opts st1 < turnsLeft opts st)%nat as Hpush.
  { unfold turnsLeft, rescalesLeft, st1; simpl.
    rewrite length_app; simpl. lia. }
  destruct (Qle_bool 3 (len (samples st1))).
  2:{ intro H. apply ret_returned in H as [<- _]. exact Hpush. }
  destruct (Stats.calculateStats _ _) as [stats | e |]; try discriminate.
  destruct (Qle_bool (currentStep st1) _) eqn:Estep; simpl.
  - destruct (gt _ _); intro H; apply ret_returned in H as [<- _].
    + match goal with |- context [rescale T opts initial st1 ?rsd] =>
        pose proof (rescale_uses_step st1 rsd Estep) as Huse end.
      change (rescalesLeft opts st1) with (rescalesLeft opts st) in Huse.
      unfold turnsLeft. rewrite <- Huse. lia.
    + exact Hpush.
  - intro H; apply ret_returned in H as [<- _]. exact Hpush.
Qed.

Lemma mainLoop_finishes (fuel : nat) :
  forall (st : LoopState T) (w : World),
    (turnsLeft opts st < fuel)%nat ->
    finishes (mainLoop host T benchmarkFn opts initial startTime fuel st w).
Proof.
  induction fuel as [| fuel IH]; intros st w Hfuel; [lia |].
  simpl.
  apply bind_finishes; [apply loopCondition_finishes | intros continue w1 Hc].
  destruct continue; [| auto with finishes].
  apply loopCondition_true in Hc.
  apply bind_finishes; [apply runBenchmark_finishes | intros r w2 _].
  apply bind_finishes; [apply evaluate_finishes | intros st2 w3 Hev].
  apply evaluate_decreases in Hev; [| exact Hc].
  step_finishes.
  destruct (gt _ _); [repeat step_finishes |].
  apply IH. lia.
Qed.

End LoopFinishFacts.

(** Total correctness of the loop model: with [enoughFuel] unrollings (a
    bound that depends on the options only) an adaptive run ends by
    returning or by throwing, whatever the host and the function do. *)
Lemma runAdaptiveBenchmark_finishes (host : Core.Host) (T : Type)
  (fn : Core.BenchmarkFunction T) (options : Adaptive.AdaptiveBenchmarkOptions)
  (fuel : nat) (w : Core.World) :
  (Adaptive.enoughFuel options <= fuel)%nat ->
  Core.finishes (Adaptive.runAdaptiveBenchmark host T fn fuel options w).
Proof.
  intro Hfuel. unfold Adaptive.runAdaptiveBenchmark.
  apply bind_finishes; [apply findIterations_finishes | intros its w1 _].
  step_finishes.
  apply bind_finishes; [apply warmupRounds_finishes | intros ? w3 _].
  apply bind_finishes.
  - apply mainLoop_finishes. unfold Adaptive.enoughFuel in Hfuel.
    unfold Adaptive.turnsLeft, Adaptive.rescalesLeft in *. simpl in *. lia.
  - intros st w4 _.
    destruct (Stats.calculateStats _ _) as [stats | e |] eqn:E.
    + destruct (last _ _); repeat step_finishes.
    + auto with finishes.
    + unfold Stats.calculateStats in E.
      destruct (map Core.duration (Adaptive.samples st)); [discriminate |].
      destruct (middle _); discriminate.
Qed.

(** When both of two contexts report, the promise is resolved with the mean
    of the two reports. *)
Example isolated_run_complete_resolves :
  exists st r,
    Isolation.runIsolatedBenchmark "bench" "" (Scenario.withProcessCount 2)
      Scenario.completeTrace = Returned st /\
    Isolation.promise st = Isolation.Resolved r /\
    Core.duration r == 15 /\
    Isolation.sameValue (Core.result r) (Some (Isolation.VNumber 2)) /\
    Isolation.cleanups st = 1%nat.
Proof.
  eexists. eexists. split; [reflexivity |].
  split; [vm_compute; reflexivity |].
  repeat split; reflexivity.
Qed.

(** A name outside [A-Za-z0-9_$] is refused before anything is launched. *)
Example isolated_run_refuses_unsafe_name :
  Isolation.runIsolatedBenchmark "rm -rf" "" (Scenario.withProcessCount 1) []
  = Thrown (Err "Invalid benchmark name. Use only alphanumeric characters, _ and $").
Proof. reflexivity. Qed.

(** * Further properties of the code *)

(** ** Calibration by stability *)

Section StabilityFacts.
Import Core Stability.

Variable host : Host.
Variable T : Type.
Variable benchmarkFn : BenchmarkFunction T.
Variable targetRSD initialIterations maxIterations minSamples : Q.

Lemma bind_stuck {A B : Type} (m : M A) (k : A -> M B) (w w1 : World) (a : A) :
  m w = (Returned a, w1) ->
  fst (k a w1) = OutOfFuel ->
  fst (bind m k w) = OutOfFuel.
Proof. intros Hm Hk. unfold bind. now rewrite Hm. Qed.

Lemma stable_too_few (samples : list Q) :
  len samples < minSamples ->
  stable host targetRSD minSamples samples = false.
Proof.
  intro H. unfold stable.
  assert (Qle_bool minSamples (len samples) = false) as ->; [| reflexivity].
  apply not_true_iff_false. rewrite Qle_bool_iff. lra.
Qed.

Hypothesis fn_quiet : forall w, benchmarkFn w <> None.
Hypothesis initial_pos : 0 < initialIterations.
Hypothesis room : initialIterations * 4 < maxIterations.
Hypothesis needs_four : 3 < minSamples.

Lemma len_app_one {A : Type} (l : list A) (x : A) :
  len (l ++ [x]) = inject_Z (Z.of_nat (S (length l))).
Proof. unfold len. rewrite length_app. simpl. now rewrite Nat.add_1_r. Qed.

Lemma stabilityLoop_stuck (fuel : nat) :
  forall (iterations : Q) (samples : list Q) (w : World),
    OnTrack initialIterations maxIterations iterations samples ->
    fst (stabilityLoop host T benchmarkFn targetRSD initialIterations
           maxIterations minSamples fuel iterations samples w) = OutOfFuel.
Proof.
  induction fuel as [| fuel IH]; intros iterations samples w Htrack;
    [reflexivity |].
  cbn [stabilityLoop].
  assert (iterations <= maxIterations) as Hle
    by (destruct Htrack as [[E _] | [[E _] | [[E _] | [_ [E _]]]]]; lra).
  assert (length samples <= 2)%nat as Hfew
    by (destruct Htrack as [[_ E] | [[_ E] | [[_ E] | [_ [_ E]]]]]; lia).
  apply Qle_bool_iff in Hle. rewrite Hle.
  eapply bind_stuck; [reflexivity |].
  unfold bind at 1, call at 1.
  destruct (benchmarkFn _) as [v |] eqn:E; [| now apply fn_quiet in E].
  eapply bind_stuck; [reflexivity |].
  rewrite stable_too_few.
  2:{ rewrite len_app_one.
      assert (inject_Z (Z.of_nat (S (length samples))) <= inject_Z 3)
        by (rewrite <- Zle_Qle; lia).
      change (inject_Z 3) with 3 in *. lra. }
  unfold bind at 1.
  destruct (forceGc_returns host
              (mkWorld (S (S (clock_reads w))) (S (fn_calls w)) (gc_runs w)
                       (snapshots w) (warnings w))) as (w2 & Hgc & _).
  simpl in Hgc |- *. rewrite Hgc.
  apply IH. apply Qle_bool_iff in Hle.
  unfold OnTrack, Js.min.
  destruct Htrack as [[Eq L] | [[Eq L] | [[Eq L] | [Eq [Eq' L]]]]].
  - assert (Qle_bool (iterations * 2) maxIterations = true) as ->
      by (apply Qle_bool_iff; lra).
    assert (gt (iterations * 2) (initialIterations * 4) = false) as ->
      by (apply not_true_iff_false; rewrite gt_true_iff; lra).
    right; left. split; [lra |]. rewrite length_app, L. reflexivity.
  - assert (Qle_bool (iterations * 2) maxIterations = true) as ->
      by (apply Qle_bool_iff; lra).
    assert (gt (iterations * 2) (initialIterations * 4) = false) as ->
      by (apply not_true_iff_false; rewrite gt_true_iff; lra).
    right; right; left. split; [lra |]. rewrite length_app, L. reflexivity.
  - destruct (Qle_bool (iterations * 2) maxIterations) eqn:Em.
    + apply Qle_bool_iff in Em.
      assert (gt (iterations * 2) (initialIterations * 4) = true) as ->
        by (apply gt_true_iff; lra).
      right; right; right. repeat split; [lra | lra].
    + assert (gt maxIterations (initialIterations * 4) = true) as ->
        by (apply gt_true_iff; lra).
      right; right; right. repeat split; [lra | lra].
  - destruct (Qle_bool (iterations * 2) maxIterations) eqn:Em.
    + apply Qle_bool_iff in Em.
      assert (gt (iterations * 2) (initialIterations * 4) = true) as ->
        by (apply gt_true_iff; lra).
      right; right; right. repeat split; [lra | lra].
    + assert (gt maxIterations (initialIterations * 4) = true) as ->
        by (apply gt_true_iff; lra).
      right; right; right. repeat split; [lra | lra].
Qed.

End StabilityFacts.

Section StabilityBounds.
Import Core Stability.

Variable host : Host.
Variable T : Type.
Variable benchmarkFn : BenchmarkFunction T.
Variable targetRSD initialIterations maxIterations minSamples : Q.

Lemma stabilityLoop_between (fuel : nat) :
  forall (iterations : Q) (samples : list Q) (w w' : World) (v : Q),
    0 <= iterations -> iterations <= maxIterations ->
    stabilityLoop host T benchmarkFn targetRSD initialIterations
      maxIterations minSamples fuel iterations samples w = (Returned v, w') ->
    iterations <= v /\ v <= maxIterations.
Proof.
  induction fuel as [| fuel IH]; intros iterations samples w w' v H0 Hle H;
    [discriminate |].
  cbn [stabilityLoop] in H.
  pose proof Hle as Hb. apply Qle_bool_iff in Hb. rewrite Hb in H.
  bind_inv H. bind_inv H. bind_inv H.
  destruct (stable _ _ _ _).
  - apply ret_returned in H as [<- _]. split; [apply Qle_refl | exact Hle].
  - bind_inv H. apply IH in H.
    + destruct H as [H1 H2]. split; [| exact H2].
      eapply Qle_trans; [| exact H1].
      unfold Js.min.
      destruct (Qle_bool (iterations * 2) maxIterations); lra.
    + unfold Js.min.
      destruct (Qle_bool (iterations * 2) maxIterations); lra.
    + apply min_le_r.
Qed.

Lemma stabilityLoop_at_most (fuel : nat) :
  forall (iterations : Q) (samples : list Q) (w w' : World) (v : Q),
    stabilityLoop host T benchmarkFn targetRSD initialIterations
      maxIterations minSamples fuel iterations samples w = (Returned v, w') ->
    v <= maxIterations.
Proof.
  induction fuel as [| fuel IH]; intros iterations samples w w' v H;
    [discriminate |].
  cbn [stabilityLoop] in H.
  destruct (Qle_bool iterations maxIterations) eqn:Eit.
  - apply Qle_bool_iff in Eit.
    bind_inv H. bind_inv H. bind_inv H.
    destruct (stable _ _ _ _).
    + now apply ret_returned in H as [<- _].
    + bind_inv H. eapply IH; eauto.
  - apply ret_returned in H as [<- _]. apply Qle_refl.
Qed.

End StabilityBounds.

(** X1.  Called with an initial count above zero, a maximum above four
    times the initial count and more than three required samples (the
    default arguments are such), [findIterationsForStatisticalStability]
    never returns for a function that does not throw: the samples are reset
    in every turn from the third on, so the stability test is never reached,
    and the count stops growing at the maximum without leaving the loop. *)
Theorem stability_calibration_never_returns
  (host : Core.Host) (T : Type) (benchmarkFn : Core.BenchmarkFunction T)
  (targetRSD initialIterations maxIterations minSamples : Q)
  (fuel : nat) (w : Core.World) :
  (forall w0, benchmarkFn w0 <> None) ->
  0 < initialIterations ->
  initialIterations * 4 < maxIterations ->
  3 < minSamples ->
  fst (Stability.findIterationsForStatisticalStability host T benchmarkFn
         targetRSD initialIterations maxIterations minSamples fuel w)
  = OutOfFuel.
Proof.
  intros Hfn Hpos Hroom Hmin.
  unfold Stability.findIterationsForStatisticalStability.
  apply stabilityLoop_stuck; auto.
  left. split; reflexivity.
Qed.

Lemma stability_calibration_never_returns_witness :
  fst (Stability.findIterationsForStatisticalStability Scenario.steadyHost
         unit Scenario.quietFn Stability.defaultTargetRSD
         Stability.defaultInitialIterations Stability.defaultMaxIterations
         Stability.defaultMinSamples 1000 Core.startOfTime)
  = OutOfFuel.
Proof.
  apply stability_calibration_never_returns.
  - discriminate.
  - reflexivity.
  - reflexivity.
  - reflexivity.
Defined.

(** X2.  Whenever [findIterationsForStatisticalStability] returns, the count
    it returns is at most [maxIterations].  With [initialIterations] above
    [maxIterations] it returns [maxIterations] at once, without invoking the
    function; with 0 <= [initialIterations] <= [maxIterations] the result is
    at least [initialIterations]. *)
Theorem stability_calibration_result_bounds
  (host : Core.Host) (T : Type) (benchmarkFn : Core.BenchmarkFunction T)
  (targetRSD initialIterations maxIterations minSamples : Q)
  (fuel : nat) (w w' : Core.World) (v : Q) :
  Stability.findIterationsForStatisticalStability host T benchmarkFn
    targetRSD initialIterations maxIterations minSamples fuel w
  = (Returned v, w') ->
  v <= maxIterations /\
  (maxIterations < initialIterations -> v = maxIterations /\ w' = w) /\
  (0 <= initialIterations -> initialIterations <= maxIterations ->
   initialIterations <= v).
Proof.
  unfold Stability.findIterationsForStatisticalStability. intro H.
  split; [eapply stabilityLoop_at_most; eauto |]. split.
  - intro Hgt. destruct fuel as [| fuel]; [discriminate |].
    cbn [Stability.stabilityLoop] in H.
    assert (Qle_bool initialIterations maxIterations = false) as E
      by (apply not_true_iff_false; rewrite Qle_bool_iff; lra).
    rewrite E in H. now apply ret_returned in H as [<- <-].
  - intros Hpos Hle.
    apply stabilityLoop_between in H; [| exact Hpos | exact Hle].
    apply H.
Qed.

Lemma stability_calibration_result_bounds_witness :
  exists v w',
    Stability.findIterationsForStatisticalStability Scenario.steadyHost unit
      Scenario.quietFn 2 1000 2000 2 10 Core.startOfTime = (Returned v, w') /\
    1000 <= v /\ v <= 2000.
Proof.
  destruct (Stability.findIterationsForStatisticalStability
              Scenario.steadyHost unit Scenario.quietFn 2 1000 2000 2 10
              Core.startOfTime)
    as [[v | e |] w'] eqn:E; try (vm_compute in E; discriminate).
  exists v, w'. split; [reflexivity |].
  destruct (stability_calibration_result_bounds Scenario.steadyHost unit
              Scenario.quietFn 2 1000 2000 2 10 Core.startOfTime w' v E)
    as (Hmax & _ & Hmin).
  split; [apply Hmin; discriminate | exact Hmax].
Defined.

(** ** Batches *)

Section BatchFacts.
Import Core Batches.

Lemma toIndex_whole (n j : nat) (x : Q) :
  x == inject_Z (Z.of_nat j) -> toIndex n x = Nat.min j n.
Proof.
  intro Hx. unfold toIndex, trunc.
  assert (Qle_bool 0 x = true) as ->.
  { apply Qle_bool_iff. rewrite Hx. change 0 with (inject_Z 0).
    rewrite <- Zle_Qle. lia. }
  assert (Qfloor x = Z.of_nat j) as -> by (rewrite Hx; apply Qfloor_Z).
  destruct (Z.of_nat j <? 0)%Z eqn:E.
  - apply Z.ltb_lt in E. lia.
  - rewrite <- Nat2Z.inj_min. apply Nat2Z.id.
Qed.

Lemma firstn_min_length {A : Type} (a : nat) (s : list A) :
  firstn (Nat.min a (length s)) s = firstn a s.
Proof.
  destruct (Nat.le_gt_cases a (length s)) as [H | H].
  - now rewrite Nat.min_l.
  - rewrite Nat.min_r by lia. rewrite firstn_all.
    symmetry. apply firstn_all2. lia.
Qed.

(** A batch taken at a whole position with a whole size is the next
    [size] items. *)
Lemma slice_whole {A : Type} (items : list A) (j size : nat) (i b : Q) :
  i == inject_Z (Z.of_nat j) -> b == inject_Z (Z.of_nat size) ->
  (j <= length items)%nat ->
  slice items i (i + b) = firstn size (skipn j items).
Proof.
  intros Hi Hb Hj. unfold slice.
  rewrite (toIndex_whole (length items) j i Hi).
  rewrite (toIndex_whole (length items) (j + size) (i + b)).
  2:{ rewrite Hi, Hb, <- inject_Z_plus. now rewrite Nat2Z.inj_add. }
  rewrite (Nat.min_l j) by exact Hj.
  rewrite <- (firstn_min_length size (skipn j items)), length_skipn.
  f_equal. lia.
Qed.

Lemma lt_len_iff {A : Type} (items : list A) (j : nat) (i : Q) :
  i == inject_Z (Z.of_nat j) ->
  (lt i (len items) = true <-> (j < length items)%nat).
Proof.
  intro Hi. rewrite lt_true_iff, Hi. unfold len.
  rewrite <- Zlt_Qlt. lia.
Qed.

Variable A : Type.
Variable items : list A.
Variable k : nat.
Variable batchSize : Q.
Hypothesis size_whole : batchSize == inject_Z (Z.of_nat (S k)).

Lemma batchesFrom_whole (fuel : nat) :
  forall (j : nat) (i : Q),
    i == inject_Z (Z.of_nat j) ->
    (length items - j < fuel)%nat ->
    exists batches,
      batchesFrom fuel items batchSize i = Returned batches /\
      concat batches = skipn j items /\
      Forall (fun batch => 1 <= length batch <= S k)%nat batches /\
      length batches = ((length items - j + k) / S k)%nat.
Proof.
  induction fuel as [| fuel IH]; intros j i Hi Hfuel; [lia |].
  cbn [batchesFrom].
  destruct (lt i (len items)) eqn:E.
  - apply (lt_len_iff items j i Hi) in E.
    destruct (IH (j + S k)%nat (i + batchSize)) as (rest & -> & Hc & Hf & Hl).
    { rewrite Hi, size_whole, <- inject_Z_plus. now rewrite Nat2Z.inj_add. }
    { lia. }
    eexists. split; [reflexivity |].
    rewrite (slice_whole items j (S k) i batchSize Hi size_whole)
      by lia.
    split; [| split].
    + cbn [concat]. rewrite Hc.
      rewrite <- (firstn_skipn (S k) (skipn j items)) at 2.
      f_equal. now rewrite skipn_skipn, Nat.add_comm.
    + constructor; [| exact Hf].
      rewrite length_firstn, length_skipn. lia.
    + cbn [length]. rewrite Hl.
      set (d := (length items - j)%nat) in *.
      assert (1 <= d)%nat by (unfold d; lia).
      replace (d + k)%nat with ((d + k - S k) + 1 * S k)%nat by lia.
      rewrite Nat.div_add by lia.
      destruct (Nat.le_gt_cases (S k) d) as [Hd | Hd].
      * replace (length items - (j + S k) + k)%nat
          with (d + k - S k)%nat by (unfold d; lia). lia.
      * replace (length items - (j + S k))%nat with 0%nat by (unfold d in *; lia).
        rewrite (Nat.div_small (0 + k)) by lia.
        rewrite (Nat.div_small (d + k - S k)) by lia. lia.
  - assert (~ (j < length items)%nat) as Hge.
    { intro H. apply (lt_len_iff items j i Hi) in H. congruence. }
    exists []. split; [reflexivity |]. split; [| split].
    + symmetry. apply skipn_all2. lia.
    + constructor.
    + replace (length items - j)%nat with 0%nat by lia.
      now rewrite Nat.div_small by lia.
Qed.

End BatchFacts.

Section ProcessFacts.
Import Core Batches.

Variable host : Host.
Variables A R : Type.
Variable processor : list A -> list R.

Lemma processEach_returns (gc : bool) (batches : list (list A)) :
  forall (results : list R) (w : World),
    exists w',
      processEach host processor gc batches results w
      = (Returned (results ++ flat_map processor batches), w') /\
      gc_runs w' =
        (gc_runs w + if gc && global_gc host then length batches else 0)%nat /\
      fn_calls w' = fn_calls w /\ clock_reads w' = clock_reads w.
Proof.
  induction batches as [| batch rest IH]; intros results w.
  - exists w. cbn. rewrite app_nil_r. destruct (gc && _); auto with arith.
  - cbn [processEach flat_map].
    unfold bind at 1.
    destruct gc.
    + cbn [when]. unfold forceGc at 1.
      destruct (global_gc host) eqn:G.
      * match goal with |- context [processEach _ _ _ rest _ ?w1] =>
          destruct (IH (results ++ processor batch) w1)
            as (w' & -> & Hg & Hf & Hc) end.
        exists w'. rewrite <- app_assoc. split; [reflexivity |].
        try rewrite G in Hg. simpl in *. repeat split; lia.
      * destruct (IH (results ++ processor batch) w) as (w' & -> & Hg & Hf & Hc).
        exists w'. rewrite <- app_assoc. split; [reflexivity |].
        try rewrite G in Hg. simpl in *. repeat split; lia.
    + cbn [when ret].
      destruct (IH (results ++ processor batch) w) as (w' & -> & Hg & Hf & Hc).
      exists w'. rewrite <- app_assoc. split; [reflexivity |].
      simpl in *. repeat split; lia.
Qed.

Lemma flat_map_distributes (batches : list (list A)) :
  (forall a b, processor (a ++ b) = processor a ++ processor b) ->
  flat_map processor batches = processor (concat batches).
Proof.
  intro Hd.
  assert (processor [] = []) as Hnil.
  { pose proof (Hd [] []) as H. simpl in H.
    apply (f_equal (@length R)) in H. rewrite length_app in H.
    destruct (processor []); [reflexivity | simpl in H; lia]. }
  induction batches as [| batch rest IH]; simpl.
  - now rewrite Hnil.
  - now rewrite Hd, IH.
Qed.

End ProcessFacts.

Section BatchDivergence.
Import Core Batches.

Lemma batchesFrom_stuck {A : Type} (items : list A) (batchSize : Q)
  (fuel : nat) :
  items <> [] -> batchSize <= 0 ->
  forall i, i <= 0 -> batchesFrom fuel items batchSize i = OutOfFuel.
Proof.
  intros Hne Hb. induction fuel as [| fuel IH]; intros i Hi; [reflexivity |].
  cbn [batchesFrom].
  assert (lt i (len items) = true) as ->.
  { apply lt_true_iff. destruct items as [| x rest]; [congruence |].
    pose proof (len_pos x rest). lra. }
  rewrite IH by lra. reflexivity.
Qed.

End BatchDivergence.

(** X3.  With a batch size that is a whole number [k + 1], the batches that
    [batchGenerator] yields concatenate to the items in their order, every
    batch holds at least one and at most [k + 1] items, and there are
    ceil(n / (k + 1)) of them; the loop takes at most n + 1 turns. *)
Theorem batchGenerator_partitions (A : Type) (items : list A) (k : nat)
  (batchSize : Q) (fuel : nat) :
  batchSize == inject_Z (Z.of_nat (S k)) ->
  (length items < fuel)%nat ->
  exists batches,
    Batches.batchGenerator fuel items batchSize = Returned batches /\
    concat batches = items /\
    Forall (fun batch => 1 <= length batch <= S k)%nat batches /\
    length batches = ((length items + k) / S k)%nat.
Proof.
  intros Hsize Hfuel. unfold Batches.batchGenerator.
  destruct (batchesFrom_whole A items k batchSize Hsize fuel 0 0)
    as (batches & Hb & Hc & Hf & Hl).
  - reflexivity.
  - lia.
  - exists batches. rewrite Nat.sub_0_r in Hl. auto.
Qed.

Lemma batchGenerator_partitions_witness :
  exists batches,
    Batches.batchGenerator 6 [1; 2; 3; 4; 5]%nat 2 = Returned batches /\
    concat batches = [1; 2; 3; 4; 5]%nat /\
    Forall (fun batch => 1 <= length batch <= 2)%nat batches /\
    length batches = 3%nat.
Proof.
  apply (batchGenerator_partitions nat [1; 2; 3; 4; 5]%nat 1 2 6).
  - reflexivity.
  - simpl. lia.
Defined.

(** X4.  With a whole, positive batch size, [processInBatches] returns the
    results of the processor on the batches, concatenated in order, and asks
    for one garbage collection per batch when that is enabled and available;
    for a processor that works item by item (one that distributes over
    concatenation, as a [map] or a [filter] does) the result is what the
    processor gives on all items at once. *)
Theorem processInBatches_concatenates (host : Core.Host) (A R : Type)
  (items : list A) (processor : list A -> list R) (k : nat) (batchSize : Q)
  (gcBetweenBatches : bool) (fuel : nat) (w : Core.World) :
  batchSize == inject_Z (Z.of_nat (S k)) ->
  (length items < fuel)%nat ->
  exists batches w',
    Batches.batchGenerator fuel items batchSize = Returned batches /\
    Batches.processInBatches host fuel items processor batchSize
      gcBetweenBatches w
    = (Returned (flat_map processor batches), w') /\
    Core.gc_runs w' =
      (Core.gc_runs w
       + if gcBetweenBatches && Core.global_gc host
         then (length items + k) / S k else 0)%nat /\
    ((forall a b, processor (a ++ b) = processor a ++ processor b) ->
     flat_map processor batches = processor items).
Proof.
  intros Hsize Hfuel.
  destruct (batchesFrom_whole A items k batchSize Hsize fuel 0 0)
    as (batches & Hb & Hc & Hf & Hl); [reflexivity | lia |].
  rewrite Nat.sub_0_r in Hl. cbn [skipn] in Hc.
  destruct (processEach_returns host A R processor gcBetweenBatches batches [] w)
    as (w' & Hp & Hg & _).
  exists batches, w'.
  unfold Batches.processInBatches, Batches.batchGenerator. rewrite Hb.
  split; [reflexivity |]. split; [exact Hp |]. split.
  - rewrite Hg, Hl. reflexivity.
  - intro Hd. rewrite <- Hc. now apply flat_map_distributes.
Qed.

Lemma processInBatches_concatenates_witness :
  exists batches w',
    Batches.batchGenerator 6 [1; 2; 3; 4; 5]%nat 2 = Returned batches /\
    Batches.processInBatches Scenario.steadyHost 6 [1; 2; 3; 4; 5]%nat
      (map S) 2 true Core.startOfTime
    = (Returned (flat_map (map S) batches), w') /\
    flat_map (map S) batches = map S [1; 2; 3; 4; 5]%nat.
Proof.
  destruct (processInBatches_concatenates Scenario.steadyHost nat nat
              [1; 2; 3; 4; 5]%nat (map S) 1 2 true 6 Core.startOfTime)
    as (batches & w' & Hb & Hp & _ & Hd).
  - reflexivity.
  - simpl. lia.
  - exists batches, w'. repeat split; auto.
    apply Hd. intros a b. apply map_app.
Defined.

(** X5.  With a batch size of zero or below and at least one item, the loop
    of [batchGenerator] never ends (its index does not advance past the
    start), and neither does [processInBatches]. *)
Theorem batchGenerator_needs_positive_size (host : Core.Host) (A R : Type)
  (items : list A) (processor : list A -> list R) (batchSize : Q)
  (gcBetweenBatches : bool) (fuel : nat) (w : Core.World) :
  items <> [] -> batchSize <= 0 ->
  Batches.batchGenerator fuel items batchSize = OutOfFuel /\
  fst (Batches.processInBatches host fuel items processor batchSize
         gcBetweenBatches w) = OutOfFuel.
Proof.
  intros Hne Hb.
  assert (Batches.batchGenerator fuel items batchSize = OutOfFuel) as E
    by (apply batchesFrom_stuck; auto; apply Qle_refl).
  split; [exact E |].
  unfold Batches.processInBatches. now rewrite E.
Qed.

Lemma batchGenerator_needs_positive_size_witness :
  Batches.batchGenerator 1000 [1; 2; 3]%nat 0 = OutOfFuel.
Proof.
  apply (proj1 (batchGenerator_needs_positive_size Scenario.steadyHost
                  nat nat [1; 2; 3]%nat (map S) 0 true 1000
                  Core.startOfTime ltac:(discriminate) (Qle_refl 0))).
Defined.

(** ** Repeated runs *)

Section MultipleFacts.
Import Core Multiple.

Variable host : Host.
Variable T : Type.
Variable benchmarkFn : BenchmarkFunction T.
Hypothesis fn_quiet : forall w, benchmarkFn w <> None.

Variable opts : BenchmarkOptions.

Lemma runsLoop_returns (n : nat) :
  forall (first : bool) (done : list (BenchmarkResult T)) (w : World),
    exists rs w',
      runsLoop host T benchmarkFn n first opts done w
      = (Returned (done ++ rs), w') /\
      length rs = n /\
      fn_calls w' =
        (fn_calls w
         + (if first
            then match n with
                 | O => 0
                 | S _ => loop_count
                            (or_else (spread (Some 0%Q) (warmupRuns opts)) 0%Q)
                 end
            else 0)
         + n * loop_count
                 (or_else (spread (Some 100000%Q) (iterations opts)) 1%Q))%nat /\
      Forall (fun r => r_iterations r
                       = or_else (spread (Some 100000) (iterations opts)) 1)
             rs.
Proof.
  induction n as [| n IH]; intros first done w.
  - exists [], w. cbn. rewrite app_nil_r.
    repeat split; auto. destruct first; lia.
  - cbn [runsLoop]. unfold bind at 1.
    match goal with |- context [runBenchmark host benchmarkFn ?o w] =>
      destruct (runBenchmark_returns host benchmarkFn o w fn_quiet)
        as (r & w1 & -> & Hr & Hcalls) end.
    unfold bind at 1.
    destruct (when_forceGc_returns host (truthy (gcBetweenRuns opts)) w1)
      as (w2 & -> & Hgc).
    destruct (IH false (done ++ [r]) w2) as (rs & w3 & -> & Hl & Hc & Hf).
    exists (r :: rs), w3. rewrite <- app_assoc. split; [reflexivity |].
    split; [simpl; now rewrite Hl |].
    cbn [mergeOptions iterations warmupRuns DEFAULT_OPTIONS] in Hr, Hcalls.
    split.
    + rewrite Hc, Hgc, Hcalls. destruct first.
      * lia.
      * change (loop_count (or_else (spread (Some 0) (Some 0)) 0))
          with 0%nat.
        lia.
    + constructor; assumption.
Qed.

End MultipleFacts.

(** X6.  For a function that does not throw and a positive number of runs
    ([options.runs], 5 when absent or zero), [runMultipleBenchmarks] returns
    that many results, each reporting the iteration count in force; the
    function is invoked [warmupRuns] times before the first run only, and
    [iterations] times in every run. *)
Theorem runMultipleBenchmarks_accounting (host : Core.Host) (T : Type)
  (benchmarkFn : Core.BenchmarkFunction T) (options : Core.BenchmarkOptions)
  (w : Core.World) :
  let merged := Core.mergeOptions Core.DEFAULT_OPTIONS options in
  let count := loop_count (or_else (Core.runs options) 5) in
  (forall w0, benchmarkFn w0 <> None) ->
  (1 <= count)%nat ->
  exists runs stats w',
    Multiple.runMultipleBenchmarks host T benchmarkFn options w
    = (Returned (runs, stats), w') /\
    length runs = count /\
    Forall (fun r => Core.r_iterations r
                     = or_else (Core.iterations merged) 1) runs /\
    Core.fn_calls w' =
      (Core.fn_calls w
       + loop_count (or_else (Core.warmupRuns merged) 0%Q)
       + count * loop_count (or_else (Core.iterations merged) 1%Q))%nat.
Proof.
  intros merged count Hfn Hcount.
  unfold Multiple.runMultipleBenchmarks. fold count.
  destruct (runsLoop_returns host T benchmarkFn Hfn
              (Multiple.multipleOptions options) count true [] w)
    as (rs & w1 & Hrun & Hl & Hc & Hf).
  unfold Core.bind at 1. rewrite Hrun. cbn [app].
  destruct rs as [| r rs]; [simpl in Hl; lia |].
  unfold Multiple.statsOf. cbn [map].
  destruct (calculateStats_returns (Core.Math_sqrt host)
              (Core.duration r) (map Core.duration rs))
    as (m1 & _ & _ & E1).
  destruct (calculateStats_returns (Core.Math_sqrt host)
              (Core.operationsPerSecond r) (map Core.operationsPerSecond rs))
    as (m2 & _ & _ & E2).
  destruct (calculateStats_returns (Core.Math_sqrt host)
              (Core.d_heapUsed (Core.memoryDelta r) / (1024 * 1024))
              (map (fun r0 => Core.d_heapUsed (Core.memoryDelta r0)
                              / (1024 * 1024)) rs))
    as (m3 & _ & _ & E3).
  unfold Core.bind. rewrite E1, E2, E3. unfold Core.ret.
  eexists. eexists. eexists. split; [reflexivity |].
  unfold Multiple.multipleOptions in Hc, Hf.
  cbn [Core.iterations Core.warmupRuns Core.mergeOptions
       Core.DEFAULT_OPTIONS] in Hc, Hf.
  repeat rewrite spread_idem in Hc. repeat rewrite spread_idem in Hf.
  split; [exact Hl |]. split; [exact Hf |].
  rewrite Hc. destruct count; [lia | reflexivity].
Qed.

Lemma runMultipleBenchmarks_accounting_witness :
  exists runs stats w',
    Multiple.runMultipleBenchmarks Scenario.steadyHost unit Scenario.quietFn
      (Core.mkOptions (Some 10) (Some 3) (Some 2) None) Core.startOfTime
    = (Returned (runs, stats), w') /\
    length runs = 3%nat /\ Core.fn_calls w' = 32%nat.
Proof.
  destruct (runMultipleBenchmarks_accounting Scenario.steadyHost unit
              Scenario.quietFn
              (Core.mkOptions (Some 10) (Some 3) (Some 2) None)
              Core.startOfTime)
    as (runs & stats & w' & Hrun & Hl & _ & Hc).
  - discriminate.
  - vm_compute. lia.
  - exists runs, stats, w'. repeat split; auto.
Defined.

(** X7.  With a negative [runs] option no run is made and the function is
    not invoked: [runMultipleBenchmarks] throws the "empty array" error of
    [calculateStats]. *)
Theorem runMultipleBenchmarks_negative_runs (host : Core.Host) (T : Type)
  (benchmarkFn : Core.BenchmarkFunction T) (options : Core.BenchmarkOptions)
  (r : Q) (w : Core.World) :
  Core.runs options = Some r -> r < 0 ->
  Multiple.runMultipleBenchmarks host T benchmarkFn options w
  = (Thrown (Err "Cannot calculate stats for empty array"), w).
Proof.
  intros Hr Hneg. unfold Multiple.runMultipleBenchmarks.
  assert (loop_count (or_else (Core.runs options) 5) = 0%nat) as ->.
  { rewrite Hr. unfold or_else.
    assert (Qeq_bool r 0 = false) as ->
      by (apply not_true_iff_false; rewrite Qeq_bool_iff; lra).
    unfold loop_count.
    assert (Qceiling r <= 0)%Z; [| lia].
    change 0%Z with (Qceiling 0). apply Qceiling_resp_le. lra. }
  reflexivity.
Qed.

Lemma runMultipleBenchmarks_negative_runs_witness :
  Multiple.runMultipleBenchmarks Scenario.steadyHost unit Scenario.quietFn
    (Core.mkOptions None (Some (-1)) None None) Core.startOfTime
  = (Thrown (Err "Cannot calculate stats for empty array"), Core.startOfTime).
Proof.
  apply (runMultipleBenchmarks_negative_runs Scenario.steadyHost unit
           Scenario.quietFn (Core.mkOptions None (Some (-1)) None None)
           (-1) Core.startOfTime eq_refl).
  reflexivity.
Defined.

(** ** The buckets of the outlier detection *)

Section BucketFacts.
Import Stats Classes.

Lemma classify_buckets (med mad : Q) (values : list Q) (b : Buckets) :
  fold_left (classify med mad) values b
  = mkBuckets (b_clean b ++ filter (isClean med mad) values)
              (b_mild b ++ filter (isMild med mad) values)
              (b_extreme b ++ filter (isExtreme med mad) values).
Proof.
  revert b. induction values as [| v values IH]; intro b; simpl.
  - rewrite !app_nil_r. now destruct b.
  - rewrite IH. unfold classify, isClean, isMild, isExtreme.
    destruct (gt (modifiedZScore med mad v) EXTREME_THRESHOLD); simpl.
    + now rewrite <- app_assoc.
    + destruct (gt (modifiedZScore med mad v) MILD_THRESHOLD); simpl;
        now rewrite <- app_assoc.
Qed.

Lemma classes_exclusive (med mad v : Q) :
  exactlyOne (isClean med mad v) (isMild med mad v) (isExtreme med mad v).
Proof.
  unfold exactlyOne, isClean, isMild, isExtreme.
  destruct (gt (modifiedZScore med mad v) EXTREME_THRESHOLD) eqn:E;
    destruct (gt (modifiedZScore med mad v) MILD_THRESHOLD) eqn:M; simpl;
    auto.
Qed.

Lemma three_way_partition {A : Type} (c m e : A -> bool) (l : list A) :
  (forall x, exactlyOne (c x) (m x) (e x)) ->
  Permutation l (filter c l ++ filter m l ++ filter e l).
Proof.
  intro H. induction l as [| x l IH]; simpl; [constructor |].
  destruct (H x) as [(-> & -> & ->) | [(-> & -> & ->) | (-> & -> & ->)]].
  - simpl. now apply perm_skip.
  - apply Permutation_cons_app. exact IH.
  - rewrite app_assoc. apply Permutation_cons_app.
    now rewrite <- app_assoc.
Qed.

Lemma filter_all {A : Type} (p : A -> bool) (l : list A) :
  (forall x, In x l -> p x = true) -> filter p l = l.
Proof.
  induction l as [| x l IH]; intro H; simpl; [reflexivity |].
  rewrite (H x (or_introl eq_refl)). f_equal. apply IH.
  intros y Hy. apply H. now right.
Qed.

Lemma filter_none {A : Type} (p : A -> bool) (l : list A) :
  (forall x, In x l -> p x = false) -> filter p l = [].
Proof.
  induction l as [| x l IH]; intro H; simpl; [reflexivity |].
  rewrite (H x (or_introl eq_refl)). apply IH.
  intros y Hy. apply H. now right.
Qed.

Lemma zero_mad_score (med mad v : Q) :
  mad == 0 -> modifiedZScore med mad v = 0.
Proof.
  intro H. unfold modifiedZScore, eqb.
  apply Qeq_bool_iff in H. now rewrite H.
Qed.

Lemma zero_mad_detection (values : list Q) (med mad : Q) :
  medianOf values = Some med -> madOf med values = Some mad -> mad == 0 ->
  detectOutliers values = mkDetection values (mkOutliers [] []).
Proof.
  intros Hmed Hmad H0. rewrite safetyValve_idle.
  unfold classification. rewrite Hmed, Hmad, classify_buckets. simpl.
  rewrite filter_all, !filter_none; [reflexivity | | |]; intros v _;
    unfold isExtreme, isMild, isClean; rewrite (zero_mad_score med mad v H0);
    reflexivity.
Qed.

End BucketFacts.

(** X8.  [detectOutliers] puts every input value into exactly one of its
    three buckets and keeps the input order inside each: the clean, mild
    and extreme lists are the input filtered by three tests of which
    exactly one holds for each value, so together they are a permutation
    of the input and no value is lost or duplicated. *)
Theorem detectOutliers_buckets_partition (values : list Q) :
  exists c m e : Q -> bool,
    Stats.cleanValues (Stats.detectOutliers values) = filter c values /\
    Stats.mild (Stats.outliers (Stats.detectOutliers values))
      = filter m values /\
    Stats.extreme (Stats.outliers (Stats.detectOutliers values))
      = filter e values /\
    (forall v, Classes.exactlyOne (c v) (m v) (e v)) /\
    Permutation values
      (Stats.cleanValues (Stats.detectOutliers values)
       ++ Stats.mild (Stats.outliers (Stats.detectOutliers values))
       ++ Stats.extreme (Stats.outliers (Stats.detectOutliers values))).
Proof.
  rewrite safetyValve_idle. simpl. unfold Stats.classification.
  destruct (Stats.medianOf values) as [med |] eqn:Hmed.
  - destruct (Stats.madOf med values) as [mad |] eqn:Hmad.
    + rewrite classify_buckets. simpl.
      exists (Stats.isClean med mad), (Classes.isMild med mad),
             (Classes.isExtreme med mad).
      repeat split; try reflexivity.
      * apply classes_exclusive.
      * apply three_way_partition. apply classes_exclusive.
    + (* no MAD: the input is empty *)
      unfold Stats.madOf, middle in Hmad. apply nth_error_None in Hmad.
      rewrite sort_length, length_map in Hmad.
      destruct values as [| x rest].
      * exists (fun _ => true), (fun _ => false), (fun _ => false).
        simpl. repeat split; auto. intro v. left. auto.
      * exfalso. simpl length in Hmad.
        assert (S (length rest) / 2 < S (length rest))%nat
          by (apply Nat.div_lt; lia). lia.
  - unfold Stats.medianOf, middle in Hmed. apply nth_error_None in Hmed.
    rewrite sort_length in Hmed.
    destruct values as [| x rest].
    + exists (fun _ => true), (fun _ => false), (fun _ => false).
      simpl. repeat split; auto. intro v. left. auto.
    + exfalso. simpl length in Hmed.
      assert (S (length rest) / 2 < S (length rest))%nat
        by (apply Nat.div_lt; lia). lia.
Qed.

(** X9.  The fallback of the safety valve is never taken: for every input
    [detectOutliers] returns the three buckets as classified, and for a
    non-empty input strictly more than half of the values are clean (the
    values whose deviation from the median is at most the MAD always
    are). *)
Theorem detectOutliers_clean_majority (values : list Q) :
  Stats.detectOutliers values =
    Stats.mkDetection (Stats.b_clean (Stats.classification values))
      (Stats.mkOutliers (Stats.b_mild (Stats.classification values))
                        (Stats.b_extreme (Stats.classification values))) /\
  (values <> [] ->
   (length values
    < 2 * length (Stats.cleanValues (Stats.detectOutliers values)))%nat).
Proof.
  split; [apply safetyValve_idle |].
  intro Hne. rewrite safetyValve_idle. simpl.
  destruct (classification_majority values) as [H | H]; [exact H | congruence].
Qed.

Lemma detectOutliers_clean_majority_witness :
  Cases.skewedSample <> [] /\
  (length Cases.skewedSample
   < 2 * length (Stats.cleanValues (Stats.detectOutliers Cases.skewedSample)))%nat.
Proof.
  assert (Cases.skewedSample <> []) as Hne by discriminate.
  split; [exact Hne |].
  exact (proj2 (detectOutliers_clean_majority Cases.skewedSample) Hne).
Defined.

(** X10.  When the median absolute deviation is 0 (more than half of the
    values equal the median), nothing is rejected: every value is clean and
    both outlier buckets are empty, however far the other values lie. *)
Theorem detectOutliers_zero_mad_rejects_nothing (values : list Q)
  (med mad : Q) :
  Stats.medianOf values = Some med ->
  Stats.madOf med values = Some mad ->
  mad == 0 ->
  Stats.detectOutliers values
  = Stats.mkDetection values (Stats.mkOutliers [] []).
Proof. apply zero_mad_detection. Qed.

Lemma detectOutliers_zero_mad_rejects_nothing_witness :
  Stats.detectOutliers Cases.mostlySeven
  = Stats.mkDetection Cases.mostlySeven (Stats.mkOutliers [] []).
Proof.
  apply (detectOutliers_zero_mad_rejects_nothing Cases.mostlySeven 7
           (Qabs (7 - 7))); reflexivity.
Defined.

(** ** Enhanced statistics *)

Section EnhancedShape.
Import Stats.

Variable sqrt : Q -> Q.

Lemma calculateEnhancedStats_shape (x : Q) (rest : list Q) :
  exists c crest med,
    cleanValues (detectOutliers (x :: rest)) = c :: crest /\
    In med (c :: crest) /\
    calculateEnhancedStats sqrt (x :: rest)
    = Returned
        (let clean := c :: crest in
         let m := meanOf clean in
         let stdDev := sqrt (variance clean m) in
         let ci := calculateConfidenceInterval sqrt clean m stdDev in
         mkEnhanced
           (mkStats m med (min_of c crest) (max_of c crest) stdDev)
           ci
           (((upper ci - lower ci) / 2 / m) * 100)
           (outliers (detectOutliers (x :: rest)))
           (calculateSkewness clean m stdDev)
           (calculateKurtosis clean m stdDev)).
Proof.
  unfold calculateEnhancedStats.
  pose proof (detectOutliers_clean_nonempty x rest) as Hne.
  destruct (cleanValues (detectOutliers (x :: rest))) as [| c crest];
    [congruence |].
  destruct (middle_sort_in c crest) as (med & Hm & Hin).
  exists c, crest, med. rewrite Hm. auto.
Qed.

Lemma min_of_repeat (k : Q) (n : nat) : min_of k (repeat k n) = k.
Proof.
  unfold min_of. induction n as [| n IH]; simpl; [reflexivity |].
  unfold Js.min at 2. now destruct (Qle_bool k k).
Qed.

Lemma max_of_repeat (k : Q) (n : nat) : max_of k (repeat k n) = k.
Proof.
  unfold max_of. induction n as [| n IH]; simpl; [reflexivity |].
  unfold Js.max at 2. now destruct (Qle_bool k k).
Qed.

Lemma detectOutliers_repeat (k : Q) (n : nat) :
  detectOutliers (repeat k (S n))
  = mkDetection (repeat k (S n)) (mkOutliers [] []).
Proof.
  change (repeat k (S n)) with (k :: repeat k n).
  destruct (middle_sort_in k (repeat k n)) as (med & Hmed & Hin).
  assert (med = k) as ->
    by (destruct Hin as [<- | Hin]; [reflexivity | now apply repeat_spec in Hin]).
  destruct (middle_sort_in (Qabs (k - k))
              (map (fun val => Qabs (val - k)) (repeat k n)))
    as (mad & Hmad & Hin').
  apply (zero_mad_detection (k :: repeat k n) k mad Hmed Hmad).
  assert (mad = Qabs (k - k)) as ->.
  { destruct Hin' as [<- | Hin']; [reflexivity |].
    apply in_map_iff in Hin' as (v & <- & Hv).
    apply repeat_spec in Hv. now subst v. }
  setoid_replace (k - k) with 0 by ring. reflexivity.
Qed.

End EnhancedShape.

(** X11.  For every non-empty input [calculateEnhancedStats] returns a
    summary computed on the clean values of [detectOutliers]: it reports that
    detection's outlier buckets, its median is one of the clean values, and
    its minimum and maximum bound every clean value, the median among
    them. *)
Theorem calculateEnhancedStats_summary (sqrt : Q -> Q) (values : list Q) :
  values <> [] ->
  exists e,
    Stats.calculateEnhancedStats sqrt values = Returned e /\
    let s := Stats.e_stats e in
    let clean := Stats.cleanValues (Stats.detectOutliers values) in
    Stats.e_outliers e = Stats.outliers (Stats.detectOutliers values) /\
    In (Stats.median s) clean /\
    (forall v, In v clean -> Stats.min s <= v /\ v <= Stats.max s) /\
    (Stats.min s <= Stats.median s /\ Stats.median s <= Stats.max s).
Proof.
  intro Hne. destruct values as [| x rest]; [congruence |].
  destruct (calculateEnhancedStats_shape sqrt x rest)
    as (c & crest & med & Hclean & Hin & ->).
  eexists. split; [reflexivity |]. cbv zeta. rewrite Hclean.
  cbn [Stats.e_stats Stats.e_outliers Stats.median Stats.min Stats.max].
  assert (forall v, In v (c :: crest) ->
                    min_of c crest <= v /\ v <= max_of c crest) as Hbounds.
  { intros v Hv. split; [now apply min_of_lower | now apply max_of_upper]. }
  split; [reflexivity |]. split; [exact Hin |].
  split; [exact Hbounds | now apply Hbounds].
Qed.

Lemma calculateEnhancedStats_summary_witness :
  exists e,
    Stats.calculateEnhancedStats (fun x => x) Cases.skewedSample = Returned e /\
    Stats.e_outliers e
    = Stats.outliers (Stats.detectOutliers Cases.skewedSample) /\
    In (Stats.median (Stats.e_stats e))
       (Stats.cleanValues (Stats.detectOutliers Cases.skewedSample)).
Proof.
  destruct (calculateEnhancedStats_summary (fun x => x) Cases.skewedSample)
    as (e & He & Ho & Hm & _).
  - discriminate.
  - exists e. auto.
Defined.

(** X12.  For a constant sample (k repeated n + 1 times)
    [calculateEnhancedStats] and [calculateStats] report median, minimum and
    maximum k, and [detectOutliers] keeps every value: the clean values are
    the whole sample and both outlier buckets are empty. *)
Theorem constant_sample_statistics (sqrt : Q -> Q) (k : Q) (n : nat) :
  (exists e,
     Stats.calculateEnhancedStats sqrt (repeat k (S n)) = Returned e /\
     Stats.median (Stats.e_stats e) = k /\
     Stats.min (Stats.e_stats e) = k /\
     Stats.max (Stats.e_stats e) = k /\
     Stats.e_outliers e = Stats.mkOutliers [] []) /\
  Stats.detectOutliers (repeat k (S n))
  = Stats.mkDetection (repeat k (S n)) (Stats.mkOutliers [] []) /\
  (exists s,
     Stats.calculateStats sqrt (repeat k (S n)) = Returned s /\
     Stats.median s = k /\ Stats.min s = k /\ Stats.max s = k).
Proof.
  assert (forall y, In y (repeat k (S n)) -> y = k) as Hall
    by (intros y Hy; now apply repeat_spec in Hy).
  split; [| split].
  - destruct (calculateEnhancedStats_shape sqrt k (repeat k n))
      as (c & crest & med & Hclean & Hin & E).
    change (k :: repeat k n) with (repeat k (S n)) in *.
    rewrite detectOutliers_repeat in Hclean, E. simpl Stats.cleanValues in Hclean.
    change (repeat k (S n)) with (k :: repeat k n) in Hclean.
    injection Hclean as <- <-.
    change (k :: repeat k n) with (repeat k (S n)) in *.
    rewrite E. eexists. split; [reflexivity |]. cbv zeta.
    cbn [Stats.e_stats Stats.e_outliers Stats.median Stats.min Stats.max
         Stats.outliers].
    split; [now apply Hall |].
    split; [apply min_of_repeat |].
    split; [apply max_of_repeat | reflexivity].
  - apply detectOutliers_repeat.
  - destruct (calculateStats_returns sqrt k (repeat k n))
      as (med & _ & Hin & E).
    change (k :: repeat k n) with (repeat k (S n)) in *.
    rewrite E. eexists. split; [reflexivity |]. simpl.
    split; [now apply Hall |].
    split; [apply min_of_repeat | apply max_of_repeat].
Qed.

(** ** More on the single-run executor and the comparator *)

Section ExecutorTrace.
Import Core.

Variable host : Host.
Variable T : Type.
Variable benchmarkFn : BenchmarkFunction T.

Lemma warmupLoop_trace (gc : bool) (n : nat) (w : World) :
  (forall w0, benchmarkFn w0 <> None) ->
  exists w', warmupLoop host benchmarkFn gc n w = (Returned tt, w') /\
             fn_calls w' = (fn_calls w + n)%nat /\
             clock_reads w' = clock_reads w /\
             snapshots w' = snapshots w.
Proof.
  intro Hfn. revert w. induction n as [| n IH]; intro w; simpl.
  - exists w. repeat split; lia.
  - unfold bind, call at 1.
    destruct (benchmarkFn w) as [v |] eqn:E; [| now apply Hfn in E].
    set (w1 := mkWorld _ _ _ _ _).
    assert (exists w2, when gc (forceGc host) w1 = (Returned tt, w2) /\
                       fn_calls w2 = fn_calls w1 /\
                       clock_reads w2 = clock_reads w1 /\
                       snapshots w2 = snapshots w1) as (w2 & -> & F & C & S').
    { destruct gc; simpl; [| exists w1; auto].
      unfold forceGc. destruct (global_gc host); eexists; repeat split. }
    destruct (IH w2) as (w3 & -> & F3 & C3 & S3).
    exists w3. split; [reflexivity |]. subst w1. simpl in *.
    repeat split; lia.
Qed.

Lemma timedLoop_trace (n : nat) (last : option T) (w : World) :
  (forall w0, benchmarkFn w0 <> None) ->
  exists v w', timedLoop benchmarkFn n last w = (Returned v, w') /\
               fn_calls w' = (fn_calls w + n)%nat /\
               clock_reads w' = clock_reads w /\
               snapshots w' = snapshots w /\
               gc_runs w' = gc_runs w /\
               (n = 0%nat -> v = last) /\ ((1 <= n)%nat -> v <> None).
Proof.
  intro Hfn. revert last w. induction n as [| n IH]; intros last w; simpl.
  - exists last, w. repeat split; auto; lia.
  - unfold bind, call at 1.
    destruct (benchmarkFn w) as [v |] eqn:E; [| now apply Hfn in E].
    match goal with |- context [timedLoop benchmarkFn n ?l ?w1] =>
      destruct (IH l w1) as (v' & w2 & -> & F & C & S' & G & H0 & H1) end.
    exists v', w2. simpl in *. repeat split; try lia.
    intros _. destruct n as [| n'].
    + rewrite H0 by reflexivity. discriminate.
    + apply H1. lia.
Qed.

Lemma timedLoop_throws (n : nat) (last : option T) (w : World) :
  (forall w0, benchmarkFn w0 = None) -> (1 <= n)%nat ->
  timedLoop benchmarkFn n last w
  = (Thrown FnThrew,
     mkWorld (clock_reads w) (S (fn_calls w)) (gc_runs w) (snapshots w)
             (warnings w)).
Proof.
  intros Hfn Hn. destruct n as [| n]; [lia |].
  simpl. unfold bind, call. now rewrite Hfn.
Qed.

Lemma warmupLoop_throws (gc : bool) (n : nat) (w : World) :
  (forall w0, benchmarkFn w0 = None) -> (1 <= n)%nat ->
  warmupLoop host benchmarkFn gc n w
  = (Thrown FnThrew,
     mkWorld (clock_reads w) (S (fn_calls w)) (gc_runs w) (snapshots w)
             (warnings w)).
Proof.
  intros Hfn Hn. destruct n as [| n]; [lia |].
  simpl. unfold bind, call. now rewrite Hfn.
Qed.

End ExecutorTrace.

(** The counts of a run of [runBenchmark] on a function that does not
    throw. *)
Lemma runBenchmark_trace (host : Core.Host) (T : Type)
  (benchmarkFn : Core.BenchmarkFunction T) (options : Core.BenchmarkOptions)
  (w : Core.World) :
  let merged := Core.mergeOptions Core.DEFAULT_OPTIONS options in
  let warm := loop_count (or_else (Core.warmupRuns merged) 0) in
  let timed := loop_count (or_else (Core.iterations merged) 1) in
  (forall w0, benchmarkFn w0 <> None) ->
  exists r w',
    Core.runBenchmark host benchmarkFn options w = (Returned r, w') /\
    Core.fn_calls w' = (Core.fn_calls w + warm + timed)%nat /\
    Core.clock_reads w' = (Core.clock_reads w + 2)%nat /\
    Core.snapshots w' = (Core.snapshots w + 2)%nat /\
    Core.r_iterations r = or_else (Core.iterations merged) 1 /\
    Core.operationsPerSecond r
    = Core.r_iterations r / Core.duration r * 1000.
Proof.
  intros merged warm timed Hfn. unfold Core.runBenchmark.
  fold merged. fold warm. fold timed.
  unfold Core.bind at 1.
  assert (exists w1,
             Core.when (Core.truthy (Core.gcBetweenRuns merged))
               (Core.forceGc host) w = (Returned tt, w1) /\
             Core.fn_calls w1 = Core.fn_calls w /\
             Core.clock_reads w1 = Core.clock_reads w /\
             Core.snapshots w1 = Core.snapshots w)
    as (w1 & -> & F1 & C1 & S1).
  { destruct (Core.truthy _); simpl; [| exists w; auto].
    unfold Core.forceGc. destruct (Core.global_gc host);
      eexists; repeat split. }
  unfold Core.bind at 1.
  destruct (warmupLoop_trace host T benchmarkFn
              (Core.truthy (Core.gcBetweenRuns merged)) warm w1 Hfn)
    as (w2 & -> & F2 & C2 & S2).
  unfold Core.bind at 1, Core.getMemorySnapshot at 1.
  unfold Core.bind at 1, Core.now at 1.
  unfold Core.bind at 1.
  match goal with |- context [Core.timedLoop benchmarkFn timed ?l ?w3] =>
    destruct (timedLoop_trace T benchmarkFn timed l w3 Hfn)
      as (v & w4 & -> & F4 & C4 & S4 & _ & _ & Hv) end.
  unfold Core.bind, Core.now, Core.getMemorySnapshot, Core.ret.
  eexists. eexists. split; [reflexivity |]. simpl in *.
  repeat split; try lia; try assumption.
Qed.

(** X13.  For a function that does not throw, [runBenchmark] invokes it
    exactly [warmupRuns] + [iterations] times (each rounded up, iterations
    1 when absent or zero), reads the clock twice and the memory twice; the
    result reports that iteration count, and its throughput is that count
    over the reported duration, times 1000. *)
Theorem runBenchmark_accounting (host : Core.Host) (T : Type)
  (benchmarkFn : Core.BenchmarkFunction T) (options : Core.BenchmarkOptions)
  (w : Core.World) :
  let merged := Core.mergeOptions Core.DEFAULT_OPTIONS options in
  let warm := loop_count (or_else (Core.warmupRuns merged) 0) in
  let timed := loop_count (or_else (Core.iterations merged) 1) in
  (forall w0, benchmarkFn w0 <> None) ->
  exists r w',
    Core.runBenchmark host benchmarkFn options w = (Returned r, w') /\
    Core.fn_calls w' = (Core.fn_calls w + warm + timed)%nat /\
    Core.clock_reads w' = (Core.clock_reads w + 2)%nat /\
    Core.snapshots w' = (Core.snapshots w + 2)%nat /\
    Core.r_iterations r = or_else (Core.iterations merged) 1 /\
    Core.operationsPerSecond r
    = Core.r_iterations r / Core.duration r * 1000.
Proof.
  intros merged warm timed Hfn.
  apply (runBenchmark_trace host T benchmarkFn options w Hfn).
Qed.

(** X14.  A function that throws is invoked once and its failure is what
    [runBenchmark] throws, whenever at least one warm-up or timed invocation
    is due; no result is produced. *)
Theorem runBenchmark_propagates_throw (host : Core.Host) (T : Type)
  (benchmarkFn : Core.BenchmarkFunction T) (options : Core.BenchmarkOptions)
  (w : Core.World) :
  let merged := Core.mergeOptions Core.DEFAULT_OPTIONS options in
  let warm := loop_count (or_else (Core.warmupRuns merged) 0) in
  let timed := loop_count (or_else (Core.iterations merged) 1) in
  (forall w0, benchmarkFn w0 = None) ->
  (1 <= warm + timed)%nat ->
  exists w',
    Core.runBenchmark host benchmarkFn options w = (Thrown FnThrew, w') /\
    Core.fn_calls w' = S (Core.fn_calls w).
Proof.
  intros merged warm timed Hfn Hdue. unfold Core.runBenchmark.
  fold merged. fold warm. fold timed.
  unfold Core.bind at 1.
  assert (exists w1,
             Core.when (Core.truthy (Core.gcBetweenRuns merged))
               (Core.forceGc host) w = (Returned tt, w1) /\
             Core.fn_calls w1 = Core.fn_calls w) as (w1 & -> & F1).
  { destruct (Core.truthy _); simpl; [| exists w; auto].
    unfold Core.forceGc. destruct (Core.global_gc host);
      eexists; repeat split. }
  unfold Core.bind at 1.
  destruct warm as [| warm'] eqn:Ew.
  - cbn [Core.warmupLoop Core.ret].
    unfold Core.bind at 1, Core.getMemorySnapshot at 1.
    unfold Core.bind at 1, Core.now at 1.
    unfold Core.bind at 1.
    rewrite (timedLoop_throws T benchmarkFn timed None _ Hfn) by lia.
    eexists. split; [reflexivity |]. simpl. now rewrite F1.
  - rewrite (warmupLoop_throws host T benchmarkFn _ (S warm') w1 Hfn) by lia.
    eexists. split; [reflexivity |]. simpl. now rewrite F1.
Qed.

Lemma runBenchmark_propagates_throw_witness :
  exists w',
    Core.runBenchmark Scenario.steadyHost (fun _ => @None unit)
      (Core.mkOptions (Some 3) None None None) Core.startOfTime
    = (Thrown FnThrew, w') /\
    Core.fn_calls w' = 1%nat.
Proof.
  apply (runBenchmark_propagates_throw Scenario.steadyHost unit
           (fun _ => None) (Core.mkOptions (Some 3) None None None)
           Core.startOfTime).
  - intro w0. reflexivity.
  - vm_compute. lia.
Defined.

Lemma runBenchmark_accounting_witness :
  exists r w',
    Core.runBenchmark Scenario.steadyHost Scenario.quietFn
      (Core.mkOptions (Some 10) None (Some 2) None) Core.startOfTime
    = (Returned r, w') /\
    Core.fn_calls w' = 12%nat /\ Core.clock_reads w' = 2%nat.
Proof.
  destruct (runBenchmark_accounting Scenario.steadyHost unit Scenario.quietFn
              (Core.mkOptions (Some 10) None (Some 2) None) Core.startOfTime)
    as (r & w' & Hrun & Hf & Hc & _).
  - discriminate.
  - exists r, w'. auto.
Defined.

(** X15.  [compareBenchmarks] is two runs of [runBenchmark] with the same
    options, the first function before the second: for functions that do
    not throw it returns their two results, which report the same iteration
    count, after four readings of the clock and twice [warmupRuns] +
    [iterations] invocations, and its time ratio is the quotient of the two
    reported durations. *)
Theorem compareBenchmarks_runs_in_sequence (host : Core.Host) (T U : Type)
  (benchmarkA : Core.Named T) (benchmarkB : Core.Named U)
  (options : Core.BenchmarkOptions) (w : Core.World) :
  let merged := Core.mergeOptions Core.DEFAULT_OPTIONS options in
  let warm := loop_count (or_else (Core.warmupRuns merged) 0) in
  let timed := loop_count (or_else (Core.iterations merged) 1) in
  (forall w0, Core.fn benchmarkA w0 <> None) ->
  (forall w0, Core.fn benchmarkB w0 <> None) ->
  exists resultA resultB c w1 w',
    Core.runBenchmark host (Core.fn benchmarkA) options w
    = (Returned resultA, w1) /\
    Core.runBenchmark host (Core.fn benchmarkB) options w1
    = (Returned resultB, w') /\
    Core.compareBenchmarks host benchmarkA benchmarkB options w
    = (Returned (resultA, resultB, c), w') /\
    Core.r_iterations resultA = Core.r_iterations resultB /\
    Core.clock_reads w' = (Core.clock_reads w + 4)%nat /\
    Core.fn_calls w' = (Core.fn_calls w + 2 * (warm + timed))%nat /\
    Core.timeRatio c = Core.duration resultA / Core.duration resultB.
Proof.
  intros merged warm timed Ha Hb.
  destruct (runBenchmark_trace host T (Core.fn benchmarkA) options w Ha)
    as (rA & w1 & EA & FA & CA & _ & IA & _).
  destruct (runBenchmark_trace host U (Core.fn benchmarkB) options w1 Hb)
    as (rB & w' & EB & FB & CB & _ & IB & _).
  exists rA, rB,
    (Core.comparisonOf (Core.name benchmarkA) (Core.name benchmarkB) rA rB),
    w1, w'.
  split; [exact EA |]. split; [exact EB |].
  split.
  { unfold Core.compareBenchmarks, Core.bind. rewrite EA, EB. reflexivity. }
  split; [congruence |].
  fold merged warm timed in FA, FB.
  repeat split; lia.
Qed.

Lemma compareBenchmarks_runs_in_sequence_witness :
  exists resultA resultB c w',
    Core.compareBenchmarks Scenario.steadyHost
      (Core.mkNamed "A" Scenario.quietFn) (Core.mkNamed "B" Scenario.quietFn)
      (Core.mkOptions (Some 10) None None None) Core.startOfTime
    = (Returned (resultA, resultB, c), w') /\
    Core.r_iterations resultA = Core.r_iterations resultB /\
    Core.clock_reads w' = 4%nat.
Proof.
  assert (forall w0, Scenario.quietFn w0 <> None) as Hq
    by (intro w0; discriminate).
  destruct (compareBenchmarks_runs_in_sequence Scenario.steadyHost unit unit
              (Core.mkNamed "A" Scenario.quietFn)
              (Core.mkNamed "B" Scenario.quietFn)
              (Core.mkOptions (Some 10) None None None) Core.startOfTime
              Hq Hq)
    as (rA & rB & c & w1 & w' & _ & _ & E & I & C & _).
  exists rA, rB, c, w'. split; [exact E |]. split; [exact I | exact C].
Defined.

(** ** More on the adaptive controller *)

Section ControllerReturns.
Import Core Adaptive.

Variable host : Host.
Variable T : Type.
Variable benchmarkFn : BenchmarkFunction T.
Hypothesis fn_quiet : forall w, benchmarkFn w <> None.

Lemma plainLoop_returns (n : nat) (w : World) :
  exists w', plainLoop T benchmarkFn n w = (Returned tt, w').
Proof.
  revert w. induction n as [| n IH]; intro w; simpl.
  - now exists w.
  - unfold bind, call at 1.
    destruct (benchmarkFn w) as [v |] eqn:E; [| now apply fn_quiet in E].
    apply IH.
Qed.

Lemma runWarmup_returns (iterations : Q) (w : World) :
  exists w', runWarmup host T benchmarkFn iterations w = (Returned tt, w').
Proof.
  unfold runWarmup. destruct (Qle_bool iterations 0); [now exists w |].
  unfold bind at 1.
  destruct (forceGc_returns host w) as (w1 & -> & _).
  unfold bind at 1.
  destruct (plainLoop_returns (loop_count iterations) w1) as (w2 & ->).
  destruct (forceGc_returns host w2) as (w3 & -> & _).
  now exists w3.
Qed.

Lemma measureDuration_returns (iterations : Q) (w : World) :
  exists d w',
    measureDuration host T benchmarkFn iterations w = (Returned d, w').
Proof.
  unfold measureDuration.
  unfold bind at 1.
  destruct (forceGc_returns host w) as (w1 & -> & _).
  unfold bind at 1, now at 1.
  unfold bind at 1.
  match goal with |- context [plainLoop T benchmarkFn ?n ?w2] =>
    destruct (plainLoop_returns n w2) as (w3 & ->) end.
  unfold bind, now, ret. eexists. eexists. reflexivity.
Qed.

Lemma findIterations_returns (options : AdaptiveBenchmarkOptions) (w : World) :
  exists v w',
    findIterationsForTargetDuration host T benchmarkFn options w
    = (Returned v, w').
Proof.
  unfold findIterationsForTargetDuration.
  unfold bind at 1.
  match goal with |- context [runWarmup host T benchmarkFn ?i w] =>
    destruct (runWarmup_returns i w) as (w1 & ->) end.
  unfold bind at 1.
  match goal with |- context [measureDuration host T benchmarkFn ?i w1] =>
    destruct (measureDuration_returns i w1) as (d1 & w2 & ->) end.
  unfold bind at 1.
  match goal with |- context [measureDuration host T benchmarkFn ?i w2] =>
    destruct (measureDuration_returns i w2) as (d2 & w3 & ->) end.
  destruct (gt _ _); unfold ret; eexists; eexists; reflexivity.
Qed.

Lemma warmupRounds_returns (n : nat) (iterations : Q) (w : World) :
  exists w',
    warmupRounds host T benchmarkFn n iterations w = (Returned tt, w').
Proof.
  revert w. induction n as [| n IH]; intro w; simpl.
  - now exists w.
  - unfold bind.
    destruct (runWarmup_returns iterations w) as (w1 & ->). apply IH.
Qed.

Variable opts : AdaptiveBenchmarkOptions.
Variable initial : Q.
Variable startTime : Q.

Lemma loopCondition_returns (st : LoopState T) (w : World) :
  exists b w',
    loopCondition host T opts startTime st w = (Returned b, w').
Proof.
  unfold loopCondition.
  destruct (lt _ _); [now exists true, w |].
  destruct (_ && _); [| now exists false, w].
  unfold bind, now, ret. eexists. eexists. reflexivity.
Qed.

Lemma evaluate_returns (st : LoopState T) (w : World) :
  samples st <> [] ->
  exists st2, evaluate host T opts initial st w = (Returned st2, w).
Proof.
  intro Hne. unfold evaluate.
  destruct (Qle_bool 3 _); [| now exists st].
  destruct (samples st) as [| s ss] eqn:Es; [congruence |].
  cbn [map].
  destruct (calculateStats_returns (Math_sqrt host) (duration s)
              (map duration ss)) as (med & _ & _ & ->).
  destruct (_ && _); unfold ret; eexists; reflexivity.
Qed.

Lemma mainLoop_returns (fuel : nat) :
  forall (st : LoopState T) (w : World),
    (turnsLeft opts st < fuel)%nat ->
    exists st' w',
      mainLoop host T benchmarkFn opts initial startTime fuel st w
      = (Returned st', w').
Proof.
  induction fuel as [| fuel IH]; intros st w Hfuel; [lia |].
  cbn [mainLoop]. unfold bind at 1.
  destruct (loopCondition_returns st w) as (b & w1 & Hc). rewrite Hc.
  destruct b; [| now exists st, w1].
  apply loopCondition_true in Hc.
  unfold bind at 1.
  match goal with |- context [runBenchmark host benchmarkFn ?o w1] =>
    destruct (runBenchmark_returns host benchmarkFn o w1 fn_quiet)
      as (r & w2 & -> & _) end.
  unfold bind at 1.
  match goal with |- context [evaluate host T opts initial ?s w2] =>
    destruct (evaluate_returns s w2) as (st2 & Hev) end.
  { simpl. destruct (samples st); discriminate. }
  rewrite Hev. apply evaluate_decreases in Hev; [| exact Hc].
  unfold bind at 1, now at 1.
  destruct (gt _ _).
  - unfold bind, warn, ret. eexists. eexists. reflexivity.
  - apply IH. lia.
Qed.

Lemma rescale_kept (st : LoopState T) (rsd : Q) :
  Qle_bool (currentStep st) (or_else (adaptiveSteps opts) 4) = true ->
  (length (samples st) <= sampleCap opts)%nat ->
  adjustmentSteps st + 1 == currentStep st -> 0 <= adjustmentSteps st ->
  Kept opts initial (rescale T opts initial st rsd).
Proof.
  intros Hstep Hlen Hcs H0. apply Qle_bool_iff in Hstep.
  unfold Kept, rescale, upperBound; cbn.
  split; [destruct (gt _ _); simpl; lia |].
  split; [rewrite Hcs; reflexivity |].
  split; [lra |].
  right. split; [lra |]. split; [lra | apply min_le_l].
Qed.

Lemma evaluate_kept (st st2 : LoopState T) (w w2 : World) :
  Kept opts initial st ->
  evaluate host T opts initial st w = (Returned st2, w2) ->
  Kept opts initial st2.
Proof.
  intros HK. unfold evaluate.
  destruct (Qle_bool 3 _).
  2:{ intro H. now apply ret_returned in H as [<- _]. }
  destruct (Stats.calculateStats _ _) as [stats | e |]; try discriminate.
  destruct HK as (Hlen & Hcs & H0 & Hadj).
  destruct (Qle_bool (currentStep st) _) eqn:Estep; simpl.
  - destruct (gt _ _); intro H; apply ret_returned in H as [<- _].
    + now apply rescale_kept.
    + unfold Kept; simpl. auto.
  - intro H; apply ret_returned in H as [<- _]. unfold Kept; simpl. auto.
Qed.

Lemma mainLoop_kept (fuel : nat) :
  forall (st st' : LoopState T) (w w' : World),
    Kept opts initial st ->
    mainLoop host T benchmarkFn opts initial startTime fuel st w
    = (Returned st', w') ->
    Kept opts initial st'.
Proof.
  induction fuel as [| fuel IH]; intros st st' w w' HK H; [discriminate |].
  cbn [mainLoop] in H. bind_inv H. destruct a.
  - apply loopCondition_true in Hm.
    bind_inv H. bind_inv H.
    apply evaluate_kept in Hm1.
    2:{ destruct HK as (Hlen & Hcs & H0 & Hadj).
        unfold Kept; simpl. rewrite length_app; simpl.
        repeat split; auto. lia. }
    bind_inv H. destruct (gt _ _).
    + bind_inv H. now apply ret_returned in H as [<- _].
    + eapply IH; eauto.
  - now apply ret_returned in H as [<- _].
Qed.

End ControllerReturns.

(** X16.  The main loop of [runAdaptiveBenchmark] always ends, whatever the
    clock, the function and the options do: the number of its turns is
    bounded by a number that depends on [minSamples], [maxSamples] and
    [adaptiveSteps] only (505 turns for the default options), so the run
    returns or throws. *)
Theorem runAdaptiveBenchmark_bounded_turns (host : Core.Host) (T : Type)
  (benchmarkFn : Core.BenchmarkFunction T)
  (options : Adaptive.AdaptiveBenchmarkOptions) (fuel : nat)
  (w : Core.World) :
  (Adaptive.enoughFuel options <= fuel)%nat ->
  Adaptive.enoughFuel Adaptive.noAdaptiveOptions = 505%nat /\
  fst (Adaptive.runAdaptiveBenchmark host T benchmarkFn fuel options w)
  <> OutOfFuel.
Proof.
  intro H. split; [reflexivity |].
  now apply runAdaptiveBenchmark_finishes.
Qed.

Lemma runAdaptiveBenchmark_bounded_turns_witness :
  fst (Adaptive.runAdaptiveBenchmark Scenario.slowHost unit Scenario.quietFn
         505 Adaptive.noAdaptiveOptions Core.startOfTime)
  <> OutOfFuel.
Proof.
  apply (proj2 (runAdaptiveBenchmark_bounded_turns Scenario.slowHost unit
                  Scenario.quietFn Adaptive.noAdaptiveOptions 505
                  Core.startOfTime (Nat.le_refl _))).
Defined.

Lemma runAdaptiveBenchmark_outcome (host : Core.Host) (T : Type)
  (benchmarkFn : Core.BenchmarkFunction T)
  (options : Adaptive.AdaptiveBenchmarkOptions) (fuel : nat)
  (w : Core.World) :
  (forall w0, benchmarkFn w0 <> None) ->
  (Adaptive.enoughFuel options <= fuel)%nat ->
  exists o w',
    Adaptive.runAdaptiveBenchmark host T benchmarkFn fuel options w = (o, w')
    /\ ((exists r, o = Returned r) \/
        o = Thrown (Err "Cannot calculate stats for empty array")).
Proof.
  intros Hfn Hfuel. unfold Adaptive.runAdaptiveBenchmark.
  set (opts := Adaptive.mergeAdaptive _ options).
  unfold Core.bind at 1.
  destruct (findIterations_returns host T benchmarkFn Hfn opts w)
    as (its & w1 & ->).
  unfold Core.bind at 1, Core.now at 1.
  unfold Core.bind at 1.
  match goal with |- context [Adaptive.warmupRounds host T benchmarkFn ?n its ?w2] =>
    destruct (warmupRounds_returns host T benchmarkFn Hfn n its w2)
      as (w3 & ->) end.
  unfold Core.bind at 1.
  match goal with |- context [Adaptive.mainLoop host T benchmarkFn opts its ?t fuel ?s w3] =>
    destruct (mainLoop_returns host T benchmarkFn Hfn opts its t fuel s w3)
      as (st & w4 & ->) end.
  { subst opts. unfold Adaptive.enoughFuel in Hfuel.
    unfold Adaptive.turnsLeft, Adaptive.rescalesLeft in *. simpl in *. lia. }
  destruct (Adaptive.samples st) as [| s ss] eqn:Es.
  - eexists. eexists. split; [reflexivity | now right].
  - cbn [map].
    destruct (calculateStats_returns (Core.Math_sqrt host) (Core.duration s)
                (map Core.duration ss)) as (med & _ & _ & ->).
    assert (exists lastSample,
               last (Some s :: map (fun s0 => Some s0) ss) None
               = Some lastSample)
      as (lastSample & ->).
    { clear. revert s. induction ss as [| s' ss IH]; intro s.
      - now exists s.
      - destruct (IH s') as (l & Hl). exists l.
        cbn [map]. rewrite <- Hl. reflexivity. }
    unfold Core.bind, Core.now, Core.ret.
    eexists. eexists. split; [reflexivity | left; eexists; reflexivity].
Qed.

(** X17.  For a function that does not throw, a run of
    [runAdaptiveBenchmark] either returns a result or throws the "empty
    array" error of the final [calculateStats] (the samples were cleared in
    the last turn); it fails in no other way. *)
Theorem runAdaptiveBenchmark_only_failure (host : Core.Host) (T : Type)
  (benchmarkFn : Core.BenchmarkFunction T)
  (options : Adaptive.AdaptiveBenchmarkOptions) (fuel : nat)
  (w : Core.World) :
  (forall w0, benchmarkFn w0 <> None) ->
  (Adaptive.enoughFuel options <= fuel)%nat ->
  (exists r w',
     Adaptive.runAdaptiveBenchmark host T benchmarkFn fuel options w
     = (Returned r, w')) \/
  (exists w',
     Adaptive.runAdaptiveBenchmark host T benchmarkFn fuel options w
     = (Thrown (Err "Cannot calculate stats for empty array"), w')).
Proof.
  intros Hfn Hfuel.
  destruct (runAdaptiveBenchmark_outcome host T benchmarkFn options fuel w
              Hfn Hfuel) as (o & w' & -> & [[r ->] | ->]).
  - left. now exists r, w'.
  - right. now exists w'.
Qed.

Lemma runAdaptiveBenchmark_only_failure_witness :
  (exists r w',
     Adaptive.runAdaptiveBenchmark Scenario.slowHost unit Scenario.quietFn
       505 Adaptive.noAdaptiveOptions Core.startOfTime = (Returned r, w')) \/
  (exists w',
     Adaptive.runAdaptiveBenchmark Scenario.slowHost unit Scenario.quietFn
       505 Adaptive.noAdaptiveOptions Core.startOfTime
     = (Thrown (Err "Cannot calculate stats for empty array"), w')).
Proof.
  apply runAdaptiveBenchmark_only_failure.
  - discriminate.
  - apply Nat.le_refl.
Defined.

(** X18.  The iteration count that [findIterationsForTargetDuration]
    returns is never below [minIterations]; it is at most [maxIterations]
    when the two bounds are in order, and it is exactly [minIterations],
    whatever was measured, when [maxIterations] is below [minIterations].
    When both bounds are whole numbers, so is the count. *)
Theorem findIterationsForTargetDuration_bounds (host : Core.Host) (T : Type)
  (benchmarkFn : Core.BenchmarkFunction T)
  (options : Adaptive.AdaptiveBenchmarkOptions) (v : Q)
  (w w' : Core.World) :
  let opts :=
    Adaptive.mergeAdaptive Adaptive.DEFAULT_ADAPTIVE_OPTIONS options in
  Adaptive.findIterationsForTargetDuration host T benchmarkFn options w
  = (Returned v, w') ->
  Adaptive.lowerBound opts <= v /\
  (Adaptive.lowerBound opts <= Adaptive.upperBound opts ->
   v <= Adaptive.upperBound opts) /\
  (Adaptive.upperBound opts < Adaptive.lowerBound opts ->
   v = Adaptive.lowerBound opts) /\
  (whole (Adaptive.lowerBound opts) -> whole (Adaptive.upperBound opts) ->
   whole v).
Proof.
  intros opts H. unfold Adaptive.findIterationsForTargetDuration in H.
  fold opts in H.
  bind_inv H. bind_inv H. bind_inv H.
  assert (exists x, v = Adaptive.clamp opts (floor x)) as (x & ->).
  { destruct (gt _ _); apply ret_returned in H as [<- _];
      eexists; reflexivity. }
  clear. unfold Adaptive.clamp, Adaptive.lowerBound, Adaptive.upperBound.
  set (lo := or_else (Adaptive.minIterations opts) 1000).
  set (hi := or_else (Adaptive.maxIterations opts) 10000000).
  pose proof (min_le_l hi (floor x)) as Hmin.
  repeat split.
  - apply max_ge_l.
  - intro Hle. unfold Js.max. now destruct (Qle_bool lo (Js.min hi (floor x))).
  - intro Hlt. unfold Js.max.
    destruct (Qle_bool lo (Js.min hi (floor x))) eqn:E; [| reflexivity].
    apply Qle_bool_iff in E. lra.
  - intros Hlo Hhi. apply whole_max; [exact Hlo |].
    apply whole_min; [exact Hhi | apply whole_floor].
Qed.

Lemma findIterationsForTargetDuration_bounds_witness :
  exists v w',
    Adaptive.findIterationsForTargetDuration Scenario.slowHost unit
      Scenario.quietFn Scenario.invertedBounds Core.startOfTime
    = (Returned v, w') /\
    v = 1000.
Proof.
  destruct (Adaptive.findIterationsForTargetDuration Scenario.slowHost unit
              Scenario.quietFn Scenario.invertedBounds Core.startOfTime)
    as [[v | e |] w'] eqn:E; try (vm_compute in E; discriminate).
  exists v, w'. split; [reflexivity |].
  apply (findIterationsForTargetDuration_bounds Scenario.slowHost unit
           Scenario.quietFn Scenario.invertedBounds v Core.startOfTime w' E).
  reflexivity.
Defined.

(** X19.  What a returned result of [runAdaptiveBenchmark] always satisfies:
    it rests on at least one sample and on no more than the larger of
    [minSamples] and [maxSamples] (rounded up); the reported iteration
    count is [finalIterations]; [initialIterations] is at least
    [minIterations]; the operations per second are the iterations over the
    mean duration in seconds; and either no rescale step was taken and the
    final iteration count is the initial one, or between 1 and
    [adaptiveSteps] steps were taken and the final count is at most
    [maxIterations]. *)
Theorem runAdaptiveBenchmark_result_invariants (host : Core.Host) (T : Type)
  (benchmarkFn : Core.BenchmarkFunction T) (fuel : nat)
  (options : Adaptive.AdaptiveBenchmarkOptions) (w w' : Core.World)
  (r : Adaptive.AdaptiveBenchmarkResult T) :
  let opts :=
    Adaptive.mergeAdaptive Adaptive.DEFAULT_ADAPTIVE_OPTIONS options in
  let c := Adaptive.calibration r in
  Adaptive.runAdaptiveBenchmark host T benchmarkFn fuel options w
  = (Returned r, w') ->
  1 <= Adaptive.c_samples c /\
  Adaptive.c_samples c <= inject_Z (Z.of_nat (Adaptive.sampleCap opts)) /\
  Core.r_iterations (Adaptive.a_result r) = Adaptive.finalIterations c /\
  Adaptive.lowerBound opts <= Adaptive.initialIterations c /\
  Core.operationsPerSecond (Adaptive.a_result r)
  = Adaptive.finalIterations c / (Core.duration (Adaptive.a_result r) / 1000)
  /\
  ((Adaptive.c_adjustmentSteps c == 0 /\
    Adaptive.finalIterations c = Adaptive.initialIterations c) \/
   (1 <= Adaptive.c_adjustmentSteps c /\
    Adaptive.c_adjustmentSteps c <= or_else (Adaptive.adaptiveSteps opts) 4 /\
    Adaptive.finalIterations c <= Adaptive.upperBound opts)).
Proof.
  intros opts c Hrun. subst c.
  unfold Adaptive.runAdaptiveBenchmark in Hrun. fold opts in Hrun.
  bind_inv Hrun. bind_inv Hrun. bind_inv Hrun. bind_inv Hrun.
  assert (Adaptive.lowerBound opts <= a) as Hlo.
  { unfold Adaptive.findIterationsForTargetDuration in Hm.
    pose proof (mergeAdaptive_idem options) as Hid. fold opts in Hid.
    rewrite Hid in Hm.
    bind_inv Hm. bind_inv Hm. bind_inv Hm.
    destruct (gt _ _); apply ret_returned in Hm as [<- _];
      apply max_ge_l. }
  assert (Adaptive.Kept opts a a2) as (Hlen & _ & _ & Hadj).
  { eapply (mainLoop_kept host T benchmarkFn opts a a0 fuel); [| exact Hm2].
    unfold Adaptive.Kept; simpl.
    repeat split; try lia; try lra. left. split; reflexivity. }
  destruct (Adaptive.samples a2) as [| s ss] eqn:Es; [discriminate |].
  destruct (Stats.calculateStats _ _) as [stats | e |]; try discriminate.
  destruct (last _ _) as [lastSample |]; try discriminate.
  bind_inv Hrun. apply ret_returned in Hrun as [<- _].
  cbn [Adaptive.calibration Adaptive.a_result Adaptive.c_samples
       Adaptive.finalIterations Adaptive.initialIterations
       Adaptive.c_adjustmentSteps Core.r_iterations Core.operationsPerSecond
       Core.duration].
  split.
  { rewrite len_cons. pose proof (len_nonneg ss). lra. }
  split.
  { unfold len. rewrite <- Zle_Qle. apply Nat2Z.inj_le. exact Hlen. }
  repeat split; try assumption.
Qed.

Lemma runAdaptiveBenchmark_result_invariants_witness :
  exists r w',
    Adaptive.runAdaptiveBenchmark Scenario.slowHost unit Scenario.quietFn
      100 Scenario.shortBudget Core.startOfTime = (Returned r, w') /\
    1 <= Adaptive.c_samples (Adaptive.calibration r) /\
    Core.r_iterations (Adaptive.a_result r)
    = Adaptive.finalIterations (Adaptive.calibration r).
Proof.
  destruct (Adaptive.runAdaptiveBenchmark Scenario.slowHost unit
              Scenario.quietFn 100 Scenario.shortBudget Core.startOfTime)
    as [[r | e |] w'] eqn:E; try (vm_compute in E; discriminate).
  exists r, w'. split; [reflexivity |].
  destruct (runAdaptiveBenchmark_result_invariants Scenario.slowHost unit
              Scenario.quietFn 100 Scenario.shortBudget Core.startOfTime w' r E)
    as (H1 & _ & H3 & _).
  split; [exact H1 | exact H3].
Defined.

(** ** More on the orchestrator *)

Section CountFacts.
Import Core Isolation Completion.

Variable opts : IsolatedBenchmarkOptions.

Lemma never_reached (calls : list (option Report * option Error)) :
  (forall k, reached (S k) (processCount opts) = false) ->
  forall st : Orchestration,
    errorOccurred st = false -> promise st = Pending ->
    (forall r, promise (fold_left (deliver opts) calls st) <> Resolved r) /\
    (Forall isReport calls ->
     promise (fold_left (deliver opts) calls st) = Pending /\
     cleanups (fold_left (deliver opts) calls st) = cleanups st /\
     completedCount (fold_left (deliver opts) calls st)
     = (completedCount st + length calls)%nat).
Proof.
  intro Hnever.
  induction calls as [| cb calls IH]; intros st He Hp.
  - simpl. split; [congruence |]. intros _. repeat split; auto.
  - cbn [fold_left]. destruct cb as [res [e |]].
    + assert (deliver opts st (res, Some e)
              = mkOrchestration (results st) (completedCount st) true
                  (Rejected e) (S (cleanups st)) (uncaught st)) as ->.
      { unfold deliver, handleCompletion. simpl. now rewrite He, Hp. }
      rewrite deliver_after_error by reflexivity. simpl.
      split; [congruence |].
      intro HF. inversion HF as [| ? ? Hcb _]. discriminate Hcb.
    + assert (exists rs,
                 deliver opts st (res, None)
                 = mkOrchestration rs (S (completedCount st)) false Pending
                     (cleanups st) (uncaught st)) as (rs & Hd).
      { unfold deliver, handleCompletion. simpl.
        rewrite He, Hnever, Hp. eexists. reflexivity. }
      rewrite Hd.
      destruct (IH (mkOrchestration rs (S (completedCount st)) false Pending
                      (cleanups st) (uncaught st)) eq_refl eq_refl)
        as (Hres & Hrep).
      split; [exact Hres |].
      intro HF. inversion HF as [| ? ? _ HF']. subst.
      destruct (Hrep HF') as (H1 & H2 & H3).
      repeat split; [exact H1 | exact H2 |].
      rewrite H3. simpl. lia.
Qed.

Lemma unreachable_never (n : Q) :
  processCount opts = Some n -> ~ reachable n ->
  forall k, reached (S k) (processCount opts) = false.
Proof.
  intros -> Hn k. unfold reached, eqb.
  apply not_true_iff_false. rewrite Qeq_bool_iff. intro H.
  apply Hn. exists k. now symmetry.
Qed.

Variable m : nat.
Hypothesis wanted :
  exists n, processCount opts = Some n /\ n == inject_Z (Z.of_nat (S m)).

Lemma reached_iff (count : nat) :
  reached count (processCount opts) = true <-> count = S m.
Proof.
  destruct wanted as (n & -> & Hn). unfold reached, eqb.
  rewrite Qeq_bool_iff, Hn. split.
  - intro H. unfold Qeq, inject_Z in H. cbn [Qnum Qden] in H. lia.
  - intros ->. reflexivity.
Qed.

End CountFacts.

Section CleanupFacts.
Import Core Isolation Completion.

Variable opts : IsolatedBenchmarkOptions.
Variable m : nat.
Hypothesis wanted :
  exists n, processCount opts = Some n /\ n == inject_Z (Z.of_nat (S m)).

Lemma deliver_coherent (st : Orchestration)
  (cb : option Report * option Error) :
  Coherent m st -> Coherent m (deliver opts st cb).
Proof.
  intros HC. unfold deliver, handleCompletion.
  destruct (errorOccurred st) eqn:He; [exact HC |].
  destruct HC as (Hc & Hp). rewrite He in Hp.
  destruct cb as [res [e |]]; cbn [fst snd].
  - unfold Coherent, expectedCleanups in *.
    cbn [cleanups errorOccurred completedCount promise].
    rewrite He in Hc. split; [lia |].
    destruct (promise st); simpl; [reflexivity | exact Hp | reflexivity].
  - destruct (reached (S (completedCount st)) (processCount opts)) eqn:Er.
    + apply (reached_iff opts m wanted) in Er. injection Er as Er.
      assert ((m <? completedCount st)%nat = false) as Hlt
        by (apply Nat.ltb_ge; lia).
      assert ((m <? S (completedCount st))%nat = true) as Hlt'
        by (apply Nat.ltb_lt; lia).
      unfold Coherent, expectedCleanups in *. rewrite He, Hlt in Hc.
      destruct (combineResults _);
        cbn [cleanups errorOccurred completedCount promise];
        rewrite Hlt'; (split; [lia |]);
        destruct (promise st); simpl; try reflexivity; try lia;
        congruence.
    + assert (S (completedCount st) <> S m) as Hne.
      { intro H. apply (reached_iff opts m wanted) in H. congruence. }
      unfold Coherent, expectedCleanups in *.
      cbn [cleanups errorOccurred completedCount promise].
      rewrite He in Hc.
      assert ((m <? S (completedCount st))%nat = (m <? completedCount st)%nat)
        as ->.
      { destruct (m <? completedCount st)%nat eqn:E.
        - apply Nat.ltb_lt in E. apply Nat.ltb_lt. lia.
        - apply Nat.ltb_ge in E. apply Nat.ltb_ge. lia. }
      split; [exact Hc |].
      destruct (promise st); try assumption. lia.
Qed.

Lemma run_coherent (calls : list (option Report * option Error)) :
  forall st, Coherent m st -> Coherent m (fold_left (deliver opts) calls st).
Proof.
  induction calls as [| cb calls IH]; intros st H; [exact H |].
  cbn [fold_left]. apply IH. now apply deliver_coherent.
Qed.

End CleanupFacts.

(** X21.  [completedCount] is compared with [opts.processCount] only after
    it has been incremented, so a [processCount] that is not one of 1, 2,
    3, ... (0, a negative number, a fraction) is never matched: whatever the
    contexts raise, the promise of [runIsolatedBenchmark] is never resolved,
    and while no error arrives it stays pending and the temporary file is
    not cleaned up. *)
Theorem isolated_run_unreachable_count
  (benchmarkName benchmarkCode : string)
  (options : Isolation.IsolatedBenchmarkOptions)
  (events : list Isolation.ContextEvent) (st : Isolation.Orchestration)
  (n : Q) :
  Isolation.processCount
    (Isolation.mergeIsolated Isolation.DEFAULT_ISOLATION_OPTIONS options)
  = Some n ->
  ~ Completion.reachable n ->
  Isolation.runIsolatedBenchmark benchmarkName benchmarkCode options events
  = Returned st ->
  (forall r, Isolation.promise st <> Isolation.Resolved r) /\
  (Forall Isolation.isReport (Isolation.callbacks events) ->
   Isolation.promise st = Isolation.Pending /\
   Isolation.cleanups st = 0%nat /\
   Isolation.completedCount st = length (Isolation.callbacks events)).
Proof.
  intros Hn Hun Hrun. unfold Isolation.runIsolatedBenchmark in Hrun.
  destruct (Isolation.validName benchmarkName); [| discriminate].
  injection Hrun as <-. rewrite listen_deliver.
  apply (never_reached _ (Isolation.callbacks events)
           (unreachable_never _ n Hn Hun) Isolation.launched eq_refl eq_refl).
Qed.

Lemma isolated_run_unreachable_count_witness :
  exists st,
    Isolation.runIsolatedBenchmark "bench" "" (Scenario.withProcessCount 0)
      Scenario.completeTrace = Returned st /\
    Isolation.promise st = Isolation.Pending /\
    Isolation.cleanups st = 0%nat /\
    Isolation.completedCount st = 2%nat.
Proof.
  eexists. split; [reflexivity |].
  refine (proj2 (isolated_run_unreachable_count "bench" ""
                   (Scenario.withProcessCount 0) Scenario.completeTrace _ 0
                   eq_refl _ eq_refl) _).
  - intros (k & Hk). unfold Qeq, inject_Z in Hk. cbn [Qnum Qden] in Hk. lia.
  - repeat constructor.
Defined.

(** X22.  With [processCount] = m + 1, after any events the number of calls
    of [cleanupTempFile] made by [handleCompletion] is one if an error was
    delivered plus one if the count was reached: at most two, and at least
    one as soon as the promise is settled.  A rejected promise goes with the
    error flag, a resolved one with a reached count. *)
Theorem isolated_run_cleanups
  (benchmarkName benchmarkCode : string)
  (options : Isolation.IsolatedBenchmarkOptions)
  (events : list Isolation.ContextEvent) (st : Isolation.Orchestration)
  (n : Q) (m : nat) :
  Isolation.processCount
    (Isolation.mergeIsolated Isolation.DEFAULT_ISOLATION_OPTIONS options)
  = Some n ->
  n == inject_Z (Z.of_nat (S m)) ->
  Isolation.runIsolatedBenchmark benchmarkName benchmarkCode options events
  = Returned st ->
  Isolation.cleanups st = Completion.expectedCleanups m st /\
  (Isolation.cleanups st <= 2)%nat /\
  (Isolation.promise st <> Isolation.Pending ->
   (1 <= Isolation.cleanups st)%nat) /\
  (forall e, Isolation.promise st = Isolation.Rejected e ->
             Isolation.errorOccurred st = true) /\
  (forall r, Isolation.promise st = Isolation.Resolved r ->
             (m < Isolation.completedCount st)%nat).
Proof.
  intros Hn Hm Hrun. unfold Isolation.runIsolatedBenchmark in Hrun.
  destruct (Isolation.validName benchmarkName); [| discriminate].
  injection Hrun as <-. rewrite listen_deliver.
  destruct (run_coherent _ m (ex_intro _ n (conj Hn Hm))
              (Isolation.callbacks events) Isolation.launched)
    as (Hc & Hp).
  { split; reflexivity. }
  set (final := fold_left _ _ _) in *.
  split; [exact Hc |].
  unfold Completion.expectedCleanups in Hc.
  split.
  { rewrite Hc. destruct (Isolation.errorOccurred final);
      destruct (m <? Isolation.completedCount final)%nat; simpl; lia. }
  split.
  { intro Hset. rewrite Hc.
    destruct (Isolation.promise final) as [| r | e]; [congruence | |].
    - apply Nat.ltb_lt in Hp. rewrite Hp.
      destruct (Isolation.errorOccurred final); simpl; lia.
    - rewrite Hp. simpl. lia. }
  split.
  - intros e He. now rewrite He in Hp.
  - intros r Hr. now rewrite Hr in Hp.
Qed.

Lemma isolated_run_cleanups_witness :
  exists st,
    Isolation.runIsolatedBenchmark "bench" "" (Scenario.withProcessCount 1)
      Cases.reportThenCrash = Returned st /\
    Isolation.cleanups st = Completion.expectedCleanups 0 st /\
    (Isolation.cleanups st <= 2)%nat.
Proof.
  eexists. split; [reflexivity |].
  destruct (isolated_run_cleanups "bench" "" (Scenario.withProcessCount 1)
              Cases.reportThenCrash _ 1 0%nat eq_refl (Qeq_refl _) eq_refl)
    as (H1 & H2 & _).
  split; [exact H1 | exact H2].
Defined.

(** A context that reports and then exits with a non-zero code makes the
    orchestrator clean the temporary file up twice: the promise is resolved
    by the report, and the exit still sets the error flag. *)
Example isolated_run_cleans_up_twice :
  exists st r,
    Isolation.runIsolatedBenchmark "bench" "" (Scenario.withProcessCount 1)
      Cases.reportThenCrash = Returned st /\
    Isolation.promise st = Isolation.Resolved r /\
    Isolation.errorOccurred st = true /\
    Isolation.cleanups st = 2%nat.
Proof.
  eexists. eexists. split; [reflexivity |].
  repeat split; reflexivity.
Qed.

(** ** Comparison and ranking of adaptive runs *)

(** X23.  [compareAdaptiveBenchmarks] names the faster function by the mean
    sample durations of the two runs alone: for positive durations it names
    B exactly when B's duration is the smaller one and A otherwise, whatever
    the iteration counts on which the two runs have settled.  As these may
    differ, the function named can be the one with fewer operations per
    second (see the example below). *)
Theorem compareAdaptiveBenchmarks_faster_by_duration (host : Core.Host)
  (fuel : nat) (T U : Type) (benchmarkA : Core.Named T)
  (benchmarkB : Core.Named U)
  (options : Adaptive.AdaptiveBenchmarkOptions) (w w' : Core.World)
  (resultA : Adaptive.AdaptiveBenchmarkResult T)
  (resultB : Adaptive.AdaptiveBenchmarkResult U) (c : Core.Comparison) :
  let dA := Core.duration (Adaptive.a_result resultA) in
  let dB := Core.duration (Adaptive.a_result resultB) in
  Ranking.compareAdaptiveBenchmarks host fuel benchmarkA benchmarkB options w
  = (Returned (resultA, resultB, c), w') ->
  0 < dA -> 0 < dB ->
  exists w1,
    Adaptive.runAdaptiveBenchmark host T (Core.fn benchmarkA) fuel options w
    = (Returned resultA, w1) /\
    Adaptive.runAdaptiveBenchmark host U (Core.fn benchmarkB) fuel options w1
    = (Returned resultB, w') /\
    (Core.fasterName c = Core.name benchmarkB /\ dB < dA \/
     Core.fasterName c = Core.name benchmarkA /\ dA <= dB).
Proof.
  intros dA dB Hrun HdA HdB.
  unfold Ranking.compareAdaptiveBenchmarks in Hrun.
  bind_inv Hrun. bind_inv Hrun. apply ret_returned in Hrun as [Hrun <-].
  injection Hrun as <- <- <-.
  exists w0. split; [exact Hm |]. split; [exact Hm0 |].
  unfold Core.comparisonOf. cbn [Core.fasterName]. fold dA dB.
  assert (dA / dB * dB == dA) as H' by (field; lra).
  destruct (gt (dA / dB) 1) eqn:E.
  - left. split; [reflexivity |].
    apply gt_true_iff in E.
    assert (1 * dB < dA / dB * dB) as H
      by (apply Qmult_lt_compat_r; assumption).
    rewrite H' in H. lra.
  - right. split; [reflexivity |].
    unfold gt in E. apply negb_false_iff, Qle_bool_iff in E.
    assert (dA / dB * dB <= 1 * dB) as H
      by (apply Qmult_le_compat_r; [assumption | lra]).
    rewrite H' in H. lra.
Qed.

Lemma compareAdaptiveBenchmarks_faster_by_duration_witness :
  exists resultA resultB c w',
    Ranking.compareAdaptiveBenchmarks Scenario.slowHost 100 Cases.benchA
      Cases.benchB Scenario.shortBudget Core.startOfTime
    = (Returned (resultA, resultB, c), w') /\
    (Core.fasterName c = "b"%string /\
     Core.duration (Adaptive.a_result resultB)
     < Core.duration (Adaptive.a_result resultA) \/
     Core.fasterName c = "a"%string /\
     Core.duration (Adaptive.a_result resultA)
     <= Core.duration (Adaptive.a_result resultB)).
Proof.
  destruct (Ranking.compareAdaptiveBenchmarks Scenario.slowHost 100
              Cases.benchA Cases.benchB Scenario.shortBudget
              Core.startOfTime)
    as [[[[resultA resultB] c] | e |] w'] eqn:E;
    try (vm_compute in E; discriminate).
  exists resultA, resultB, c, w'. split; [reflexivity |].
  destruct (compareAdaptiveBenchmarks_faster_by_duration Scenario.slowHost
              100 unit unit Cases.benchA Cases.benchB Scenario.shortBudget
              Core.startOfTime w' resultA resultB c E)
    as (w1 & _ & _ & H).
  - vm_compute in E. injection E as <- _ _ _. reflexivity.
  - vm_compute in E. injection E as _ <- _ _. reflexivity.
  - exact H.
Defined.

(** On a host where the first run meets a pause and settles on 1500
    iterations while the second keeps 1000, the comparison names "b" as the
    faster function although "a" has more operations per second. *)
Example compareAdaptiveBenchmarks_names_lower_rate :
  exists resultA resultB c w',
    Ranking.compareAdaptiveBenchmarks Scenario.slowHost 100 Cases.benchA
      Cases.benchB Scenario.shortBudget Core.startOfTime
    = (Returned (resultA, resultB, c), w') /\
    Core.fasterName c = "b"%string /\
    Core.operationsPerSecond (Adaptive.a_result resultB)
    < Core.operationsPerSecond (Adaptive.a_result resultA).
Proof.
  destruct (Ranking.compareAdaptiveBenchmarks Scenario.slowHost 100
              Cases.benchA Cases.benchB Scenario.shortBudget
              Core.startOfTime)
    as [[[[resultA resultB] c] | e |] w'] eqn:E;
    try (vm_compute in E; discriminate).
  exists resultA, resultB, c, w'. split; [reflexivity |].
  vm_compute in E. injection E as <- <- <- _. split; reflexivity.
Qed.

Section ObjectFacts.
Import Ranking.

Variable V : Type.

Lemma define_keys (o : Obj V) (key : string) (value : V) (k : string) :
  In k (map fst (define o key value)) <-> k = key \/ In k (map fst o).
Proof.
  induction o as [| [k0 v0] rest IH]; simpl.
  - intuition.
  - destruct (String.eqb k0 key) eqn:Ek; simpl.
    + apply String.eqb_eq in Ek. subst k0. intuition.
    + rewrite IH. intuition.
Qed.

Lemma define_nodup (o : Obj V) (key : string) (value : V) :
  NoDup (map fst o) -> NoDup (map fst (define o key value)).
Proof.
  induction o as [| [k0 v0] rest IH]; simpl; intro H.
  - constructor; [intros [] | constructor].
  - inversion H as [| ? ? Hnot Hrest]; subst.
    destruct (String.eqb k0 key) eqn:Ek; simpl.
    + now constructor.
    + apply String.eqb_neq in Ek. constructor; [| now apply IH].
      rewrite define_keys. intros [-> | Hin]; [congruence | contradiction].
Qed.

Lemma assign_keys (o : Obj V) (key : string) (value : V) (k : string) :
  In k (map fst (assign o key value))
  <-> (k = key /\ key <> "__proto__"%string) \/ In k (map fst o).
Proof.
  unfold assign. destruct (String.eqb key "__proto__") eqn:E.
  - apply String.eqb_eq in E. intuition.
  - apply String.eqb_neq in E. rewrite define_keys. intuition.
Qed.

Lemma assign_nodup (o : Obj V) (key : string) (value : V) :
  NoDup (map fst o) -> NoDup (map fst (assign o key value)).
Proof.
  unfold assign. destruct (String.eqb key "__proto__"); [auto |].
  apply define_nodup.
Qed.

Lemma insertIndexed_perm (e : N * (string * V))
  (l : list (N * (string * V))) :
  Permutation (insertIndexed e l) (e :: l).
Proof.
  induction l as [| x rest IH]; simpl; [reflexivity |].
  destruct (fst e <? fst x)%N; [reflexivity |].
  rewrite IH. apply perm_swap.
Qed.

Lemma sortIndexed_perm (l : list (N * (string * V))) :
  Permutation (fold_right insertIndexed [] l) l.
Proof.
  induction l as [| x rest IH]; simpl; [reflexivity |].
  rewrite insertIndexed_perm. now constructor.
Qed.

Lemma entries_perm (o : Obj V) : Permutation (entries o) o.
Proof.
  unfold entries. rewrite sortIndexed_perm.
  induction o as [| e rest IH]; [reflexivity |].
  unfold indexed, named in *. cbn [flat_map filter].
  destruct (arrayIndex (fst e)) as [n |]; simpl.
  - now constructor.
  - rewrite <- Permutation_middle. now constructor.
Qed.

Lemma keys_perm (o : Obj V) : Permutation (keys o) (map fst o).
Proof. unfold keys. apply Permutation_map, entries_perm. Qed.

End ObjectFacts.

Section BestFacts.
Import Ranking.

Variable A : Type.
Variable cmp : A -> A -> bool.
Variables strict weak : A -> A -> Prop.

Hypothesis cmp_true : forall e b, cmp e b = true -> strict e b.
Hypothesis cmp_false : forall e b, cmp e b = false -> weak b e.
Hypothesis strict_weak_trans :
  forall a b c, strict a b -> weak b c -> strict a c.
Hypothesis strict_weak : forall a b, strict a b -> weak a b.
Hypothesis weak_refl : forall a, weak a a.

Lemma first_best_step (done : list A) (best e : A) :
  FirstBest strict weak done best ->
  FirstBest strict weak (done ++ [e]) (if cmp e best then e else best).
Proof.
  intros [(pre & post & Hsplit & Hpre) Hall].
  destruct (cmp e best) eqn:E.
  - apply cmp_true in E. split.
    + exists done, []. split; [reflexivity |].
      intros x Hx. eapply strict_weak_trans; [exact E | now apply Hall].
    + intros x Hx. apply in_app_or in Hx as [Hx | [<- | []]].
      * apply strict_weak. eapply strict_weak_trans; [exact E | now apply Hall].
      * apply weak_refl.
  - apply cmp_false in E. split.
    + exists pre, (post ++ [e]). split; [| exact Hpre].
      rewrite Hsplit, <- app_assoc. reflexivity.
    + intros x Hx. apply in_app_or in Hx as [Hx | [<- | []]];
        [now apply Hall | exact E].
Qed.

Lemma first_best_fold (rest : list A) :
  forall (done : list A) (best : A),
    FirstBest strict weak done best ->
    FirstBest strict weak (done ++ rest)
      (fold_left (fun b e => if cmp e b then e else b) rest best).
Proof.
  induction rest as [| e rest IH]; intros done best H.
  - now rewrite app_nil_r.
  - cbn [fold_left].
    replace (done ++ e :: rest) with ((done ++ [e]) ++ rest)
      by (rewrite <- app_assoc; reflexivity).
    apply IH. now apply first_best_step.
Qed.

Lemma first_best_start (first : A) (rest : list A) :
  FirstBest strict weak (first :: rest)
    (fold_left (fun b e => if cmp e b then e else b) rest first).
Proof.
  apply (first_best_fold rest [first] first). split.
  - exists [], []. split; [reflexivity | intros x []].
  - intros x [<- | []]. apply weak_refl.
Qed.

End BestFacts.

Section RankingFacts.
Import Core Adaptive Ranking.

Variable host : Host.
Variable fuel : nat.
Variable T : Type.

Lemma runAll_keys (options : AdaptiveBenchmarkOptions)
  (benchmarks : list (Named T)) :
  forall (o o' : Obj (AdaptiveBenchmarkResult T)) (w w' : World),
    runAll host fuel T options benchmarks o w = (Returned o', w') ->
    NoDup (map fst o) ->
    NoDup (map fst o') /\
    forall n, In n (map fst o') <->
              In n (map fst o) \/
              (In n (map name benchmarks) /\ n <> "__proto__"%string).
Proof.
  induction benchmarks as [| b rest IH]; intros o o' w w' H Hnd.
  - apply ret_returned in H as [<- _]. split; [exact Hnd |].
    intro n. simpl. intuition.
  - cbn [runAll] in H. bind_inv H.
    apply IH in H; [| now apply assign_nodup].
    destruct H as (Hnd' & Hin). split; [exact Hnd' |].
    intro n. rewrite Hin, assign_keys. simpl. split.
    + intros [[[-> Hp] | Ho] | [Hr Hp]]; auto.
    + intros [Ho | [[<- | Hr] Hp]]; auto.
Qed.

Lemma pairwise_length (names : list (Entry T)) :
  (length (pairwise T names) * 2
   = length names * (length names - 1))%nat.
Proof.
  induction names as [| a rest IH]; [reflexivity |].
  cbn [pairwise length]. rewrite length_app, length_map.
  replace (S (length rest) - 1)%nat with (length rest) by lia.
  destruct (length rest) as [| n] eqn:E; [simpl in *; lia |].
  replace (S n - 1)%nat with n in IH by lia. nia.
Qed.

Lemma pick_fold (rest : list (Entry T)) :
  forall state : Entry T * Entry T,
    fold_left (pick T) rest state
    = (fold_left (fun b e => if lt (durationOf T e) (durationOf T b)
                             then e else b) rest (fst state),
       fold_left (fun b e => if gt (durationOf T e) (durationOf T b)
                             then e else b) rest (snd state)).
Proof.
  induction rest as [| e rest IH]; intros [f s]; [reflexivity |].
  cbn [fold_left]. rewrite IH. reflexivity.
Qed.

Lemma extremes_first_best (names : list (Entry T)) :
  names <> [] ->
  exists f s,
    extremes T names = Some (f, s) /\
    FirstBest (fun a b => durationOf T a < durationOf T b)
              (fun a b => durationOf T a <= durationOf T b) names f /\
    FirstBest (fun a b => durationOf T b < durationOf T a)
              (fun a b => durationOf T b <= durationOf T a) names s.
Proof.
  destruct names as [| first rest]; [congruence |]. intros _.
  unfold extremes. rewrite pick_fold. cbn [fst snd].
  eexists. eexists. split; [reflexivity |]. split.
  - apply (first_best_start (Entry T)
             (fun e b => lt (durationOf T e) (durationOf T b))).
    + intros e b H. now apply lt_true_iff.
    + intros e b H. now apply lt_false_iff.
    + intros a b c H1 H2. lra.
    + intros a b H. lra.
    + intro a. lra.
  - apply (first_best_start (Entry T)
             (fun e b => gt (durationOf T e) (durationOf T b))).
    + intros e b H. now apply gt_true_iff.
    + intros e b H. unfold gt in H.
      now apply negb_false_iff, Qle_bool_iff in H.
    + intros a b c H1 H2. lra.
    + intros a b H. lra.
    + intro a. lra.
Qed.

End RankingFacts.

(** X24.  The report of [runMultipleAdaptiveBenchmarks]: the keys of
    [results] are the distinct names of the benchmarks other than
    ["__proto__"], which creates no property (a name used twice keeps one
    entry); there is one comparison for every pair of keys, k (k - 1) / 2
    for k keys; when no benchmark has another name than ["__proto__"],
    [fastest] and [slowest] are undefined; otherwise [fastest] is the first
    key, in the order of [Object.keys], whose duration no other undercuts,
    and [slowest] the first whose duration no other exceeds. *)
Theorem runMultipleAdaptiveBenchmarks_ranking (host : Core.Host)
  (fuel : nat) (T : Type) (benchmarks : list (Core.Named T))
  (options : Adaptive.AdaptiveBenchmarkOptions) (w w' : Core.World)
  (report : Ranking.Report T) :
  let names := Ranking.entries (Ranking.results report) in
  Ranking.runMultipleAdaptiveBenchmarks host fuel T benchmarks options w
  = (Returned report, w') ->
  NoDup (Ranking.keys (Ranking.results report)) /\
  (forall n, In n (Ranking.keys (Ranking.results report)) <->
             In n (map Core.name benchmarks) /\ n <> "__proto__"%string) /\
  (length (Ranking.comparisons report) * 2
   = length names * (length names - 1))%nat /\
  ((forall b, In b benchmarks -> Core.name b = "__proto__"%string) ->
   Ranking.fastest report = None /\ Ranking.slowest report = None) /\
  ((exists b, In b benchmarks /\ Core.name b <> "__proto__"%string) ->
   exists f s,
     Ranking.fastest report = Some (fst f) /\
     Ranking.slowest report = Some (fst s) /\
     Ranking.FirstBest
       (fun a b => Ranking.durationOf T a < Ranking.durationOf T b)
       (fun a b => Ranking.durationOf T a <= Ranking.durationOf T b)
       names f /\
     Ranking.FirstBest
       (fun a b => Ranking.durationOf T b < Ranking.durationOf T a)
       (fun a b => Ranking.durationOf T b <= Ranking.durationOf T a)
       names s).
Proof.
  intros names Hrun. unfold Ranking.runMultipleAdaptiveBenchmarks in Hrun.
  bind_inv Hrun. apply ret_returned in Hrun as [<- _].
  cbn [Ranking.results Ranking.comparisons Ranking.fastest Ranking.slowest]
    in *.
  apply runAll_keys in Hm; [| constructor]. destruct Hm as (Hnd & Hin).
  assert (forall n, In n (Ranking.keys a) <->
                    In n (map Core.name benchmarks)
                    /\ n <> "__proto__"%string) as Hkeys.
  { intro n. split; intro H.
    - apply (Permutation_in _ (keys_perm _ a)) in H.
      apply Hin in H as [[] | H]. exact H.
    - apply (Permutation_in _ (Permutation_sym (keys_perm _ a))).
      apply Hin. now right. }
  split.
  { eapply Permutation_NoDup; [apply Permutation_sym, keys_perm | exact Hnd]. }
  split; [exact Hkeys |].
  split; [apply pairwise_length |].
  split.
  - intros Hall. subst names.
    destruct (Ranking.entries a) as [| e rest] eqn:E; [split; reflexivity |].
    exfalso.
    assert (In (fst e) (Ranking.keys a)) as He
      by (unfold Ranking.keys; rewrite E; now left).
    apply Hkeys in He as [He Hp]. apply in_map_iff in He as (b & Hb & Hin').
    apply Hp. rewrite <- Hb. now apply Hall.
  - intros (b & Hb & Hp). subst names.
    destruct (extremes_first_best T (Ranking.entries a))
      as (f & s & He & Hf & Hs).
    + intro E.
      assert (In (Core.name b) (Ranking.keys a)) as Hk.
      { apply Hkeys. split; [now apply in_map | exact Hp]. }
      unfold Ranking.keys in Hk. rewrite E in Hk. exact Hk.
    + exists f, s. rewrite He. repeat split; try apply Hf; try apply Hs.
Qed.

Lemma runMultipleAdaptiveBenchmarks_ranking_witness :
  exists report w',
    Ranking.runMultipleAdaptiveBenchmarks Scenario.slowHost 100 unit
      Cases.lineup Scenario.shortBudget Core.startOfTime
    = (Returned report, w') /\
    NoDup (Ranking.keys (Ranking.results report)) /\
    (length (Ranking.comparisons report) * 2
     = length (Ranking.entries (Ranking.results report))
       * (length (Ranking.entries (Ranking.results report)) - 1))%nat.
Proof.
  destruct (Ranking.runMultipleAdaptiveBenchmarks Scenario.slowHost 100 unit
              Cases.lineup Scenario.shortBudget Core.startOfTime)
    as [[report | e |] w'] eqn:E; try (vm_compute in E; discriminate).
  exists report, w'. split; [reflexivity |].
  destruct (runMultipleAdaptiveBenchmarks_ranking Scenario.slowHost 100 unit
              Cases.lineup Scenario.shortBudget Core.startOfTime w' report E)
    as (H1 & _ & H3 & _).
  split; [exact H1 | exact H3].
Defined.

(** A benchmark named "__proto__" leaves no entry: the report has no key and
    no fastest. *)
Example runMultipleAdaptiveBenchmarks_proto_name :
  exists report w',
    Ranking.runMultipleAdaptiveBenchmarks Scenario.slowHost 100 unit
      [Core.mkNamed "__proto__" Scenario.quietFn] Scenario.shortBudget
      Core.startOfTime
    = (Returned report, w') /\
    Ranking.keys (Ranking.results report) = [] /\
    Ranking.fastest report = None.
Proof.
  destruct (Ranking.runMultipleAdaptiveBenchmarks Scenario.slowHost 100 unit
              [Core.mkNamed "__proto__" Scenario.quietFn] Scenario.shortBudget
              Core.startOfTime)
    as [[report | e |] w'] eqn:E; try (vm_compute in E; discriminate).
  exists report, w'. split; [reflexivity |].
  vm_compute in E. injection E as <- _. split; reflexivity.
Qed.

(** Of four benchmarks named "b", "1", "a" and "b" again, the report keeps
    three entries, lists the array index first, and has three
    comparisons. *)
Example runMultipleAdaptiveBenchmarks_duplicate_name :
  exists report w',
    Ranking.runMultipleAdaptiveBenchmarks Scenario.slowHost 100 unit
      Cases.lineup Scenario.shortBudget Core.startOfTime
    = (Returned report, w') /\
    Ranking.keys (Ranking.results report)
    = ["1"%string; "b"%string; "a"%string] /\
    length (Ranking.comparisons report) = 3%nat /\
    Ranking.fastest report = Some "1"%string.
Proof.
  destruct (Ranking.runMultipleAdaptiveBenchmarks Scenario.slowHost 100 unit
              Cases.lineup Scenario.shortBudget Core.startOfTime)
    as [[report | e |] w'] eqn:E; try (vm_compute in E; discriminate).
  exists report, w'. split; [reflexivity |].
  vm_compute in E. injection E as <- _. repeat split; reflexivity.
Qed.

(** ** What the calibration costs *)

Section CalibrationCost.
Import Core Adaptive.

Variable host : Host.
Variable T : Type.
Variable benchmarkFn : BenchmarkFunction T.
Hypothesis fn_quiet : forall w, benchmarkFn w <> None.






End CalibrationCost.



(** * The claims that depend on rounding *)

(** ** Binary64 rounding is a rounding *)

Section RoundingFacts.
Import Binary64.

Lemma two_nonzero : ~ 2 == 0.
Proof. discriminate. Qed.

Lemma pow2_pos (e : Z) : 0 < pow2 e.
Proof. apply Qpower_0_lt. reflexivity. Qed.

Lemma pow2_plus (a b : Z) : pow2 (a + b) == pow2 a * pow2 b.
Proof. apply Qpower_plus, two_nonzero. Qed.

Lemma pow2_le (a b : Z) : (a <= b)%Z -> pow2 a <= pow2 b.
Proof. intro H. apply Qpower_le_compat_l; [exact H | discriminate]. Qed.

Lemma pow2_lt_inv (a b : Z) : pow2 a < pow2 b -> (a < b)%Z.
Proof. intro H. apply (Qpower_lt_compat_l_inv 2); [exact H | reflexivity]. Qed.

Lemma pow2_Z (e : Z) : (0 <= e)%Z -> pow2 e == inject_Z (2 ^ e).
Proof. intro H. unfold pow2. now rewrite Zpower_Qpower. Qed.

Lemma log2_bounds (n : Z) :
  (0 < n)%Z ->
  pow2 (Z.log2 n) <= inject_Z n /\ inject_Z n < pow2 (Z.log2 n + 1).
Proof.
  intro H. destruct (Z.log2_spec n H) as [Hlo Hhi].
  pose proof (Z.log2_nonneg n) as H0.
  rewrite !pow2_Z by lia. rewrite <- Zle_Qle, <- Zlt_Qlt.
  split; [exact Hlo |]. exact Hhi.
Qed.

Lemma div_lt_div (P D X Y : Q) :
  0 < D -> 0 < Y -> P * Y < X * D -> P / D < X / Y.
Proof.
  intros HD HY H. apply Qlt_shift_div_l; [exact HY |].
  setoid_replace (P / D * Y) with (P * Y / D) by (field; lra).
  apply Qlt_shift_div_r; assumption.
Qed.

Lemma div_le_div (P D X Y : Q) :
  0 < D -> 0 < Y -> X * D <= P * Y -> X / Y <= P / D.
Proof.
  intros HD HY H. apply Qle_shift_div_l; [exact HD |].
  setoid_replace (X / Y * D) with (X * D / Y) by (field; lra).
  apply Qle_shift_div_r; assumption.
Qed.

Lemma exponent_spec (a : Q) :
  0 < a -> pow2 (exponent a) <= a /\ a < pow2 (exponent a + 1).
Proof.
  intro Ha. destruct a as [p q].
  assert (0 < p)%Z as Hp by (unfold Qlt in Ha; simpl in Ha; lia).
  unfold exponent. cbn [Qnum Qden].
  set (lp := Z.log2 p). set (lq := Z.log2 (Z.pos q)).
  destruct (log2_bounds p Hp) as [P1 P2]. fold lp in P1, P2.
  destruct (log2_bounds (Z.pos q) eq_refl) as [D1 D2]. fold lq in D1, D2.
  pose proof (pow2_pos lp) as Xp. pose proof (pow2_pos lq) as Xq.
  pose proof (pow2_pos (lp + 1)) as Xp1. pose proof (pow2_pos (lq + 1)) as Xq1.
  assert (0 < inject_Z (Z.pos q)) as Dpos by reflexivity.
  assert (0 < inject_Z p) as Ppos by (rewrite <- (Zlt_Qlt 0); exact Hp).
  assert (p # q == inject_Z p / inject_Z (Z.pos q)) as Ea by apply Qmake_Qdiv.
  assert (p # q < pow2 (lp - lq + 1)) as Hup.
  { replace (lp - lq + 1)%Z with ((lp + 1) - lq)%Z by lia.
    unfold pow2 at 1. rewrite Qpower_minus by apply two_nonzero.
    fold (pow2 (lp + 1)) (pow2 lq). rewrite Ea.
    apply div_lt_div; try assumption. nra. }
  assert (pow2 (lp - lq - 1) <= p # q) as Hlow.
  { replace (lp - lq - 1)%Z with (lp - (lq + 1))%Z by lia.
    unfold pow2 at 1. rewrite Qpower_minus by apply two_nonzero.
    fold (pow2 lp) (pow2 (lq + 1)). rewrite Ea.
    apply div_le_div; try assumption. nra. }
  destruct (Qle_bool (pow2 (lp - lq)) (p # q)) eqn:E.
  - apply Qle_bool_iff in E. split; assumption.
  - assert (p # q < pow2 (lp - lq)) as Hlt.
    { apply Qnot_le_lt. intro H. apply Qle_bool_iff in H. congruence. }
    replace (lp - lq - 1 + 1)%Z with (lp - lq)%Z by lia.
    split; assumption.
Qed.

Lemma exponent_below (a : Q) (u : Z) :
  0 < a -> a < pow2 u -> (exponent a < u)%Z.
Proof.
  intros Ha Hu. destruct (exponent_spec a Ha) as [Hlo _].
  apply pow2_lt_inv. lra.
Qed.

Lemma exponent_above (a : Q) (l : Z) :
  0 < a -> pow2 l <= a -> (l <= exponent a)%Z.
Proof.
  intros Ha Hl. destruct (exponent_spec a Ha) as [_ Hhi].
  assert (l < exponent a + 1)%Z by (apply pow2_lt_inv; lra). lia.
Qed.

Lemma nearestEven_whole (m : Q) (n : Z) :
  m == inject_Z n -> nearestEven m = n.
Proof.
  intro H. unfold nearestEven.
  assert (Qfloor m = n) as -> by (rewrite (Qfloor_comp _ _ H); apply Qfloor_Z).
  assert (Qcompare (m - inject_Z n) (1 # 2) = Lt) as ->; [| reflexivity].
  apply Qlt_alt. rewrite H.
  setoid_replace (inject_Z n - inject_Z n) with 0 by ring. reflexivity.
Qed.

Lemma nearestEven_bounds (m : Q) (lo hi : Z) :
  inject_Z lo <= m -> m <= inject_Z hi ->
  (lo <= nearestEven m <= hi)%Z.
Proof.
  intros Hlo Hhi.
  pose proof (Qfloor_le m) as Hf. pose proof (Qlt_floor m) as Hc.
  assert (lo <= Qfloor m)%Z as L.
  { apply Qfloor_resp_le in Hlo. now rewrite Qfloor_Z in Hlo. }
  assert (Qfloor m <= hi)%Z as U.
  { rewrite Zle_Qle. lra. }
  unfold nearestEven.
  assert (m - inject_Z (Qfloor m) > 0 -> (Qfloor m + 1 <= hi)%Z) as Up.
  { intro Hgt. assert (Qfloor m < hi)%Z; [| lia].
    rewrite Zlt_Qlt. lra. }
  destruct (Qcompare (m - inject_Z (Qfloor m)) (1 # 2)) eqn:E.
  - apply Qeq_alt in E. destruct (Z.even (Qfloor m)); [lia |].
    split; [lia |]. apply Up. lra.
  - lia.
  - apply Qgt_alt in E. split; [lia |]. apply Up. lra.
Qed.

Lemma round_proper (x y : Q) : x == y -> round x = round y.
Proof. intro H. unfold round. now rewrite (Qred_complete _ _ H). Qed.

Lemma round_zero (x : Q) : x == 0 -> round x = 0.
Proof. intro H. rewrite (round_proper _ _ H). reflexivity. Qed.

(** A multiple [n * 2^k] of a power of two, with [|n| <= 2^53] and
    [k >= -1074], is left as it is. *)
Lemma round_multiple (n k : Z) :
  (Z.abs n <= 2 ^ 53)%Z -> (-1074 <= k)%Z ->
  round (inject_Z n * pow2 k) == inject_Z n * pow2 k.
Proof.
  intros Hn Hk.
  destruct (Z.eq_dec n 0) as [-> | Hn0].
  { rewrite round_zero; [| ring]. ring. }
  set (y := inject_Z n * pow2 k).
  pose proof (pow2_pos k) as Sk.
  assert (Qabs y == inject_Z (Z.abs n) * pow2 k) as Habs.
  { unfold y. rewrite Qabs_Qmult, (Qabs_pos (pow2 k)) by lra. reflexivity. }
  assert (1 <= inject_Z (Z.abs n)) as H1.
  { rewrite <- (Zle_Qle 1). lia. }
  assert (0 < Qabs y) as Hpos by (rewrite Habs; nra).
  assert (~ y == 0) as Hy0.
  { intro H. rewrite H in Hpos. discriminate Hpos. }
  unfold round.
  assert (Qeq_bool (Qred y) 0 = false) as ->.
  { apply not_true_iff_false. rewrite Qeq_bool_iff, Qred_correct. exact Hy0. }
  assert (Qabs (Qred y) == Qabs y) as HabsR by (now rewrite Qred_correct).
  set (e := exponent (Qabs (Qred y))).
  assert (0 < Qabs (Qred y)) as HposR by (rewrite HabsR; exact Hpos).
  destruct (exponent_spec _ HposR) as [Elo Ehi]. fold e in Elo, Ehi.
  rewrite HabsR, Habs in Elo, Ehi.
  unfold spacing. fold e.
  set (k' := (Z.max e (-1022) - 52)%Z).
  pose proof (pow2_pos k') as Sk'.
  assert (pow2 (k + 53) == inject_Z (2 ^ 53) * pow2 k) as H53.
  { rewrite Z.add_comm, pow2_plus, (pow2_Z 53) by lia. reflexivity. }
  assert (exists j : Z, Qred y / pow2 k' == inject_Z j) as (j & Hj).
  { destruct (Z.eq_dec (Z.abs n) (2 ^ 53)) as [Hmax | Hlt].
    - (* the mantissa is 2^53: one binade up *)
      assert (pow2 (k + 53) == inject_Z (Z.abs n) * pow2 k) as Hy.
      { rewrite Hmax, H53. reflexivity. }
      assert (e = k + 53)%Z as He.
      { assert (k + 53 <= e)%Z.
        { apply exponent_above; [exact HposR |]. rewrite HabsR, Habs, <- Hy.
          apply Qle_refl. }
        assert (e < k + 54)%Z.
        { apply exponent_below; [exact HposR |]. rewrite HabsR, Habs, <- Hy.
          apply Qpower_lt_compat_l; [lia | reflexivity]. }
        lia. }
      assert (k' = k + 1)%Z as -> by (unfold k'; lia).
      exists (n / 2)%Z.
      assert (n = 2 * (n / 2))%Z as Hdiv.
      { apply Z.div_exact; [lia |].
        destruct (Z.abs_eq_or_opp n) as [E | E]; rewrite E in Hmax.
        - rewrite Hmax. reflexivity.
        - replace n with (- 2 ^ 53)%Z by lia. reflexivity. }
      rewrite Qred_correct. unfold y. rewrite pow2_plus.
      rewrite Hdiv at 1. rewrite inject_Z_mult.
      change (pow2 1) with 2. change (inject_Z 2) with 2. field. lra.
    - assert (e <= k + 52)%Z as He.
      { assert (e < k + 53)%Z; [| lia].
        apply exponent_below; [exact HposR |]. rewrite HabsR, Habs, H53.
        apply Qmult_lt_compat_r; [exact Sk |].
        rewrite <- Zlt_Qlt. lia. }
      assert (k' <= k)%Z as Hk' by (unfold k'; lia).
      exists (n * 2 ^ (k - k'))%Z.
      rewrite Qred_correct. unfold y.
      rewrite inject_Z_mult, <- pow2_Z by lia.
      replace k with ((k - k') + k')%Z at 1 by lia.
      rewrite pow2_plus. field. lra. }
  rewrite (nearestEven_whole _ _ Hj), <- Hj, !Qred_correct. field. lra.
Qed.

Lemma round_idempotent (x : Q) : round (round x) == round x.
Proof.
  destruct (Qeq_bool (Qred x) 0) eqn:E0.
  { assert (round x = 0) as -> by (unfold round; now rewrite E0).
    reflexivity. }
  set (x' := Qred x) in *. set (a := Qabs x').
  assert (~ x' == 0) as Hx0.
  { intro H. apply Qeq_bool_iff in H. congruence. }
  assert (0 < a) as Ha.
  { unfold a. apply Qabs_case; intro H; lra. }
  destruct (exponent_spec a Ha) as [Elo Ehi].
  set (e := exponent a) in *.
  set (k := (Z.max e (-1022) - 52)%Z).
  pose proof (pow2_pos k) as Sk.
  set (n := nearestEven (x' / pow2 k)).
  assert (round x = Qred (inject_Z n * pow2 k)) as ->.
  { unfold round. fold x'. rewrite E0. reflexivity. }
  rewrite (round_proper _ (inject_Z n * pow2 k)) by apply Qred_correct.
  rewrite Qred_correct.
  apply round_multiple; [| unfold k; lia].
  assert (a < inject_Z (2 ^ 53) * pow2 k) as Hlt.
  { apply Qlt_le_trans with (pow2 (e + 1)); [exact Ehi |].
    rewrite <- (pow2_Z 53), <- pow2_plus by lia. apply pow2_le. unfold k. lia. }
  assert (Qabs (x' / pow2 k) < inject_Z (2 ^ 53)) as Hm.
  { unfold Qdiv. rewrite Qabs_Qmult, Qabs_Qinv, (Qabs_pos (pow2 k)) by lra.
    fold a. apply Qlt_shift_div_r; assumption. }
  apply Qabs_Qlt_condition in Hm. destruct Hm as [Hm1 Hm2].
  assert (- 2 ^ 53 <= n <= 2 ^ 53)%Z as Hn.
  { apply nearestEven_bounds.
    - rewrite inject_Z_opp. lra.
    - lra. }
  lia.
Qed.

End RoundingFacts.

Lemma binary64_rounding : Rounded.Rounding Binary64.round.
Proof.
  split.
  - intros x y H. now rewrite (round_proper x y H).
  - apply round_idempotent.
Qed.

Lemma exact_rounding : Rounded.Rounding Rounded.exact.
Proof. split; [intros x y H; exact H | reflexivity]. Qed.

(** The binary64 values nearest to 0.1 and to 0.3, and 0.1 + 0.2. *)
Example binary64_tenth :
  Cases.tenth == 3602879701896397 # 36028797018963968 /\
  Cases.threeTenths == 5404319552844595 # 18014398509481984 /\
  Binary64.round (Cases.tenth + Cases.fifth)
  == 5404319552844596 # 18014398509481984.
Proof. vm_compute. repeat split; reflexivity. Qed.

(** ** The rounded functions *)

Section RoundedFacts.
Import Rounded.

Variable rnd : Q -> Q.




Hypothesis rounding : Rounding rnd.

Lemma add_zero_rounded (x : Q) : add rnd 0 (rnd x) == rnd x.
Proof.
  destruct rounding as [Hp Hi]. unfold add.
  rewrite (Hp (0 + rnd x) (rnd x)) by ring. apply Hi.
Qed.

(** With two reports the accumulated share does not depend on their
    order. *)
Lemma accumulate_two (f : Isolation.Report -> Q) (a b : Isolation.Report) :
  accumulate rnd f [a; b] == accumulate rnd f [b; a].
Proof.
  destruct rounding as [Hp Hi].
  unfold accumulate. cbn [fold_left].
  change (len [b; a]) with (len [a; b]).
  set (A := div rnd (f a) (len [a; b])).
  set (B := div rnd (f b) (len [a; b])).
  unfold add at 1 3.
  apply Hp.
  assert (add rnd 0 A == A) as -> by apply add_zero_rounded.
  assert (add rnd 0 B == B) as -> by apply add_zero_rounded.
  ring.
Qed.

End RoundedFacts.

(** Without rounding the two functions are those of the exact model. *)
Lemma rounded_sort_exact (l : list Q) :
  Rounded.sort Rounded.exact l = sort l.
Proof.
  induction l as [| x l IH]; [reflexivity |].
  simpl. rewrite IH. generalize (sort l). clear.
  intro s. induction s as [| y s IH]; [reflexivity |].
  simpl. change (Rounded.before Rounded.exact x y) with (before x y).
  now rewrite IH.
Qed.

Lemma calculateStats_exact (sqrt : Q -> Q) (values : list Q) :
  Rounded.calculateStats Rounded.exact sqrt values
  = Stats.calculateStats sqrt values.
Proof.
  destruct values as [| x rest]; [reflexivity |].
  unfold Rounded.calculateStats, Stats.calculateStats.
  rewrite rounded_sort_exact. reflexivity.
Qed.

Lemma combineResults_exact (reports : list Isolation.Report) :
  Rounded.combineResults Rounded.exact reports
  = Isolation.combineResults reports.
Proof. destruct reports as [| a [| b rest]]; reflexivity. Qed.




(** C6 (as stated, refuted).  Two reports that differ in the value returned
    by the measured function merge to different results in the two orders;
    and three reports of 0.1, 0.2 and 0.3 ms merge to a duration of 0.2 ms in
    one order and of 0.20000000000000004 ms in the reverse order. *)
Lemma combineResults_depends_on_order :
  (Permutation [Scenario.reportTrue; Scenario.reportFalse]
               [Scenario.reportFalse; Scenario.reportTrue] /\
   exists c c',
     Rounded.combineResults Binary64.round
       [Scenario.reportTrue; Scenario.reportFalse] = Returned c /\
     Rounded.combineResults Binary64.round
       [Scenario.reportFalse; Scenario.reportTrue] = Returned c' /\
     Core.result c <> Core.result c') /\
  (Permutation Cases.quickReports (rev Cases.quickReports) /\
   exists c c',
     Rounded.combineResults Binary64.round Cases.quickReports = Returned c /\
     Rounded.combineResults Binary64.round (rev Cases.quickReports)
     = Returned c' /\
     Core.duration c == 3602879701896397 # 18014398509481984 /\
     Core.duration c' == 7205759403792793 # 36028797018963968 /\
     ~ Core.duration c == Core.duration c').
Proof.
  split.
  - split; [apply perm_swap |].
    eexists. eexists. split; [reflexivity |]. split; [reflexivity |].
    discriminate.
  - split; [apply Permutation_rev |].
    eexists. eexists.
    split; [vm_compute; reflexivity |]. split; [vm_compute; reflexivity |].
    split; [reflexivity |]. split; [reflexivity |]. discriminate.
Qed.

(** C6 (amended).  For every non-empty list of reports and every
    permutation of it both merges return a result; the iteration count and
    a non-numeric custom field (the function's result) are those of the
    first report of the list as given; and for one or two reports the
    merged duration, operations per second and memory figures are the same
    in either order.  (From three reports on the shares are added in the
    order of arrival, and the sums can differ by rounding.) *)
Theorem combineResults_order_with_rounding (rnd : Q -> Q)
  (reports reports' : list Isolation.Report) :
  Rounded.Rounding rnd ->
  reports <> [] -> Permutation reports reports' ->
  exists first c c',
    hd_error reports = Some first /\
    Rounded.combineResults rnd reports = Returned c /\
    Rounded.combineResults rnd reports' = Returned c' /\
    Core.r_iterations c = Core.r_iterations first /\
    (Isolation.isNumber (Core.result first) = false ->
     Core.result c = Core.result first) /\
    ((length reports <= 2)%nat -> Isolation.sameMeans c c').
Proof.
  intros Hr Hne Hperm.
  destruct reports as [| a [| b rest]]; [congruence | |].
  - apply Permutation_length_1_inv in Hperm. subst reports'.
    exists a, a, a. repeat split; try reflexivity.
  - assert (exists a' b' rest', reports' = a' :: b' :: rest')
      as (a' & b' & rest' & ->).
    { pose proof (Permutation_length Hperm) as L.
      destruct reports' as [| a' [| b' rest']]; try discriminate.
      now exists a', b', rest'. }
    eexists. eexists. eexists.
    split; [reflexivity |]. split; [reflexivity |]. split; [reflexivity |].
    cbn [Core.r_iterations Core.result].
    split; [reflexivity |].
    split; [intros ->; reflexivity |].
    intro Hlen. destruct rest as [| c rest]; [| simpl in Hlen; lia].
    apply Permutation_length_2_inv in Hperm.
    destruct Hperm as [E | E]; injection E as -> -> ->.
    + apply sameMeans_refl.
    + unfold Isolation.sameMeans.
      cbn [Core.duration Core.operationsPerSecond Core.memoryDelta
           Core.d_heapUsed Core.d_heapTotal Core.d_rss Core.d_external].
      repeat split; apply accumulate_two; exact Hr.
Qed.

Lemma combineResults_order_with_rounding_witness :
  exists c c',
    Rounded.combineResults Binary64.round
      [Scenario.reportOne; Scenario.reportThree] = Returned c /\
    Rounded.combineResults Binary64.round
      [Scenario.reportThree; Scenario.reportOne] = Returned c' /\
    Isolation.sameMeans c c'.
Proof.
  destruct (combineResults_order_with_rounding Binary64.round
              [Scenario.reportOne; Scenario.reportThree]
              [Scenario.reportThree; Scenario.reportOne]
              binary64_rounding)
    as (first & c & c' & _ & Hc & Hc' & _ & _ & Hsame).
  - discriminate.
  - apply perm_swap.
  - exists c, c'. split; [exact Hc |]. split; [exact Hc' |].
    apply Hsame. simpl. lia.
Defined.

(** C5 (as stated, refuted).  With three contexts wanted, three result
    messages of which one carries no result resolve the promise with the
    merge of two reports; and with one context wanted, a report followed by
    an abnormal exit leaves the promise resolved. *)
Lemma isolated_run_resolves_with_fewer_reports :
  (exists st r,
     Isolation.runIsolatedBenchmark "bench" "" (Scenario.withProcessCount 3)
       Cases.emptyHandedTrace = Returned st /\
     Isolation.promise st = Isolation.Resolved r /\
     Isolation.results st = [Scenario.reportOne; Scenario.reportThree] /\
     Isolation.combineResults [Scenario.reportOne; Scenario.reportThree]
     = Returned r) /\
  (exists st r,
     Isolation.runIsolatedBenchmark "bench" "" (Scenario.withProcessCount 1)
       Cases.reportThenCrash = Returned st /\
     Isolation.promise st = Isolation.Resolved r /\
     In (None, Some (ExitError 1))
        (Isolation.callbacks Cases.reportThenCrash)).
Proof.
  split.
  - eexists. eexists. split; [reflexivity |].
    split; [reflexivity |]. split; reflexivity.
  - eexists. eexists. split; [reflexivity |].
    split; [reflexivity |]. simpl. auto.
Qed.

(** C10 (as stated, refuted).  On [1, 2, 3, 100] the value 100 is an extreme
    outlier, so [calculateEnhancedStats] takes its median from the clean
    values [1, 2, 3] and reports 2, while the element at index 2 of the
    ascending input is 3: the reported median is not the upper middle value
    of the input. *)
Lemma calculateEnhancedStats_median_of_clean_values :
  exists e,
    Stats.calculateEnhancedStats Scenario.sqrt6 Cases.farFourth
    = Returned e /\
    Stats.median (Stats.e_stats e) = 2 /\
    Stats.UpperMiddle Cases.farFourth 3 /\
    ~ Stats.UpperMiddle Cases.farFourth (Stats.median (Stats.e_stats e)).
Proof.
  eexists. split; [vm_compute; reflexivity |].
  split; [reflexivity |]. split.
  - destruct (middle_sort_upper Cases.farFourth 1 eq_refl) as (m & Hm & Hup).
    vm_compute in Hm. injection Hm as <-. exact Hup.
  - cbn [Stats.e_stats Stats.median].
    intros (ascending & k & lo & Hperm & Hsorted & Hlen & _ & Hm & _).
    assert (k = 1%nat) as -> by (simpl in Hlen; lia).
    apply StronglySorted_Sorted in Hsorted.
    pose proof (sorted_prefix_below ascending 2 2 Hsorted Hm) as Hcount.
    rewrite (filter_perm_length _ _ _ Hperm) in Hcount.
    vm_compute in Hcount. lia.
Qed.
